(** * Boids screensaver: a shallow embedding of [boids.c]

    The development follows the C source function by function.

    Conventions of the embedding.
    - The C types [float] and [double] are read as the field of real numbers:
      every arithmetic operation is exact, [sqrtf]/[sqrt], [sin], [cos] and
      [exp] are the functions of the same name of the real-number library,
      and the macro [PI] denotes the number it approximates.  Rounding,
      infinities and NaN of IEEE arithmetic are outside of this model.
    - [limit_speed] is embedded a second time, in IEEE binary32 arithmetic
      ([limit_speed_binary32]), to show what rounding does to the clamp.
    - [int] values are integers of [Z]; the one place where the source narrows
      a [time_t] difference to [int] writes the wrap-around out ([to_int]).
    - The global array [boids] is a list, read with [nth] and written with
      [upd]; the loops over [0 .. NUM_BOIDS-1] are folds over [seq].
    - [time(NULL)] is an argument of the function that reads it, and [rand()]
      reads the next number of a tape kept in the state.
    - The drawing loop of [main] is embedded by the end points it passes to
      [XDrawLine] ([draw_boids]); the conversion [(int)f] discards the
      fractional part ([int_of_float]). *)

From Stdlib Require Import Reals ZArith List Bool Lia Lra Psatz.
From Stdlib Require Import Floats.SpecFloat.
Import ListNotations.

Open Scope R_scope.

(** ** Constants (the [#define]s of the source) *)

Definition NUM_BOIDS : nat := 500.
Definition MAX_SPEED : R := 4.
Definition NEIGHBOR_RADIUS : Z := 50.
Definition ALIGNMENT_WEIGHT : R := 0.05.
Definition COHESION_WEIGHT : R := 0.01.
Definition SEPARATION_WEIGHT : R := 0.15.
Definition PATTERN_FORCE : R := 0.2.
Definition PATTERN_SEPARATION_WEIGHT : R := 0.001.
Definition BOIDS_TIME : Z := 30.
Definition PATTERN_TIME : Z := 35.

(** The upper end of the range of [rand()]. *)
Definition RAND_MAX : Z := 2147483647.

(** ** Comparisons of the C source, as booleans *)

Definition Rltb (a b : R) : bool := if Rlt_dec a b then true else false.
Definition Rgtb (a b : R) : bool := Rltb b a.
Definition Rgeb (a b : R) : bool := negb (Rltb a b).

(** ** Data *)

Record Boid : Type := mkBoid {
  x : R;
  y : R;
  vx : R;
  vy : R;
  target_x : R;
  target_y : R;
  index : Z
}.

Inductive FlockingMode : Type :=
| MODE_NORMAL
| MODE_LISSAJOUS
| MODE_ROSE
| MODE_HYPOCYCLOID
| MODE_BUTTERFLY
| MODE_MAURER_ROSE
| MODE_SPIROGRAPH
| MODE_FERMAT_SPIRAL
| MODE_CARDIOID.

(** The integer value of an enumerator, and the enumerator of an integer.
    Integers outside [0 .. 8] name no enumerator; the source produces none. *)
Definition int_of_mode (m : FlockingMode) : Z :=
  match m with
  | MODE_NORMAL => 0
  | MODE_LISSAJOUS => 1
  | MODE_ROSE => 2
  | MODE_HYPOCYCLOID => 3
  | MODE_BUTTERFLY => 4
  | MODE_MAURER_ROSE => 5
  | MODE_SPIROGRAPH => 6
  | MODE_FERMAT_SPIRAL => 7
  | MODE_CARDIOID => 8
  end%Z.

Definition mode_of_int (k : Z) : FlockingMode :=
  match k with
  | 1 => MODE_LISSAJOUS
  | 2 => MODE_ROSE
  | 3 => MODE_HYPOCYCLOID
  | 4 => MODE_BUTTERFLY
  | 5 => MODE_MAURER_ROSE
  | 6 => MODE_SPIROGRAPH
  | 7 => MODE_FERMAT_SPIRAL
  | 8 => MODE_CARDIOID
  | _ => MODE_NORMAL
  end%Z.

Definition mode_eqb (a b : FlockingMode) : bool :=
  Z.eqb (int_of_mode a) (int_of_mode b).

Definition is_pattern (m : FlockingMode) : bool :=
  negb (mode_eqb m MODE_NORMAL).

(** The process-wide state: the globals of the source, and the tape of the
    numbers [rand()] is still to return. *)
Record World : Type := mkWorld {
  boids : list Boid;
  current_mode : FlockingMode;
  pattern_time : R;
  auto_mode : bool;
  last_mode_change : Z;
  last_pattern_mode : FlockingMode;
  rand_tape : list Z
}.

(** ** Helpers of the source *)

Definition get_scale_factor (width height : Z) : R :=
  Rmin (IZR width) (IZR height) * 0.3.

Definition limit_speed (b : Boid) : Boid :=
  let speed := sqrt (vx b * vx b + vy b * vy b) in
  if Rgtb speed MAX_SPEED then
    mkBoid (x b) (y b) (vx b / speed * MAX_SPEED) (vy b / speed * MAX_SPEED)
           (target_x b) (target_y b) (index b)
  else b.

(** *** The clamp in IEEE binary32

    The [float] operations of [limit_speed] as IEEE 754 binary32 operations
    (24 bits of precision, round to nearest even).  The comparison with
    [MAX_SPEED] and the product with it are made in [double] by the source;
    the conversion to [double] leaves the values as they are, and a product
    with 4 is exact in either format, so both are stated in binary32. *)

Definition binary32_add : spec_float -> spec_float -> spec_float :=
  SFadd 24 128.
Definition binary32_mul : spec_float -> spec_float -> spec_float :=
  SFmul 24 128.
Definition binary32_div : spec_float -> spec_float -> spec_float :=
  SFdiv 24 128.
Definition binary32_sub : spec_float -> spec_float -> spec_float :=
  SFsub 24 128.
Definition binary32_sqrt : spec_float -> spec_float := SFsqrt 24 128.

(** The binary32 number nearest to [m * 2^e]. *)
Definition binary32_of (m e : Z) : spec_float :=
  binary_normalize 24 128 m e false.

Definition MAX_SPEED_binary32 : spec_float := binary32_of 4 0.

(** The velocity component [init_boids] computes from the number [r] of
    [rand()]: [((r % 100) / 50.0f - 1.0f) * MAX_SPEED]. *)
Definition init_velocity_binary32 (r : Z) : spec_float :=
  binary32_mul
    (binary32_sub
       (binary32_div (binary32_of (Z.rem r 100) 0) (binary32_of 50 0))
       (binary32_of 1 0))
    MAX_SPEED_binary32.

(** [sqrtf(vx * vx + vy * vy)] of a velocity [(vx, vy)]. *)
Definition speed_binary32 (v : spec_float * spec_float) : spec_float :=
  binary32_sqrt (binary32_add (binary32_mul (fst v) (fst v))
                              (binary32_mul (snd v) (snd v))).

(** [limit_speed] on the velocity [(vx, vy)] of the agent. *)
Definition limit_speed_binary32 (v : spec_float * spec_float)
  : spec_float * spec_float :=
  let speed := speed_binary32 v in
  if SFltb MAX_SPEED_binary32 speed then
    (binary32_mul (binary32_div (fst v) speed) MAX_SPEED_binary32,
     binary32_mul (binary32_div (snd v) speed) MAX_SPEED_binary32)
  else v.

(** ** The curve library

    Each function returns the pair the source stores through [*x] and [*y].
    [width/2] and [height/2] are divisions of [int]s. *)

Definition calculate_lissajous_position (t : R) (width height : Z) : R * R :=
  let scale := get_scale_factor width height in
  let a := 3 in
  let b := 2 in
  (IZR (Z.quot width 2) + scale * sin (a * t),
   IZR (Z.quot height 2) + scale * sin (b * t + PI / 2)).

Definition calculate_rose_position (t : R) (width height : Z) : R * R :=
  let scale := get_scale_factor width height in
  let k := 3 in
  let r := scale * sin (k * t) in
  (IZR (Z.quot width 2) + r * cos t,
   IZR (Z.quot height 2) + r * sin t).

Definition calculate_hypocycloid_position (t : R) (width height : Z) : R * R :=
  let scale := get_scale_factor width height in
  let R0 := scale in
  let r := R0 / 4 in
  let d := r in
  (IZR (Z.quot width 2) + (R0 - r) * cos t + d * cos ((R0 - r) * t / r),
   IZR (Z.quot height 2) + (R0 - r) * sin t - d * sin ((R0 - r) * t / r)).

Definition calculate_butterfly_position (t : R) (width height : Z) : R * R :=
  let scale := get_scale_factor width height in
  let r := exp (cos t) - 2 * cos (4 * t) + (sin (t / 12)) ^ 5 in
  (IZR (Z.quot width 2) + scale / 2 * sin t * r,
   IZR (Z.quot height 2) + scale / 2 * cos t * r).

Definition calculate_maurer_rose_position (t : R) (width height : Z) : R * R :=
  let scale := get_scale_factor width height * 1.5 in
  let n := 7 in
  let d := 71 in
  let k := t * d in
  let r := scale * (0.8 + 0.2 * sin (n * k * PI / 180)) in
  (IZR (Z.quot width 2) + r * cos (k * PI / 180),
   IZR (Z.quot height 2) + r * sin (k * PI / 180)).

Definition calculate_spirograph_position (t : R) (width height : Z) : R * R :=
  let scale := get_scale_factor width height in
  let R0 := scale * 0.8 in
  let r := R0 * 0.4 in
  let d := r * 0.8 in
  (IZR (Z.quot width 2) + (R0 - r) * cos t + d * cos ((R0 - r) * t / r),
   IZR (Z.quot height 2) + (R0 - r) * sin t - d * sin ((R0 - r) * t / r)).

Definition calculate_fermat_spiral_position (t : R) (width height : Z) : R * R :=
  let scale := get_scale_factor width height in
  let a := scale * 0.5 in
  let r := a * sqrt t in
  let angle := t * 5 in
  (IZR (Z.quot width 2) + r * cos angle,
   IZR (Z.quot height 2) + r * sin angle).

Definition calculate_cardioid_position (t : R) (width height : Z) : R * R :=
  let scale := get_scale_factor width height in
  let a := scale * 0.9 in
  let r := a * (1 + cos t) in
  (IZR (Z.quot width 2) + r * cos t,
   IZR (Z.quot height 2) + r * sin t).

(** ** The array of agents *)

(** The value of a zero-initialised [Boid]; [nth] returns it outside of the
    array, which the source never reads. *)
Definition boid0 : Boid := mkBoid 0 0 0 0 0 0 0.

(** [upd i f l] is [l] with the element at [i] replaced by [f] of it. *)
Fixpoint upd {A : Type} (i : nat) (f : A -> A) (l : list A) : list A :=
  match l with
  | [] => []
  | a :: l' =>
      match i with
      | O => f a :: l'
      | S i' => a :: upd i' f l'
      end
  end.

Definition set_velocity (nvx nvy : R) (b : Boid) : Boid :=
  mkBoid (x b) (y b) nvx nvy (target_x b) (target_y b) (index b).

Definition set_position (nx ny : R) (b : Boid) : Boid :=
  mkBoid nx ny (vx b) (vy b) (target_x b) (target_y b) (index b).

(** [init_boids]: four calls of [rand()] per agent. [None] when the tape
    ends before the array is filled. *)
Fixpoint init_boids_from (width height : Z) (n i : nat) (tape : list Z)
  : option (list Boid * list Z) :=
  match n with
  | O => Some ([], tape)
  | S n' =>
      match tape with
      | r1 :: r2 :: r3 :: r4 :: tape' =>
          let bx := IZR (Z.rem r1 width) in
          let by_ := IZR (Z.rem r2 height) in
          let b := mkBoid bx by_
                     ((IZR (Z.rem r3 100) / 50 - 1) * MAX_SPEED)
                     ((IZR (Z.rem r4 100) / 50 - 1) * MAX_SPEED)
                     bx by_ (Z.of_nat i) in
          match init_boids_from width height n' (S i) tape' with
          | Some (bs, rest) => Some (b :: bs, rest)
          | None => None
          end
      | _ => None
      end
  end.

Definition init_boids (width height : Z) (tape : list Z)
  : option (list Boid * list Z) :=
  init_boids_from width height NUM_BOIDS 0 tape.

(** ** Flocking in normal mode (the first branch of [update_boids]) *)

(** The accumulators of the neighbour scan. *)
Record Accum : Type := mkAccum {
  avg_vx : R;
  avg_vy : R;
  center_x : R;
  center_y : R;
  avoid_x : R;
  avoid_y : R;
  count : Z
}.

Definition accum0 : Accum := mkAccum 0 0 0 0 0 0 0.

(** One iteration of the loop over [j] for agent [i]. *)
Definition flock_scan_step (bs : list Boid) (i : nat) (acc : Accum) (j : nat)
  : Accum :=
  if Nat.eqb i j then acc
  else
    let bi := nth i bs boid0 in
    let bj := nth j bs boid0 in
    let dx := x bj - x bi in
    let dy := y bj - y bi in
    let dist := sqrt (dx * dx + dy * dy) in
    if Rltb dist (IZR NEIGHBOR_RADIUS) && Rgtb dist 0 then
      let near := Rltb dist (IZR (Z.quot NEIGHBOR_RADIUS 2)) in
      mkAccum (avg_vx acc + vx bj) (avg_vy acc + vy bj)
              (center_x acc + x bj) (center_y acc + y bj)
              (if near then avoid_x acc - dx else avoid_x acc)
              (if near then avoid_y acc - dy else avoid_y acc)
              (count acc + 1)
    else acc.

Definition flock_scan (bs : list Boid) (i : nat) : Accum :=
  fold_left (flock_scan_step bs i) (seq 0 NUM_BOIDS) accum0.

(** The three assignments to [boids[i].vx] and to [boids[i].vy], in the order
    of the source. *)
Definition flock_boid (bs : list Boid) (i : nat) : Boid :=
  let acc := flock_scan bs i in
  let b := nth i bs boid0 in
  if (count acc >? 0)%Z then
    let avx := avg_vx acc / IZR (count acc) in
    let avy := avg_vy acc / IZR (count acc) in
    let cx := center_x acc / IZR (count acc) in
    let cy := center_y acc / IZR (count acc) in
    let vx1 := vx b + (avx - vx b) * ALIGNMENT_WEIGHT in
    let vy1 := vy b + (avy - vy b) * ALIGNMENT_WEIGHT in
    let vx2 := vx1 + (cx - x b) * COHESION_WEIGHT in
    let vy2 := vy1 + (cy - y b) * COHESION_WEIGHT in
    let vx3 := vx2 + avoid_x acc * SEPARATION_WEIGHT in
    let vy3 := vy2 + avoid_y acc * SEPARATION_WEIGHT in
    set_velocity vx3 vy3 b
  else b.

(** ** Pattern modes *)

(** One iteration of the loop of [apply_separation_force]; [b] is the agent
    the pointer [boid] refers to. *)
Definition separation_step (bs : list Boid) (b : Boid) (acc : R * R * Z)
  (j : nat) : R * R * Z :=
  let '(ax, ay, c) := acc in
  if Z.eqb (index b) (Z.of_nat j) then acc
  else
    let dx := x (nth j bs boid0) - x b in
    let dy := y (nth j bs boid0) - y b in
    let dist := sqrt (dx * dx + dy * dy) in
    if Rltb dist (IZR (Z.quot NEIGHBOR_RADIUS 2)) && Rgtb dist 0 then
      (ax - dx, ay - dy, (c + 1)%Z)
    else acc.

(** [apply_separation_force(&boids[i], weight)]. *)
Definition apply_separation_force (bs : list Boid) (i : nat) (weight : R)
  : list Boid :=
  let b := nth i bs boid0 in
  let '(ax, ay, c) :=
    fold_left (separation_step bs b) (seq 0 NUM_BOIDS) (0, 0, 0%Z) in
  if (c >? 0)%Z then
    upd i (fun b' => set_velocity (vx b' + ax * weight) (vy b' + ay * weight) b') bs
  else bs.

(** The [switch] of [apply_pattern_force]; [None] is its [default: return]. *)
Definition pattern_target (m : FlockingMode) (t : R) (width height : Z)
  : option (R * R) :=
  match m with
  | MODE_LISSAJOUS => Some (calculate_lissajous_position t width height)
  | MODE_ROSE => Some (calculate_rose_position t width height)
  | MODE_HYPOCYCLOID => Some (calculate_hypocycloid_position t width height)
  | MODE_BUTTERFLY => Some (calculate_butterfly_position t width height)
  | MODE_MAURER_ROSE => Some (calculate_maurer_rose_position t width height)
  | MODE_SPIROGRAPH => Some (calculate_spirograph_position t width height)
  | MODE_FERMAT_SPIRAL => Some (calculate_fermat_spiral_position t width height)
  | MODE_CARDIOID => Some (calculate_cardioid_position t width height)
  | MODE_NORMAL => None
  end.

(** The curve parameter of an agent. *)
Definition pattern_param (b : Boid) (ptime : R) : R :=
  IZR (index b) / INR NUM_BOIDS * 10 + ptime.

(** The steering of [apply_pattern_force] (from [float dx] to the end of the
    [if (dist > 0)]), on one agent. *)
Definition steer (tx ty : R) (b : Boid) : Boid :=
  let dx := tx - x b in
  let dy := ty - y b in
  let dist := sqrt (dx * dx + dy * dy) in
  if Rgtb dist 0 then
    set_velocity (vx b + dx / dist * PATTERN_FORCE)
                 (vy b + dy / dist * PATTERN_FORCE) b
  else b.

(** [apply_pattern_force(&boids[i], width, height)] under the globals
    [current_mode = m] and [pattern_time = ptime]. *)
Definition apply_pattern_force (m : FlockingMode) (ptime : R)
  (width height : Z) (bs : list Boid) (i : nat) : list Boid :=
  let t := pattern_param (nth i bs boid0) ptime in
  match pattern_target m t width height with
  | None => bs
  | Some (tx, ty) =>
      apply_separation_force (upd i (steer tx ty) bs) i
        PATTERN_SEPARATION_WEIGHT
  end.

(** ** The tick *)

(** The position update at the end of the loop body of [update_boids]. *)
Definition integrate_wrap (width height : Z) (b : Boid) : Boid :=
  let x1 := x b + vx b in
  let y1 := y b + vy b in
  let x2 := if Rltb x1 0 then x1 + IZR width else x1 in
  let y2 := if Rltb y1 0 then y1 + IZR height else y1 in
  let x3 := if Rgeb x2 (IZR width) then x2 - IZR width else x2 in
  let y3 := if Rgeb y2 (IZR height) then y2 - IZR height else y2 in
  set_position x3 y3 b.

(** The body of the loop over [i]. *)
Definition update_boid (m : FlockingMode) (ptime : R) (width height : Z)
  (bs : list Boid) (i : nat) : list Boid :=
  let bs1 :=
    if mode_eqb m MODE_NORMAL then upd i (fun _ => flock_boid bs i) bs
    else apply_pattern_force m ptime width height bs i in
  upd i (fun b => integrate_wrap width height (limit_speed b)) bs1.

Definition update_boids (width height : Z) (s : World) : World :=
  let bs :=
    fold_left (update_boid (current_mode s) (pattern_time s) width height)
              (seq 0 NUM_BOIDS) (boids s) in
  mkWorld bs (current_mode s)
          (if mode_eqb (current_mode s) MODE_NORMAL then pattern_time s
           else pattern_time s + 0.01)
          (auto_mode s) (last_mode_change s) (last_pattern_mode s)
          (rand_tape s).

(** ** The pattern scheduler *)

Open Scope Z_scope.

(** The value of an [int] initialised from a wider integer: wrap-around modulo
    [2^32] into [-2^31 .. 2^31 - 1]. *)
Definition to_int (z : Z) : Z := (z + 2 ^ 31) mod 2 ^ 32 - 2 ^ 31.

(** The [do ... while] loop of [get_next_pattern_mode]: draw
    [(rand() % 8) + 1] until it differs from [last]. [None] when the tape
    ends first. *)
Fixpoint draw_pattern (last : FlockingMode) (tape : list Z)
  : option (FlockingMode * list Z) :=
  match tape with
  | [] => None
  | r :: tape' =>
      let next_mode := mode_of_int (Z.rem r 8 + 1) in
      if mode_eqb next_mode last then draw_pattern last tape'
      else Some (next_mode, tape')
  end.

Definition get_next_pattern_mode (s : World) : option (FlockingMode * World) :=
  match draw_pattern (last_pattern_mode s) (rand_tape s) with
  | None => None
  | Some (next_mode, tape') =>
      Some (next_mode,
            mkWorld (boids s) (current_mode s) (pattern_time s) (auto_mode s)
                    (last_mode_change s) next_mode tape')
  end.

(** [check_auto_mode_timing], with [time(NULL) = current_time]. *)
Definition check_auto_mode_timing (current_time : Z) (s : World)
  : option World :=
  if negb (auto_mode s) then Some s
  else
    let elapsed := to_int (current_time - last_mode_change s) in
    if mode_eqb (current_mode s) MODE_NORMAL && (elapsed >=? BOIDS_TIME) then
      match get_next_pattern_mode s with
      | None => None
      | Some (next_mode, s1) =>
          Some (mkWorld (boids s1) next_mode 0%R (auto_mode s1) current_time
                        (last_pattern_mode s1) (rand_tape s1))
      end
    else if negb (mode_eqb (current_mode s) MODE_NORMAL)
            && (elapsed >=? PATTERN_TIME) then
      Some (mkWorld (boids s) MODE_NORMAL 0%R (auto_mode s) current_time
                    (last_pattern_mode s) (rand_tape s))
    else Some s.

(** ** Keyboard input *)

(** The key symbols of the [switch] in [main]; for letters the X11 key symbol
    is the character code. *)
Definition XK_l : Z := 108.
Definition XK_L : Z := 76.
Definition XK_r : Z := 114.
Definition XK_R : Z := 82.
Definition XK_y : Z := 121.
Definition XK_Y : Z := 89.
Definition XK_b : Z := 98.
Definition XK_B : Z := 66.
Definition XK_m : Z := 109.
Definition XK_M : Z := 77.
Definition XK_s : Z := 115.
Definition XK_S : Z := 83.
Definition XK_f : Z := 102.
Definition XK_F : Z := 70.
Definition XK_c : Z := 99.
Definition XK_C : Z := 67.
Definition XK_n : Z := 110.
Definition XK_N : Z := 78.

Definition set_mode (m : FlockingMode) (s : World) : World :=
  mkWorld (boids s) m 0%R (auto_mode s) (last_mode_change s)
          (last_pattern_mode s) (rand_tape s).

(** One pattern case of the [switch]:
    [current_mode = (current_mode == k) ? MODE_NORMAL : k; pattern_time = 0;] *)
Definition toggle (k : FlockingMode) (s : World) : World :=
  set_mode (if mode_eqb (current_mode s) k then MODE_NORMAL else k) s.

(** The pattern a key toggles, if any. *)
Definition key_pattern (key : Z) : option FlockingMode :=
  if (key =? XK_l) || (key =? XK_L) then Some MODE_LISSAJOUS
  else if (key =? XK_r) || (key =? XK_R) then Some MODE_ROSE
  else if (key =? XK_y) || (key =? XK_Y) then Some MODE_HYPOCYCLOID
  else if (key =? XK_b) || (key =? XK_B) then Some MODE_BUTTERFLY
  else if (key =? XK_m) || (key =? XK_M) then Some MODE_MAURER_ROSE
  else if (key =? XK_s) || (key =? XK_S) then Some MODE_SPIROGRAPH
  else if (key =? XK_f) || (key =? XK_F) then Some MODE_FERMAT_SPIRAL
  else if (key =? XK_c) || (key =? XK_C) then Some MODE_CARDIOID
  else None.

(** The [switch (key)] of [main]. *)
Definition handle_key (key : Z) (s : World) : World :=
  match key_pattern key with
  | Some k => toggle k s
  | None =>
      if (key =? XK_n) || (key =? XK_N) then set_mode MODE_NORMAL s else s
  end.

(** ** The main loop *)

Inductive XEvent : Type :=
| ConfigureNotify (new_width new_height : Z)
| KeyPress (key : Z)
| OtherEvent.

(** The variables of [main] the simulation depends on, with the globals. *)
Record Main : Type := mkMain {
  world : World;
  width : Z;
  height : Z
}.

(** The body of the [while (XPending(display))] loop. *)
Definition handle_event (m : Main) (e : XEvent) : Main :=
  match e with
  | ConfigureNotify new_width new_height =>
      mkMain (world m) new_width new_height
  | KeyPress key =>
      if negb (auto_mode (world m)) then
        mkMain (handle_key key (world m)) (width m) (height m)
      else m
  | OtherEvent => m
  end.

(** One iteration of [while (1)]: the pending events, the scheduler, the
    tick.  Drawing reads the state and is left out. *)
Definition frame (m : Main) (input : list XEvent * Z) : option Main :=
  let '(events, current_time) := input in
  let m1 := fold_left handle_event events m in
  match check_auto_mode_timing current_time (world m1) with
  | None => None
  | Some s => Some (mkMain (update_boids (width m1) (height m1) s)
                           (width m1) (height m1))
  end.

Fixpoint run (m : Main) (inputs : list (list XEvent * Z)) : option Main :=
  match inputs with
  | [] => Some m
  | input :: inputs' =>
      match frame m input with
      | None => None
      | Some m' => run m' inputs'
      end
  end.

(** The state [main] enters its loop with: the initialisers of the globals,
    [--auto] read from the command line at time [start_time], the window
    size, and [init_boids]. *)
Definition initial_main (auto : bool) (start_time : Z) (w h : Z)
  (tape : list Z) : option Main :=
  match init_boids w h tape with
  | None => None
  | Some (bs, tape') =>
      Some (mkMain (mkWorld bs MODE_NORMAL 0%R auto
                            (if auto then start_time else 0)
                            MODE_LISSAJOUS tape')
                   w h)
  end.

Close Scope Z_scope.

(** ** Notions the properties are stated with *)

(** The magnitude of the velocity of an agent. *)
Definition speed (b : Boid) : R := sqrt (vx b * vx b + vy b * vy b).

(** The toroidal position bound of an agent. *)
Definition in_bounds (w h : Z) (b : Boid) : Prop :=
  0 <= x b < IZR w /\ 0 <= y b < IZR h.

(** What [rand()] promises of the numbers on the tape. *)
Definition rand_range (tape : list Z) : Prop :=
  Forall (fun r => (0 <= r <= RAND_MAX)%Z) tape.

(** The tape holds a number on which the loop of [get_next_pattern_mode]
    stops. *)
Definition can_draw (last : FlockingMode) (tape : list Z) : Prop :=
  exists r, In r tape /\ mode_of_int (Z.rem r 8 + 1) <> last.

(** No two neighbours of a list are equal. *)
Fixpoint no_repeat (l : list FlockingMode) : Prop :=
  match l with
  | a :: (b :: _) as l' => a <> b /\ no_repeat l'
  | _ => True
  end.

(** The patterns the scheduler selects along a run, oldest first: a frame
    that finds [MODE_NORMAL] and leaves a pattern mode selected that pattern. *)
Fixpoint auto_selected (m : Main) (inputs : list (list XEvent * Z))
  : list FlockingMode :=
  match inputs with
  | [] => []
  | input :: inputs' =>
      match frame m input with
      | None => []
      | Some m' =>
          (if mode_eqb (current_mode (world m)) MODE_NORMAL
              && is_pattern (current_mode (world m'))
           then [current_mode (world m')] else [])
          ++ auto_selected m' inputs'
      end
  end.

(** The input of a run without its key presses. *)
Definition is_key_press (e : XEvent) : bool :=
  match e with
  | KeyPress _ => true
  | _ => false
  end.

Definition without_keys (inputs : list (list XEvent * Z))
  : list (list XEvent * Z) :=
  map (fun input => (filter (fun e => negb (is_key_press e)) (fst input),
                     snd input)) inputs.

(** A run without a resize of the window. *)
Definition is_resize (e : XEvent) : bool :=
  match e with
  | ConfigureNotify _ _ => true
  | _ => false
  end.

Definition no_resize (inputs : list (list XEvent * Z)) : Prop :=
  Forall (fun input =>
            forallb (fun e => negb (is_resize e)) (fst input) = true) inputs.

(** The window is [w] by [h], and the [NUM_BOIDS] agents are in bounds. *)
Definition in_view (w h : Z) (m : Main) : Prop :=
  width m = w /\ height m = h
  /\ length (boids (world m)) = NUM_BOIDS
  /\ Forall (in_bounds w h) (boids (world m)).

(** The steering of [apply_pattern_force] once more, with a division that
    fails on a zero divisor. *)
Definition checked_div (a b : R) : option R :=
  if Req_dec_T b 0 then None else Some (a / b).

Definition steer_checked (tx ty : R) (b : Boid) : option Boid :=
  let dx := tx - x b in
  let dy := ty - y b in
  let dist := sqrt (dx * dx + dy * dy) in
  if Rgtb dist 0 then
    match checked_div dx dist, checked_div dy dist with
    | Some ux, Some uy =>
        Some (set_velocity (vx b + ux * PATTERN_FORCE)
                           (vy b + uy * PATTERN_FORCE) b)
    | _, _ => None
    end
  else Some b.

(** *** The three-rule flocking model, as the specification words it *)

Definition distance (a b : Boid) : R :=
  sqrt ((x b - x a) * (x b - x a) + (y b - y a) * (y b - y a)).

(** Agent [j] is another agent than [i], at a distance [d] with
    [0 < d < NEIGHBOR_RADIUS]. *)
Definition is_spec_neighbor (bs : list Boid) (i j : nat) : bool :=
  negb (Nat.eqb i j)
  && Rltb 0 (distance (nth i bs boid0) (nth j bs boid0))
  && Rltb (distance (nth i bs boid0) (nth j bs boid0)) (IZR NEIGHBOR_RADIUS).

(** The neighbours of agent [i] among the agents of the indices [l]. *)
Definition spec_neighbors_among (bs : list Boid) (i : nat) (l : list nat)
  : list Boid :=
  map (fun j => nth j bs boid0) (filter (is_spec_neighbor bs i) l).

Definition spec_neighbors (bs : list Boid) (i : nat) : list Boid :=
  spec_neighbors_among bs i (seq 0 NUM_BOIDS).

(** Those of them at a distance [d < NEIGHBOR_RADIUS / 2]. *)
Definition spec_close (a : Boid) (ns : list Boid) : list Boid :=
  filter (fun b => Rltb (distance a b) (IZR NEIGHBOR_RADIUS / 2)) ns.

Definition Rsum (l : list R) : R := fold_right Rplus 0 l.

(** The velocity of agent [i] after the force phase. *)
Definition spec_flock_velocity (bs : list Boid) (i : nat) : R * R :=
  let a := nth i bs boid0 in
  let ns := spec_neighbors bs i in
  let n := length ns in
  match n with
  | O => (vx a, vy a)
  | S _ =>
      let mean_vx := Rsum (map vx ns) / INR n in
      let mean_vy := Rsum (map vy ns) / INR n in
      let mean_x := Rsum (map x ns) / INR n in
      let mean_y := Rsum (map y ns) / INR n in
      let sep_x := Rsum (map (fun b => - (x b - x a)) (spec_close a ns)) in
      let sep_y := Rsum (map (fun b => - (y b - y a)) (spec_close a ns)) in
      (vx a + (mean_vx - vx a) * ALIGNMENT_WEIGHT
            + (mean_x - x a) * COHESION_WEIGHT
            + sep_x * SEPARATION_WEIGHT,
       vy a + (mean_vy - vy a) * ALIGNMENT_WEIGHT
            + (mean_y - y a) * COHESION_WEIGHT
            + sep_y * SEPARATION_WEIGHT)
  end.

(** *** States the properties are evaluated on *)

(** [NUM_BOIDS] agents at the origin, all moving left at full speed. *)
Definition leftward_boids : list Boid :=
  map (fun i => mkBoid 0 0 (-4) 0 0 0 (Z.of_nat i)) (seq 0 NUM_BOIDS).

(** [NUM_BOIDS] agents at rest at the origin. *)
Definition resting_boids : list Boid :=
  map (fun i => mkBoid 0 0 0 0 0 0 (Z.of_nat i)) (seq 0 NUM_BOIDS).

Definition leftward_world : World :=
  mkWorld leftward_boids MODE_NORMAL 0 false 0 MODE_LISSAJOUS [].

(** The numbers [rand()] returns when [init_boids] creates them in a
    viewport 3 by 3: per agent [0, 0, 0, 50]. *)
Definition leftward_tape (n : nat) : list Z :=
  concat (repeat [0%Z; 0%Z; 0%Z; 50%Z] n).

(** Manual mode, the Lissajous pattern showing. *)
Definition lissajous_main : Main :=
  mkMain (mkWorld resting_boids MODE_LISSAJOUS 0 false 0 MODE_LISSAJOUS [])
         800 600.

(** Auto mode in [MODE_NORMAL], the last transition at time [0]; the next
    [rand()] is [1]. *)
Definition auto_world : World :=
  mkWorld resting_boids MODE_NORMAL 0 true 0 MODE_LISSAJOUS [1%Z; 9%Z; 2%Z].

Definition auto_main : Main := mkMain auto_world 800 600.

(** ** The rest of the source *)

(** [clamp]; no other function of the source calls it. *)
Definition clamp (value min max : R) : R :=
  if Rltb value min then min
  else if Rgtb value max then max
  else value.

(** The conversion [(int)f] of the drawing loop: the fractional part is
    discarded, which rounds towards zero.  (Outside of the range of [int] the
    conversion is undefined in C; the drawing loop stays far inside, see
    [run_draws_in_window].) *)
Definition int_of_float (r : R) : Z :=
  if Rltb r 0 then (- Int_part (- r))%Z else Int_part r.

(** The end points [x1, y1, x2, y2] the drawing loop of [main] passes to
    [XDrawLine] for one agent. *)
Definition draw_boid (b : Boid) : Z * Z * Z * Z :=
  let x1 := int_of_float (x b) in
  let y1 := int_of_float (y b) in
  let x2 := (x1 + int_of_float (vx b * 4))%Z in
  let y2 := (y1 + int_of_float (vy b * 4))%Z in
  (x1, y1, x2, y2).

(** The segments of one frame, in the order they are drawn. *)
Definition draw_boids (s : World) : list (Z * Z * Z * Z) :=
  map (fun i => draw_boid (nth i (boids s) boid0)) (seq 0 NUM_BOIDS).

(** ** Notions of the further properties *)

(** What [init_boids] gives an agent for life: its index and the target
    fields. *)
Definition identity (b : Boid) : Z * R * R :=
  (index b, target_x b, target_y b).

(** The key symbols the [switch] of [main] has a case for, lower case with
    upper case. *)
Definition key_pairs : list (Z * Z) :=
  [(XK_l, XK_L); (XK_r, XK_R); (XK_y, XK_Y); (XK_b, XK_B); (XK_m, XK_M);
   (XK_s, XK_S); (XK_f, XK_F); (XK_c, XK_C); (XK_n, XK_N)].

Definition bound_keys : list Z :=
  map fst key_pairs ++ map snd key_pairs.

(** The part of the state only [check_auto_mode_timing] and
    [get_next_pattern_mode] write. *)
Definition scheduler (s : World) : bool * Z * FlockingMode * list Z :=
  (auto_mode s, last_mode_change s, last_pattern_mode s, rand_tape s).

(** A run without a key press. *)
Definition no_key_press (inputs : list (list XEvent * Z)) : Prop :=
  Forall (fun input =>
            forallb (fun e => negb (is_key_press e)) (fst input) = true)
         inputs.

(** What [init_boids] promises of agent [j] in a viewport [w] by [h]: a
    position on the pixel grid of the viewport, each velocity component one
    of the hundred values [(k / 50 - 1) * MAX_SPEED], the target at the
    position, the index [j]. *)
Definition created (w h : Z) (j : nat) (b : Boid) : Prop :=
  (exists kx ky : Z,
      (0 <= kx < w)%Z /\ (0 <= ky < h)%Z /\ x b = IZR kx /\ y b = IZR ky)
  /\ (exists k l : Z,
         (0 <= k < 100)%Z /\ (0 <= l < 100)%Z
         /\ vx b = (IZR k / 50 - 1) * MAX_SPEED
         /\ vy b = (IZR l / 50 - 1) * MAX_SPEED)
  /\ target_x b = x b /\ target_y b = y b
  /\ index b = Z.of_nat j.

(** The patterns whose curve stays within 0.45 times the smaller side of the
    viewport from its centre. *)
Definition curves_in_viewport : list FlockingMode :=
  [MODE_LISSAJOUS; MODE_ROSE; MODE_HYPOCYCLOID; MODE_MAURER_ROSE;
   MODE_SPIROGRAPH].

(** A segment starts on a pixel of the window [w] by [h] and ends at most 16
    pixels from there in each direction. *)
Definition segment_in_window (w h : Z) (seg : Z * Z * Z * Z) : Prop :=
  let '(x1, y1, x2, y2) := seg in
  (0 <= x1 < w)%Z /\ (0 <= y1 < h)%Z
  /\ (-16 <= x2 - x1 <= 16)%Z /\ (-16 <= y2 - y1 <= 16)%Z.

(** *** The divisions of a tick, with a division that fails on a zero
    divisor *)

Definition limit_speed_checked (b : Boid) : option Boid :=
  let speed := sqrt (vx b * vx b + vy b * vy b) in
  if Rgtb speed MAX_SPEED then
    match checked_div (vx b) speed, checked_div (vy b) speed with
    | Some ux, Some uy =>
        Some (set_velocity (ux * MAX_SPEED) (uy * MAX_SPEED) b)
    | _, _ => None
    end
  else Some b.

Definition flock_boid_checked (bs : list Boid) (i : nat) : option Boid :=
  let acc := flock_scan bs i in
  let b := nth i bs boid0 in
  if (count acc >? 0)%Z then
    match checked_div (avg_vx acc) (IZR (count acc)),
          checked_div (avg_vy acc) (IZR (count acc)),
          checked_div (center_x acc) (IZR (count acc)),
          checked_div (center_y acc) (IZR (count acc)) with
    | Some avx, Some avy, Some cx, Some cy =>
        let vx1 := vx b + (avx - vx b) * ALIGNMENT_WEIGHT in
        let vy1 := vy b + (avy - vy b) * ALIGNMENT_WEIGHT in
        let vx2 := vx1 + (cx - x b) * COHESION_WEIGHT in
        let vy2 := vy1 + (cy - y b) * COHESION_WEIGHT in
        let vx3 := vx2 + avoid_x acc * SEPARATION_WEIGHT in
        let vy3 := vy2 + avoid_y acc * SEPARATION_WEIGHT in
        Some (set_velocity vx3 vy3 b)
    | _, _, _, _ => None
    end
  else Some b.

(** The quotient [(R-r)*t/r] of the hypocycloid and of the spirograph. *)
Definition hypocycloid_angle_checked (t : R) (width height : Z) : option R :=
  let scale := get_scale_factor width height in
  let R0 := scale in
  let r := R0 / 4 in
  checked_div ((R0 - r) * t) r.

Definition spirograph_angle_checked (t : R) (width height : Z) : option R :=
  let scale := get_scale_factor width height in
  let R0 := scale * 0.8 in
  let r := R0 * 0.4 in
  checked_div ((R0 - r) * t) r.

(** A period of the curve of a pattern; the Fermat spiral has none. *)
Definition curve_period (m : FlockingMode) : R :=
  match m with
  | MODE_LISSAJOUS | MODE_ROSE | MODE_HYPOCYCLOID | MODE_CARDIOID => 2 * PI
  | MODE_SPIROGRAPH => 4 * PI
  | MODE_BUTTERFLY => 24 * PI
  | MODE_MAURER_ROSE => 360
  | MODE_FERMAT_SPIRAL | MODE_NORMAL => 0
  end.

(** An agent within the box [bx] by [by_]; [in_bounds w h] is the box of the
    viewport. *)
Definition in_box (bx by_ : R) (b : Boid) : Prop :=
  0 <= x b < bx /\ 0 <= y b < by_.

(** [NUM_BOIDS] agents at rest at (700, 500), as a window 800 by 600 can hold
    them, in a window that has shrunk to 400 by 300. *)
Definition stranded_boids : list Boid :=
  map (fun i => mkBoid 700 500 0 0 700 500 (Z.of_nat i)) (seq 0 NUM_BOIDS).

Definition stranded_main : Main :=
  mkMain (mkWorld stranded_boids MODE_NORMAL 0 false 0 MODE_LISSAJOUS [])
         400 300.

(** Agent 1 at (10, 0), moving right at speed 1; the other agents at rest at
    the origin.  Agent 1 is the one neighbour of agent 0. *)
Definition paired_boids : list Boid :=
  map (fun i => if Nat.eqb i 1 then mkBoid 10 0 1 0 10 0 1
                else mkBoid 0 0 0 0 0 0 (Z.of_nat i))
      (seq 0 NUM_BOIDS).

Definition paired_world : World :=
  mkWorld paired_boids MODE_NORMAL 0 false 0 MODE_LISSAJOUS [].

(** Auto mode, the rose showing since time 30. *)
Definition auto_rose_main : Main :=
  mkMain (mkWorld resting_boids MODE_ROSE 0 true 30 MODE_ROSE [9%Z; 2%Z])
         800 600.

(** * Properties *)

(** ** Comparisons and enumerators *)

Lemma Rltb_true (a b : R) : Rltb a b = true <-> a < b.
Proof.
  unfold Rltb. destruct (Rlt_dec a b); split; intros; try easy.
Qed.

Lemma Rltb_false (a b : R) : Rltb a b = false <-> b <= a.
Proof.
  unfold Rltb. destruct (Rlt_dec a b); split; intros; try easy; lra.
Qed.

Lemma Rltb_irrefl (a : R) : Rltb a a = false.
Proof. apply Rltb_false. lra. Qed.

Lemma mode_eqb_eq (a b : FlockingMode) : mode_eqb a b = true <-> a = b.
Proof.
  unfold mode_eqb. rewrite Z.eqb_eq. split.
  - destruct a, b; simpl; intros E; try reflexivity; discriminate E.
  - intros ->. reflexivity.
Qed.

Lemma mode_eqb_neq (a b : FlockingMode) : mode_eqb a b = false <-> a <> b.
Proof.
  rewrite <- mode_eqb_eq. destruct (mode_eqb a b); split; congruence.
Qed.

Lemma mode_eqb_refl (a : FlockingMode) : mode_eqb a a = true.
Proof. apply mode_eqb_eq. reflexivity. Qed.

Lemma is_pattern_neq (m : FlockingMode) :
  is_pattern m = true <-> m <> MODE_NORMAL.
Proof.
  unfold is_pattern. rewrite negb_true_iff. apply mode_eqb_neq.
Qed.

(** ** The curve library *)

Lemma get_scale_factor_800_600 : get_scale_factor 800 600 = 180.
Proof.
  unfold get_scale_factor. rewrite Rmin_right by lra. lra.
Qed.

(** C9, as the specification states it, fails: the second coordinate of the
    Lissajous point at [t = 0] in an 800 by 600 viewport is not 600. *)
Lemma lissajous_origin_not_600 :
  calculate_lissajous_position 0 800 600 <> (400, 600).
Proof.
  unfold calculate_lissajous_position. rewrite get_scale_factor_800_600.
  replace (2 * 0 + PI / 2) with (PI / 2) by lra. rewrite sin_PI2.
  change (Z.quot 600 2) with 300%Z.
  intros E. apply (f_equal snd) in E. simpl in E. lra.
Qed.

(** C9, amended: the Lissajous curve is [x = W/2 + s sin(3t)],
    [y = H/2 + s sin(2t + pi/2)] with [s = min(W, H) * 0.3] and integer
    halves, and at [t = 0] in an 800 by 600 viewport it is the point
    (400, 480). *)
Theorem lissajous_origin :
  (forall (t : R) (w h : Z),
      calculate_lissajous_position t w h
      = (IZR (Z.quot w 2) + Rmin (IZR w) (IZR h) * 0.3 * sin (3 * t),
         IZR (Z.quot h 2) + Rmin (IZR w) (IZR h) * 0.3 * sin (2 * t + PI / 2)))
  /\ calculate_lissajous_position 0 800 600 = (400, 480).
Proof.
  split; [ reflexivity | ].
  unfold calculate_lissajous_position. rewrite get_scale_factor_800_600.
  replace (3 * 0) with 0 by lra.
  replace (2 * 0 + PI / 2) with (PI / 2) by lra.
  rewrite sin_0, sin_PI2.
  change (Z.quot 800 2) with 400%Z. change (Z.quot 600 2) with 300%Z.
  f_equal; lra.
Qed.

(** ** Keyboard input in manual mode *)

Lemma key_pattern_is_pattern (key : Z) (k : FlockingMode) :
  key_pattern key = Some k -> k <> MODE_NORMAL.
Proof.
  unfold key_pattern.
  repeat match goal with
         | |- context [if ?c then _ else _] => destruct c
         end; intros E; inversion E; discriminate.
Qed.

Lemma handle_key_toggle (key : Z) (k : FlockingMode) (s : World) :
  key_pattern key = Some k -> handle_key key s = toggle k s.
Proof. unfold handle_key. intros ->. reflexivity. Qed.

Lemma handle_key_reset (key : Z) (s : World) :
  key = XK_n \/ key = XK_N -> handle_key key s = set_mode MODE_NORMAL s.
Proof. intros [-> | ->]; reflexivity. Qed.

Lemma toggle_mode (k : FlockingMode) (s : World) :
  current_mode (toggle k s)
  = if mode_eqb (current_mode s) k then MODE_NORMAL else k.
Proof. reflexivity. Qed.

Lemma toggle_twice_mode (k : FlockingMode) (s : World) :
  k <> MODE_NORMAL ->
  current_mode (toggle k (toggle k s))
  = if mode_eqb (current_mode s) k then k else MODE_NORMAL.
Proof.
  intros Hk. rewrite !toggle_mode.
  destruct (mode_eqb (current_mode s) k) eqn:E.
  - assert (mode_eqb MODE_NORMAL k = false) as ->; [ | reflexivity ].
    apply mode_eqb_neq. congruence.
  - rewrite mode_eqb_refl. reflexivity.
Qed.

(** C7, as stated, fails: from the state showing the Lissajous pattern in
    manual mode, two presses of [l] lead back to the Lissajous pattern and
    not to [MODE_NORMAL]. *)
Lemma double_toggle_from_same_pattern :
  auto_mode (world lissajous_main) = false
  /\ key_pattern XK_l = Some MODE_LISSAJOUS
  /\ current_mode
       (world (handle_event (handle_event lissajous_main (KeyPress XK_l))
                            (KeyPress XK_l)))
     = MODE_LISSAJOUS
  /\ MODE_LISSAJOUS <> MODE_NORMAL.
Proof. repeat split. discriminate. Qed.

(** C7, amended: in manual mode a press of the key of pattern [k] sets the
    mode to [MODE_NORMAL] when it was [k] and to [k] otherwise (so from any
    other pattern directly to [k]); two presses in succession end in
    [MODE_NORMAL] from every mode other than [k], and back in [k] from [k];
    the reset keys force [MODE_NORMAL]; and [pattern_time] is 0 after each of
    these presses. *)
Theorem manual_toggle (m : Main) (key : Z) (k : FlockingMode) :
  auto_mode (world m) = false ->
  key_pattern key = Some k ->
  let m1 := handle_event m (KeyPress key) in
  let m2 := handle_event m1 (KeyPress key) in
  k <> MODE_NORMAL
  /\ current_mode (world m1)
     = (if mode_eqb (current_mode (world m)) k then MODE_NORMAL else k)
  /\ (current_mode (world m) <> k -> current_mode (world m2) = MODE_NORMAL)
  /\ (current_mode (world m) = k -> current_mode (world m2) = k)
  /\ pattern_time (world m1) = 0
  /\ pattern_time (world m2) = 0
  /\ (forall reset : Z,
         reset = XK_n \/ reset = XK_N ->
         current_mode (world (handle_event m (KeyPress reset))) = MODE_NORMAL
         /\ pattern_time (world (handle_event m (KeyPress reset))) = 0).
Proof.
  intros Hauto Hkey m1 m2.
  pose proof (key_pattern_is_pattern key k Hkey) as Hk.
  assert (E1 : world m1 = toggle k (world m)).
  { unfold m1. simpl. rewrite Hauto. simpl.
    now rewrite (handle_key_toggle key k). }
  assert (A1 : auto_mode (world m1) = false).
  { rewrite E1. exact Hauto. }
  assert (E2 : world m2 = toggle k (toggle k (world m))).
  { unfold m2. simpl. rewrite A1. simpl.
    rewrite (handle_key_toggle key k) by exact Hkey. now rewrite E1. }
  split; [ exact Hk | ].
  split; [ rewrite E1; apply toggle_mode | ].
  split.
  { intros Hne. rewrite E2, toggle_twice_mode by exact Hk.
    apply mode_eqb_neq in Hne. now rewrite Hne. }
  split.
  { intros He. rewrite E2, toggle_twice_mode by exact Hk.
    apply mode_eqb_eq in He. now rewrite He. }
  split; [ rewrite E1; reflexivity | ].
  split; [ rewrite E2; reflexivity | ].
  intros reset Hr. simpl. rewrite Hauto. simpl.
  rewrite (handle_key_reset reset) by exact Hr. split; reflexivity.
Qed.

Lemma manual_toggle_witness :
  current_mode (world (handle_event lissajous_main (KeyPress XK_r)))
  = MODE_ROSE.
Proof.
  exact (proj1 (proj2 (manual_toggle lissajous_main XK_r MODE_ROSE
                                     eq_refl eq_refl))).
Defined.

(** ** Keyboard input in auto mode *)

Lemma handle_event_auto_mode (m : Main) (e : XEvent) :
  auto_mode (world (handle_event m e)) = auto_mode (world m).
Proof.
  destruct e as [nw nh | key | ]; simpl; try reflexivity.
  destruct (auto_mode (world m)) eqn:E; simpl; [ exact E | ].
  unfold handle_key, toggle.
  destruct (key_pattern key); simpl; [ exact E | ].
  destruct ((key =? XK_n)%Z || (key =? XK_N)%Z); simpl; exact E.
Qed.

Lemma handle_events_without_keys (events : list XEvent) (m : Main) :
  auto_mode (world m) = true ->
  fold_left handle_event events m
  = fold_left handle_event
      (filter (fun e => negb (is_key_press e)) events) m.
Proof.
  revert m. induction events as [ | e events IH]; intros m Hauto.
  - reflexivity.
  - destruct e as [nw nh | key | ]; simpl.
    + apply IH. exact Hauto.
    + rewrite Hauto. simpl. apply IH. exact Hauto.
    + apply IH. exact Hauto.
Qed.

Lemma handle_events_auto_mode (events : list XEvent) (m : Main) :
  auto_mode (world (fold_left handle_event events m)) = auto_mode (world m).
Proof.
  revert m. induction events as [ | e events IH]; intros m; simpl.
  - reflexivity.
  - rewrite IH. apply handle_event_auto_mode.
Qed.

Lemma get_next_pattern_mode_fields (s s' : World) (k : FlockingMode) :
  get_next_pattern_mode s = Some (k, s') ->
  boids s' = boids s /\ current_mode s' = current_mode s
  /\ pattern_time s' = pattern_time s /\ auto_mode s' = auto_mode s
  /\ last_mode_change s' = last_mode_change s
  /\ last_pattern_mode s' = k
  /\ draw_pattern (last_pattern_mode s) (rand_tape s) = Some (k, rand_tape s').
Proof.
  unfold get_next_pattern_mode.
  destruct (draw_pattern (last_pattern_mode s) (rand_tape s))
    as [[k' tape'] | ]; intros E; inversion E; subst; simpl.
  repeat split; reflexivity.
Qed.

Lemma check_auto_mode_timing_auto_mode (now : Z) (s s' : World) :
  check_auto_mode_timing now s = Some s' -> auto_mode s' = auto_mode s.
Proof.
  unfold check_auto_mode_timing.
  destruct (negb (auto_mode s)); [ now intros [= <-] | ].
  destruct (_ && _).
  - destruct (get_next_pattern_mode s) as [[k s1] | ] eqn:E; [ | discriminate ].
    intros [= <-]. simpl. now apply get_next_pattern_mode_fields in E.
  - destruct (_ && _); intros [= <-]; reflexivity.
Qed.

Lemma frame_auto_mode (m m' : Main) (input : list XEvent * Z) :
  frame m input = Some m' -> auto_mode (world m') = auto_mode (world m).
Proof.
  destruct input as [events now]. unfold frame.
  destruct (check_auto_mode_timing now _) as [s | ] eqn:E; [ | discriminate ].
  intros [= <-]. simpl.
  apply check_auto_mode_timing_auto_mode in E. rewrite E.
  apply handle_events_auto_mode.
Qed.

Lemma frame_without_keys (m : Main) (events : list XEvent) (now : Z) :
  auto_mode (world m) = true ->
  frame m (events, now)
  = frame m (filter (fun e => negb (is_key_press e)) events, now).
Proof.
  intros Hauto. unfold frame.
  now rewrite <- handle_events_without_keys.
Qed.

Lemma run_without_keys (inputs : list (list XEvent * Z)) (m : Main) :
  auto_mode (world m) = true ->
  run m inputs = run m (without_keys inputs).
Proof.
  revert m. induction inputs as [ | [events now] inputs IH]; intros m Hauto.
  - reflexivity.
  - unfold without_keys. cbn [map fst snd run]. fold (without_keys inputs).
    rewrite <- frame_without_keys by exact Hauto.
    destruct (frame m (events, now)) as [m' | ] eqn:E; [ | reflexivity ].
    apply IH. apply frame_auto_mode in E. congruence.
Qed.

Lemma without_keys_firstn (n : nat) (inputs : list (list XEvent * Z)) :
  without_keys (firstn n inputs) = firstn n (without_keys inputs).
Proof. unfold without_keys. symmetry. apply firstn_map. Qed.

(** C8: with [auto_mode] set, two runs from the same state whose inputs
    agree frame by frame up to the key presses delivered are in the same
    state after every frame (the mode, [pattern_time], the agents and every
    other variable). *)
Theorem keys_ignored_in_auto_mode (m : Main)
  (inputs1 inputs2 : list (list XEvent * Z)) :
  auto_mode (world m) = true ->
  without_keys inputs1 = without_keys inputs2 ->
  forall n : nat, run m (firstn n inputs1) = run m (firstn n inputs2).
Proof.
  intros Hauto Hsame n.
  rewrite (run_without_keys (firstn n inputs1)) by exact Hauto.
  rewrite (run_without_keys (firstn n inputs2)) by exact Hauto.
  now rewrite !without_keys_firstn, Hsame.
Qed.

Lemma keys_ignored_in_auto_mode_witness :
  run auto_main (firstn 1 [([KeyPress XK_l; OtherEvent; KeyPress XK_n], 5%Z)])
  = run auto_main (firstn 1 [([OtherEvent; KeyPress XK_r], 5%Z)]).
Proof.
  exact (keys_ignored_in_auto_mode auto_main
           [([KeyPress XK_l; OtherEvent; KeyPress XK_n], 5%Z)]
           [([OtherEvent; KeyPress XK_r], 5%Z)] eq_refl eq_refl 1%nat).
Defined.

(** ** The scheduler in auto mode *)

Lemma to_int_small (z : Z) :
  (- 2 ^ 31 <= z < 2 ^ 31)%Z -> to_int z = z.
Proof.
  intros H. unfold to_int. rewrite Z.mod_small; lia.
Qed.

Lemma drawn_mode_is_pattern (r : Z) :
  (0 <= r)%Z -> mode_of_int (Z.rem r 8 + 1) <> MODE_NORMAL.
Proof.
  intros Hr.
  assert (H : (0 <= Z.rem r 8 < 8)%Z) by (apply Z.rem_bound_pos; lia).
  assert (C : (Z.rem r 8 = 0 \/ Z.rem r 8 = 1 \/ Z.rem r 8 = 2
               \/ Z.rem r 8 = 3 \/ Z.rem r 8 = 4 \/ Z.rem r 8 = 5
               \/ Z.rem r 8 = 6 \/ Z.rem r 8 = 7)%Z) by lia.
  repeat destruct C as [C | C]; rewrite C; discriminate.
Qed.

(** A successful draw: a pattern other than [last], and the rest of the
    tape. *)
Lemma draw_pattern_sound (last : FlockingMode) (tape tape' : list Z)
  (k : FlockingMode) :
  rand_range tape ->
  draw_pattern last tape = Some (k, tape') ->
  k <> MODE_NORMAL /\ k <> last /\ rand_range tape'.
Proof.
  unfold rand_range. induction tape as [ | r tape IH]; simpl; intros Hr E.
  - discriminate.
  - inversion Hr as [ | r0 l0 Hr0 Hrl]; subst.
    destruct (mode_eqb (mode_of_int (Z.rem r 8 + 1)) last) eqn:Eq.
    + apply IH; assumption.
    + inversion E; subst. split; [ | split ].
      * apply drawn_mode_is_pattern. lia.
      * now apply mode_eqb_neq.
      * assumption.
Qed.

(** The loop stops when the tape holds a number to stop on. *)
Lemma draw_pattern_total (last : FlockingMode) (tape : list Z) :
  can_draw last tape ->
  exists k tape', draw_pattern last tape = Some (k, tape').
Proof.
  intros [r [Hin Hne]]. induction tape as [ | r0 tape IH]; simpl.
  - destruct Hin.
  - destruct (mode_eqb (mode_of_int (Z.rem r0 8 + 1)) last) eqn:Eq.
    + destruct Hin as [-> | Hin].
      * apply mode_eqb_eq in Eq. contradiction.
      * apply IH. exact Hin.
    + eauto.
Qed.

Lemma get_next_pattern_mode_total (s : World) :
  can_draw (last_pattern_mode s) (rand_tape s) ->
  exists k s', get_next_pattern_mode s = Some (k, s').
Proof.
  intros H. destruct (draw_pattern_total _ _ H) as [k [tape' E]].
  unfold get_next_pattern_mode. rewrite E. eauto.
Qed.

(** The three ways through [check_auto_mode_timing] in auto mode. *)
Lemma check_auto_mode_timing_cases (now : Z) (s s' : World) :
  auto_mode s = true ->
  check_auto_mode_timing now s = Some s' ->
  (current_mode s = MODE_NORMAL
   /\ (BOIDS_TIME <= to_int (now - last_mode_change s))%Z
   /\ draw_pattern (last_pattern_mode s) (rand_tape s)
      = Some (current_mode s', rand_tape s')
   /\ last_pattern_mode s' = current_mode s'
   /\ pattern_time s' = 0 /\ last_mode_change s' = now
   /\ boids s' = boids s)
  \/ (current_mode s <> MODE_NORMAL
      /\ (PATTERN_TIME <= to_int (now - last_mode_change s))%Z
      /\ current_mode s' = MODE_NORMAL
      /\ last_pattern_mode s' = last_pattern_mode s
      /\ rand_tape s' = rand_tape s
      /\ pattern_time s' = 0 /\ last_mode_change s' = now
      /\ boids s' = boids s)
  \/ (s' = s
      /\ (to_int (now - last_mode_change s)
          < (if mode_eqb (current_mode s) MODE_NORMAL
             then BOIDS_TIME else PATTERN_TIME))%Z).
Proof.
  intros Hauto. unfold check_auto_mode_timing. rewrite Hauto. simpl.
  destruct (mode_eqb (current_mode s) MODE_NORMAL) eqn:Em; simpl.
  - destruct (Z.geb_spec (to_int (now - last_mode_change s)) BOIDS_TIME)
      as [Hge | Hlt].
    + destruct (get_next_pattern_mode s) as [[k s1] | ] eqn:E;
        [ | discriminate ].
      intros [= <-]. left. simpl.
      apply get_next_pattern_mode_fields in E.
      destruct E as (Eb & _ & _ & _ & _ & El & Ed).
      apply mode_eqb_eq in Em. repeat split; auto.
    + intros [= <-]. right. right. split; [ reflexivity | lia ].
  - destruct (Z.geb_spec (to_int (now - last_mode_change s)) PATTERN_TIME)
      as [Hge | Hlt].
    + intros [= <-]. right. left. simpl.
      apply mode_eqb_neq in Em. repeat split; auto.
    + intros [= <-]. right. right. split; [ reflexivity | lia ].
Qed.

Lemma handle_events_world_auto (events : list XEvent) (m : Main) :
  auto_mode (world m) = true ->
  world (fold_left handle_event events m) = world m.
Proof.
  revert m. induction events as [ | e events IH]; intros m Hauto.
  - reflexivity.
  - simpl. rewrite IH.
    + destruct e; simpl; try reflexivity. now rewrite Hauto.
    + now rewrite handle_event_auto_mode.
Qed.

(** A frame in auto mode is the scheduler check and the tick on the world
    the frame started with. *)
Lemma frame_auto (m m' : Main) (events : list XEvent) (now : Z) :
  auto_mode (world m) = true ->
  frame m (events, now) = Some m' ->
  exists s, check_auto_mode_timing now (world m) = Some s
            /\ world m' = update_boids (width m') (height m') s.
Proof.
  intros Hauto. unfold frame.
  rewrite handle_events_world_auto by exact Hauto.
  destruct (check_auto_mode_timing now (world m)) as [s | ];
    [ | discriminate ].
  intros [= <-]. exists s. split; reflexivity.
Qed.

Lemma frame_auto_total (m : Main) (events : list XEvent) (now : Z)
  (s : World) :
  auto_mode (world m) = true ->
  check_auto_mode_timing now (world m) = Some s ->
  exists m', frame m (events, now) = Some m'
             /\ world m' = update_boids (width m') (height m') s.
Proof.
  intros Hauto E. unfold frame.
  rewrite handle_events_world_auto by exact Hauto. rewrite E.
  eexists. split; reflexivity.
Qed.

Lemma check_auto_mode_timing_idle (now : Z) (s : World) :
  (to_int (now - last_mode_change s)
   < (if mode_eqb (current_mode s) MODE_NORMAL
      then BOIDS_TIME else PATTERN_TIME))%Z ->
  check_auto_mode_timing now s = Some s.
Proof.
  intros H. unfold check_auto_mode_timing.
  destruct (negb (auto_mode s)); [ reflexivity | ].
  destruct (mode_eqb (current_mode s) MODE_NORMAL); simpl.
  - destruct (Z.geb_spec (to_int (now - last_mode_change s)) BOIDS_TIME);
      [ lia | reflexivity ].
  - destruct (Z.geb_spec (to_int (now - last_mode_change s)) PATTERN_TIME);
      [ lia | reflexivity ].
Qed.

Lemma check_normal_to_pattern (now : Z) (s : World) :
  auto_mode s = true ->
  current_mode s = MODE_NORMAL ->
  (BOIDS_TIME <= now - last_mode_change s < 2 ^ 31)%Z ->
  rand_range (rand_tape s) ->
  can_draw (last_pattern_mode s) (rand_tape s) ->
  exists s', check_auto_mode_timing now s = Some s'
             /\ is_pattern (current_mode s') = true
             /\ pattern_time s' = 0
             /\ last_mode_change s' = now
             /\ auto_mode s' = true
             /\ rand_range (rand_tape s').
Proof.
  intros Hauto Hmode Ht Hrange Hdraw.
  destruct (draw_pattern_total _ _ Hdraw) as [k [tape' Ed]].
  destruct (draw_pattern_sound _ _ _ _ Hrange Ed) as (Hk & _ & Hr').
  unfold check_auto_mode_timing, get_next_pattern_mode.
  rewrite Hauto, Hmode, Ed. simpl.
  rewrite to_int_small by (unfold BOIDS_TIME in Ht; lia).
  destruct (Z.geb_spec (now - last_mode_change s) BOIDS_TIME); [ | lia ].
  eexists. split; [ reflexivity | ]. simpl.
  repeat split; try assumption. now apply is_pattern_neq.
Qed.

Lemma check_pattern_to_normal (now : Z) (s : World) :
  auto_mode s = true ->
  current_mode s <> MODE_NORMAL ->
  (PATTERN_TIME <= now - last_mode_change s < 2 ^ 31)%Z ->
  exists s', check_auto_mode_timing now s = Some s'
             /\ current_mode s' = MODE_NORMAL
             /\ pattern_time s' = 0
             /\ last_mode_change s' = now.
Proof.
  intros Hauto Hmode Ht. apply mode_eqb_neq in Hmode.
  unfold check_auto_mode_timing. rewrite Hauto, Hmode. simpl.
  rewrite to_int_small by (unfold PATTERN_TIME in Ht; lia).
  destruct (Z.geb_spec (now - last_mode_change s) PATTERN_TIME); [ | lia ].
  eexists. split; [ reflexivity | ]. simpl. repeat split.
Qed.

(** While no dwell time has elapsed, the frames of a run in auto mode leave
    the scheduler as it is. *)
Lemma run_idle (inputs : list (list XEvent * Z)) (m : Main) :
  auto_mode (world m) = true ->
  Forall (fun input =>
            (to_int (snd input - last_mode_change (world m))
             < (if mode_eqb (current_mode (world m)) MODE_NORMAL
                then BOIDS_TIME else PATTERN_TIME))%Z) inputs ->
  exists m', run m inputs = Some m'
             /\ auto_mode (world m') = true
             /\ current_mode (world m') = current_mode (world m)
             /\ last_mode_change (world m') = last_mode_change (world m)
             /\ last_pattern_mode (world m') = last_pattern_mode (world m)
             /\ rand_tape (world m') = rand_tape (world m).
Proof.
  revert m. induction inputs as [ | [events now] inputs IH];
    intros m Hauto Hall.
  - exists m. repeat split; assumption.
  - inversion Hall as [ | i0 l0 Hnow Hrest]; subst. simpl in Hnow.
    destruct (frame_auto_total m events now (world m) Hauto
                (check_auto_mode_timing_idle now (world m) Hnow))
      as [m1 [Ef Ew]].
    destruct (IH m1) as [m' (Er & Ha & Hm & Hl & Hp & Hr)].
    + rewrite Ew. exact Hauto.
    + rewrite Ew. simpl. exact Hrest.
    + exists m'. cbn [run]. rewrite Ef. split; [ exact Er | ].
      rewrite Ha, Hm, Hl, Hp, Hr, Ew. repeat split.
Qed.

(** C5, as stated, fails: [elapsed] is an [int], so a check in
    [MODE_NORMAL] that comes [2^31] seconds after the last transition reads
    a negative [elapsed] and leaves the state as it is. *)
Lemma no_transition_after_int_wrap :
  auto_mode auto_world = true
  /\ current_mode auto_world = MODE_NORMAL
  /\ (BOIDS_TIME <= 2147483648 - last_mode_change auto_world)%Z
  /\ rand_range (rand_tape auto_world)
  /\ can_draw (last_pattern_mode auto_world) (rand_tape auto_world)
  /\ check_auto_mode_timing 2147483648 auto_world = Some auto_world.
Proof.
  split; [ reflexivity | ]. split; [ reflexivity | ].
  split; [ unfold BOIDS_TIME; simpl; lia | ].
  split; [ repeat constructor; unfold RAND_MAX; lia | ].
  split; [ exists 1%Z; split; [ left; reflexivity | discriminate ] | ].
  apply check_auto_mode_timing_idle. reflexivity.
Qed.

(** C5, amended: with [BOIDS_TIME = 30] and [PATTERN_TIME = 35], a check in
    auto mode that finds [MODE_NORMAL] at least [BOIDS_TIME] and fewer than
    [2^31] seconds after the last transition moves to a pattern mode (the
    draw stops when the tape holds a number to stop on); one that finds a
    pattern mode at least [PATTERN_TIME] and fewer than [2^31] seconds after
    it moves to [MODE_NORMAL]; each of them sets [pattern_time] to 0 and
    [last_mode_change] to the current time.  So a run from [MODE_NORMAL]
    with the last transition at time 0 stays in [MODE_NORMAL] through its
    frames before second 30, enters a pattern at the frame of second 30,
    keeps it through the frames before second 65, and is back in
    [MODE_NORMAL] at the frame of second 65. *)
Theorem auto_dwell_times :
  BOIDS_TIME = 30%Z /\ PATTERN_TIME = 35%Z
  /\ (forall (now : Z) (s : World),
         auto_mode s = true ->
         current_mode s = MODE_NORMAL ->
         (BOIDS_TIME <= now - last_mode_change s < 2 ^ 31)%Z ->
         rand_range (rand_tape s) ->
         can_draw (last_pattern_mode s) (rand_tape s) ->
         exists s', check_auto_mode_timing now s = Some s'
                    /\ is_pattern (current_mode s') = true
                    /\ pattern_time s' = 0
                    /\ last_mode_change s' = now)
  /\ (forall (now : Z) (s : World),
         auto_mode s = true ->
         current_mode s <> MODE_NORMAL ->
         (PATTERN_TIME <= now - last_mode_change s < 2 ^ 31)%Z ->
         exists s', check_auto_mode_timing now s = Some s'
                    /\ current_mode s' = MODE_NORMAL
                    /\ pattern_time s' = 0
                    /\ last_mode_change s' = now)
  /\ (forall (m : Main) (early mid : list (list XEvent * Z))
             (events30 events65 : list XEvent),
         auto_mode (world m) = true ->
         current_mode (world m) = MODE_NORMAL ->
         last_mode_change (world m) = 0%Z ->
         rand_range (rand_tape (world m)) ->
         can_draw (last_pattern_mode (world m)) (rand_tape (world m)) ->
         Forall (fun input => (0 <= snd input < 30)%Z) early ->
         Forall (fun input => (30 <= snd input < 65)%Z) mid ->
         exists m1 m2 m3 m4 : Main,
           run m early = Some m1
           /\ current_mode (world m1) = MODE_NORMAL
           /\ last_mode_change (world m1) = 0%Z
           /\ frame m1 (events30, 30%Z) = Some m2
           /\ is_pattern (current_mode (world m2)) = true
           /\ last_mode_change (world m2) = 30%Z
           /\ run m2 mid = Some m3
           /\ current_mode (world m3) = current_mode (world m2)
           /\ last_mode_change (world m3) = 30%Z
           /\ frame m3 (events65, 65%Z) = Some m4
           /\ current_mode (world m4) = MODE_NORMAL
           /\ last_mode_change (world m4) = 65%Z).
Proof.
  split; [ reflexivity | ]. split; [ reflexivity | ].
  split.
  { intros now s Ha Hm Ht Hr Hd.
    destruct (check_normal_to_pattern now s Ha Hm Ht Hr Hd)
      as [s' (E & Hp & Hpt & Hl & _)].
    exists s'. repeat split; assumption. }
  split; [ exact check_pattern_to_normal | ].
  intros m early mid events30 events65 Ha Hm Hl Hr Hd Hearly Hmid.
  (* the frames before second 30 *)
  destruct (run_idle early m Ha) as [m1 (E1 & Ha1 & Hm1 & Hl1 & Hp1 & Hr1)].
  { eapply Forall_impl; [ | exact Hearly ].
    intros [events t] Ht. simpl in Ht. simpl snd. rewrite Hl, Hm. simpl.
    rewrite to_int_small by lia. unfold BOIDS_TIME. lia. }
  (* the frame of second 30 *)
  destruct (check_normal_to_pattern 30 (world m1))
    as [s2 (E2 & Hp2 & _ & Hl2 & Ha2 & _)]; try congruence.
  { rewrite Hl1, Hl. unfold BOIDS_TIME. lia. }
  destruct (frame_auto_total m1 events30 30 s2 Ha1 E2) as [m2 [Ef2 Ew2]].
  assert (Hm2 : current_mode (world m2) = current_mode s2)
    by (rewrite Ew2; reflexivity).
  assert (Hlm2 : last_mode_change (world m2) = 30%Z)
    by (rewrite Ew2; exact Hl2).
  assert (Ham2 : auto_mode (world m2) = true) by (rewrite Ew2; exact Ha2).
  (* the frames before second 65 *)
  destruct (run_idle mid m2 Ham2) as [m3 (E3 & Ha3 & Hm3 & Hl3 & _)].
  { eapply Forall_impl; [ | exact Hmid ].
    intros [events t] Ht. simpl in Ht. simpl snd. rewrite Hlm2, Hm2.
    unfold is_pattern in Hp2. apply negb_true_iff in Hp2. rewrite Hp2.
    rewrite to_int_small by lia. unfold PATTERN_TIME. lia. }
  (* the frame of second 65 *)
  destruct (check_pattern_to_normal 65 (world m3) Ha3)
    as [s4 (E4 & Hm4 & _ & Hl4)].
  { rewrite Hm3, Hm2. now apply is_pattern_neq. }
  { rewrite Hl3, Hlm2. unfold PATTERN_TIME. lia. }
  destruct (frame_auto_total m3 events65 65 s4 Ha3 E4) as [m4 [Ef4 Ew4]].
  exists m1, m2, m3, m4.
  split; [ exact E1 | ]. split; [ congruence | ]. split; [ congruence | ].
  split; [ exact Ef2 | ]. split; [ rewrite Hm2; exact Hp2 | ].
  split; [ exact Hlm2 | ].
  split; [ exact E3 | ]. split; [ exact Hm3 | ]. split; [ congruence | ].
  split; [ exact Ef4 | ].
  split; [ rewrite Ew4; exact Hm4 | rewrite Ew4; exact Hl4 ].
Qed.

Lemma auto_dwell_times_witness :
  exists s', check_auto_mode_timing 30 auto_world = Some s'
             /\ is_pattern (current_mode s') = true
             /\ pattern_time s' = 0
             /\ last_mode_change s' = 30%Z.
Proof.
  refine (proj1 (proj2 (proj2 auto_dwell_times)) 30%Z auto_world
            eq_refl eq_refl _ _ _).
  - unfold BOIDS_TIME. simpl. lia.
  - repeat constructor; unfold RAND_MAX; lia.
  - exists 1%Z. split; [ left; reflexivity | discriminate ].
Defined.

(** ** The patterns selected along a run *)

(** A frame in auto mode either selects a pattern, which then differs from
    the one selected before and is remembered, or selects none and leaves
    the memory alone. *)
Lemma frame_auto_step (m m' : Main) (input : list XEvent * Z) :
  auto_mode (world m) = true ->
  rand_range (rand_tape (world m)) ->
  frame m input = Some m' ->
  rand_range (rand_tape (world m'))
  /\ ((current_mode (world m) = MODE_NORMAL
       /\ current_mode (world m') <> MODE_NORMAL
       /\ current_mode (world m') <> last_pattern_mode (world m)
       /\ last_pattern_mode (world m') = current_mode (world m'))
      \/ ((current_mode (world m) = MODE_NORMAL ->
           current_mode (world m') = MODE_NORMAL)
          /\ last_pattern_mode (world m') = last_pattern_mode (world m))).
Proof.
  intros Hauto Hrange Ef. destruct input as [events now].
  destruct (frame_auto m m' events now Hauto Ef) as [s [Ec Ew]].
  rewrite Ew. simpl.
  destruct (check_auto_mode_timing_cases now (world m) s Hauto Ec)
    as [(Hm & _ & Ed & Hl & _) | [(Hm & _ & Hm' & Hl & Ht & _) | (-> & _)]].
  - destruct (draw_pattern_sound _ _ _ _ Hrange Ed) as (Hk & Hne & Hr').
    split; [ exact Hr' | ]. left. repeat split; assumption.
  - split; [ now rewrite Ht | ]. right. split; [ contradiction | exact Hl ].
  - split; [ exact Hrange | ]. right. split; [ tauto | reflexivity ].
Qed.

(** The first pattern selected in a run differs from the one remembered
    when the run started. *)
Lemma auto_selected_head (inputs : list (list XEvent * Z)) (m : Main)
  (k : FlockingMode) :
  auto_mode (world m) = true ->
  rand_range (rand_tape (world m)) ->
  hd_error (auto_selected m inputs) = Some k ->
  k <> last_pattern_mode (world m).
Proof.
  revert m. induction inputs as [ | input inputs IH]; intros m Hauto Hrange.
  - discriminate.
  - cbn [auto_selected]. destruct (frame m input) as [m' | ] eqn:Ef;
      [ | discriminate ].
    pose proof (frame_auto_mode m m' input Ef) as Ha'.
    rewrite Hauto in Ha'.
    destruct (frame_auto_step m m' input Hauto Hrange Ef) as [Hr' Hcase].
    destruct Hcase as [(Hm & Hm' & Hne & Hl) | (Hm & Hl)].
    + rewrite Hm. apply is_pattern_neq in Hm'. rewrite Hm'.
      cbn [mode_eqb int_of_mode Z.eqb andb app hd_error].
      intros [= <-]. exact Hne.
    + assert (E : mode_eqb (current_mode (world m)) MODE_NORMAL
                  && is_pattern (current_mode (world m')) = false).
      { destruct (mode_eqb (current_mode (world m)) MODE_NORMAL) eqn:En;
          [ | reflexivity ].
        apply mode_eqb_eq in En. rewrite (Hm En). reflexivity. }
      rewrite E. cbn [app]. rewrite <- Hl. now apply IH.
Qed.

(** C6: along every run in auto mode, every pattern the scheduler selects is
    one of the eight pattern modes and differs from the pattern selected
    before it (the first one from the pattern remembered at the start). *)
Theorem auto_selected_never_repeats (m : Main)
  (inputs : list (list XEvent * Z)) :
  auto_mode (world m) = true ->
  rand_range (rand_tape (world m)) ->
  Forall (fun k => is_pattern k = true) (auto_selected m inputs)
  /\ no_repeat (last_pattern_mode (world m) :: auto_selected m inputs).
Proof.
  revert m. induction inputs as [ | input inputs IH]; intros m Hauto Hrange.
  - simpl. split; [ constructor | exact I ].
  - cbn [auto_selected]. destruct (frame m input) as [m' | ] eqn:Ef.
    2: { split; [ constructor | exact I ]. }
    pose proof (frame_auto_mode m m' input Ef) as Ha'.
    rewrite Hauto in Ha'.
    destruct (frame_auto_step m m' input Hauto Hrange Ef) as [Hr' Hcase].
    destruct (IH m' Ha' Hr') as [IHp IHn].
    destruct Hcase as [(Hm & Hm' & Hne & Hl) | (Hm & Hl)].
    + (* the frame selected a pattern *)
      rewrite Hm. apply is_pattern_neq in Hm'. rewrite Hm'.
      cbn [mode_eqb int_of_mode Z.eqb andb app].
      rewrite Hl in IHn. split.
      * constructor; assumption.
      * split; [ congruence | exact IHn ].
    + (* the frame selected none *)
      assert (E : mode_eqb (current_mode (world m)) MODE_NORMAL
                  && is_pattern (current_mode (world m')) = false).
      { destruct (mode_eqb (current_mode (world m)) MODE_NORMAL) eqn:En;
          [ | reflexivity ].
        apply mode_eqb_eq in En. rewrite (Hm En). reflexivity. }
      rewrite E. simpl app. rewrite <- Hl. split; assumption.
Qed.

(** A run of three frames: the scheduler selects the rose, returns to
    [MODE_NORMAL], draws the rose again, rejects it and selects the
    hypocycloid. *)
Example auto_selected_three_frames :
  auto_selected auto_main
    [([], 30%Z); ([], 65%Z); ([KeyPress XK_l], 95%Z)]
  = [MODE_ROSE; MODE_HYPOCYCLOID].
Proof. reflexivity. Qed.

Lemma auto_selected_never_repeats_witness :
  Forall (fun k => is_pattern k = true)
         (auto_selected auto_main
            [([], 30%Z); ([], 65%Z); ([KeyPress XK_l], 95%Z)])
  /\ no_repeat
       (last_pattern_mode (world auto_main)
        :: auto_selected auto_main
             [([], 30%Z); ([], 65%Z); ([KeyPress XK_l], 95%Z)]).
Proof.
  apply (auto_selected_never_repeats auto_main
           [([], 30%Z); ([], 65%Z); ([KeyPress XK_l], 95%Z)]).
  - reflexivity.
  - repeat constructor; unfold RAND_MAX; lia.
Defined.

(** ** The first pattern of a run *)

Lemma init_boids_from_tape (w h : Z) (n i : nat) (tape rest : list Z)
  (bs : list Boid) :
  rand_range tape ->
  init_boids_from w h n i tape = Some (bs, rest) ->
  rand_range rest /\ length bs = n.
Proof.
  unfold rand_range. revert i tape bs.
  induction n as [ | n IH]; intros i tape bs Hr; simpl.
  - intros [= <- <-]. split; [ exact Hr | reflexivity ].
  - destruct tape as [ | r1 [ | r2 [ | r3 [ | r4 tape]]]]; try discriminate.
    destruct (init_boids_from w h n (S i) tape) as [[bs' rest'] | ] eqn:E;
      [ | discriminate ].
    intros [= <- <-].
    repeat match goal with
           | H : Forall _ (_ :: _) |- _ => inversion H; clear H; subst
           end.
    destruct (IH (S i) tape bs') as [Hrest Hlen]; [ assumption | exact E | ].
    split; [ exact Hrest | simpl; now rewrite Hlen ].
Qed.

Lemma initial_main_fields (auto : bool) (start w h : Z) (tape : list Z)
  (m0 : Main) :
  rand_range tape ->
  initial_main auto start w h tape = Some m0 ->
  auto_mode (world m0) = auto
  /\ current_mode (world m0) = MODE_NORMAL
  /\ last_pattern_mode (world m0) = MODE_LISSAJOUS
  /\ pattern_time (world m0) = 0
  /\ length (boids (world m0)) = NUM_BOIDS
  /\ rand_range (rand_tape (world m0)).
Proof.
  intros Hr. unfold initial_main, init_boids.
  destruct (init_boids_from w h NUM_BOIDS 0 tape) as [[bs rest] | ] eqn:E;
    [ | discriminate ].
  intros [= <-]. simpl.
  destruct (init_boids_from_tape _ _ _ _ _ _ _ Hr E) as [Hrest Hlen].
  repeat split; assumption.
Qed.

(** C10: [get_next_pattern_mode] returns a pattern mode other than
    [last_pattern_mode] as it was on entry, and remembers it; it returns
    whenever the tape holds a number the loop stops on.  A run starts with
    [last_pattern_mode = MODE_LISSAJOUS], so the first pattern the scheduler
    selects in a run is not the Lissajous pattern. *)
Theorem first_selection_not_lissajous :
  (forall (s s' : World) (k : FlockingMode),
      rand_range (rand_tape s) ->
      get_next_pattern_mode s = Some (k, s') ->
      is_pattern k = true
      /\ k <> last_pattern_mode s
      /\ last_pattern_mode s' = k)
  /\ (forall s : World,
         can_draw (last_pattern_mode s) (rand_tape s) ->
         exists k s', get_next_pattern_mode s = Some (k, s'))
  /\ (forall (start w h : Z) (tape : list Z) (m0 : Main)
             (inputs : list (list XEvent * Z)) (k : FlockingMode),
         rand_range tape ->
         initial_main true start w h tape = Some m0 ->
         last_pattern_mode (world m0) = MODE_LISSAJOUS
         /\ (hd_error (auto_selected m0 inputs) = Some k ->
             k <> MODE_LISSAJOUS)).
Proof.
  split; [ | split ].
  - intros s s' k Hr E.
    apply get_next_pattern_mode_fields in E.
    destruct E as (_ & _ & _ & _ & _ & Hl & Ed).
    destruct (draw_pattern_sound _ _ _ _ Hr Ed) as (Hk & Hne & _).
    split; [ now apply is_pattern_neq | ]. split; assumption.
  - exact get_next_pattern_mode_total.
  - intros start w h tape m0 inputs k Hr E.
    destruct (initial_main_fields _ _ _ _ _ _ Hr E)
      as (Ha & _ & Hl & _ & _ & Hr0).
    split; [ exact Hl | ].
    intros Hhd. rewrite <- Hl.
    exact (auto_selected_head inputs m0 k Ha Hr0 Hhd).
Qed.

Lemma first_selection_not_lissajous_witness :
  is_pattern MODE_ROSE = true
  /\ MODE_ROSE <> last_pattern_mode auto_world
  /\ last_pattern_mode
       (mkWorld resting_boids MODE_NORMAL 0 true 0 MODE_ROSE [9%Z; 2%Z])
     = MODE_ROSE.
Proof.
  apply (proj1 first_selection_not_lissajous auto_world
           (mkWorld resting_boids MODE_NORMAL 0 true 0 MODE_ROSE [9%Z; 2%Z])
           MODE_ROSE).
  - repeat constructor; unfold RAND_MAX; lia.
  - reflexivity.
Defined.

(** ** Steering toward the pattern *)

Lemma INR_NUM_BOIDS : INR NUM_BOIDS = 500.
Proof. rewrite INR_IZR_INZ. reflexivity. Qed.

Lemma steer_far (tx ty : R) (b : Boid) :
  0 < sqrt ((tx - x b) * (tx - x b) + (ty - y b) * (ty - y b)) ->
  steer tx ty b
  = set_velocity
      (vx b + (tx - x b)
              / sqrt ((tx - x b) * (tx - x b) + (ty - y b) * (ty - y b))
              * PATTERN_FORCE)
      (vy b + (ty - y b)
              / sqrt ((tx - x b) * (tx - x b) + (ty - y b) * (ty - y b))
              * PATTERN_FORCE) b.
Proof.
  intros H. unfold steer, Rgtb. apply Rltb_true in H. now rewrite H.
Qed.



(** No division of the steering has a zero divisor. *)
Lemma steer_checked_total (tx ty : R) (b : Boid) :
  steer_checked tx ty b = Some (steer tx ty b).
Proof.
  unfold steer_checked, steer, Rgtb, checked_div.
  set (dist := sqrt _).
  destruct (Rltb 0 dist) eqn:E; [ | reflexivity ].
  apply Rltb_true in E.
  destruct (Req_dec_T dist 0) as [H0 | _]; [ lra | reflexivity ].
Qed.




(** ** Flocking in normal mode *)

Lemma half_radius : IZR (Z.quot NEIGHBOR_RADIUS 2) = IZR NEIGHBOR_RADIUS / 2.
Proof.
  change (Z.quot NEIGHBOR_RADIUS 2) with 25%Z. unfold NEIGHBOR_RADIUS. lra.
Qed.

Lemma flock_scan_step_spec (bs : list Boid) (i j : nat) (acc : Accum) :
  flock_scan_step bs i acc j
  = if is_spec_neighbor bs i j then
      let a := nth i bs boid0 in
      let b := nth j bs boid0 in
      let near := Rltb (distance a b) (IZR NEIGHBOR_RADIUS / 2) in
      mkAccum (avg_vx acc + vx b) (avg_vy acc + vy b)
              (center_x acc + x b) (center_y acc + y b)
              (if near then avoid_x acc - (x b - x a) else avoid_x acc)
              (if near then avoid_y acc - (y b - y a) else avoid_y acc)
              (count acc + 1)
    else acc.
Proof.
  unfold flock_scan_step, is_spec_neighbor, Rgtb.
  rewrite half_radius. fold (distance (nth i bs boid0) (nth j bs boid0)).
  destruct (Nat.eqb i j); simpl; [ reflexivity | ].
  destruct (Rltb 0 _), (Rltb _ (IZR NEIGHBOR_RADIUS)); reflexivity.
Qed.

Lemma Rsum_cons (a : R) (l : list R) : Rsum (a :: l) = a + Rsum l.
Proof. reflexivity. Qed.

Lemma spec_close_cons (a b : Boid) (ns : list Boid) :
  spec_close a (b :: ns)
  = if Rltb (distance a b) (IZR NEIGHBOR_RADIUS / 2)
    then b :: spec_close a ns else spec_close a ns.
Proof. reflexivity. Qed.

Lemma spec_neighbors_among_cons (bs : list Boid) (i j : nat) (l : list nat) :
  spec_neighbors_among bs i (j :: l)
  = if is_spec_neighbor bs i j then nth j bs boid0 :: spec_neighbors_among bs i l
    else spec_neighbors_among bs i l.
Proof.
  unfold spec_neighbors_among. cbn [filter]. now destruct (is_spec_neighbor bs i j).
Qed.

Lemma fold_flock_scan (bs : list Boid) (i : nat) (l : list nat) (acc : Accum) :
  let a := nth i bs boid0 in
  let ns := spec_neighbors_among bs i l in
  fold_left (flock_scan_step bs i) l acc
  = mkAccum (avg_vx acc + Rsum (map vx ns)) (avg_vy acc + Rsum (map vy ns))
            (center_x acc + Rsum (map x ns)) (center_y acc + Rsum (map y ns))
            (avoid_x acc
             + Rsum (map (fun b => - (x b - x a)) (spec_close a ns)))
            (avoid_y acc
             + Rsum (map (fun b => - (y b - y a)) (spec_close a ns)))
            (count acc + Z.of_nat (length ns)).
Proof.
  cbv zeta. revert acc. induction l as [ | j l IH]; intros acc.
  - destruct acc. unfold spec_neighbors_among. simpl. f_equal; try ring.
  - cbn [fold_left]. rewrite IH, flock_scan_step_spec, spec_neighbors_among_cons.
    destruct (is_spec_neighbor bs i j); [ | reflexivity ].
    cbv zeta. rewrite spec_close_cons.
    destruct (Rltb (distance (nth i bs boid0) (nth j bs boid0))
                   (IZR NEIGHBOR_RADIUS / 2));
      cbn [map length avg_vx avg_vy center_x center_y avoid_x avoid_y count];
      rewrite ?Rsum_cons; f_equal; try ring; lia.
Qed.

Lemma flock_scan_spec (bs : list Boid) (i : nat) :
  let a := nth i bs boid0 in
  let ns := spec_neighbors_among bs i (seq 0 NUM_BOIDS) in
  flock_scan bs i
  = mkAccum (Rsum (map vx ns)) (Rsum (map vy ns))
            (Rsum (map x ns)) (Rsum (map y ns))
            (Rsum (map (fun b => - (x b - x a)) (spec_close a ns)))
            (Rsum (map (fun b => - (y b - y a)) (spec_close a ns)))
            (Z.of_nat (length ns)).
Proof.
  cbv zeta. unfold flock_scan. rewrite fold_flock_scan.
  generalize (spec_neighbors_among bs i (seq 0 NUM_BOIDS)). intros ns.
  unfold accum0. cbn [avg_vx avg_vy center_x center_y avoid_x avoid_y count].
  f_equal; ring.
Qed.


Lemma flock_boid_velocity (bs : list Boid) (i : nat) :
  (vx (flock_boid bs i), vy (flock_boid bs i)) = spec_flock_velocity bs i.
Proof.
  assert (Hscan := flock_scan_spec bs i). cbv zeta in Hscan.
  unfold flock_boid, spec_flock_velocity, spec_neighbors. rewrite Hscan.
    cbn [avg_vx avg_vy center_x center_y avoid_x avoid_y count].
    generalize (spec_neighbors_among bs i (seq 0 NUM_BOIDS)). intros ns.
    destruct (length ns) as [ | n] eqn:En.
    + reflexivity.
    + replace (Z.of_nat (S n) >? 0)%Z with true
        by (symmetry; apply Z.gtb_lt; lia).
      rewrite <- INR_IZR_INZ. cbn [set_velocity vx vy]. f_equal.
Qed.

Lemma flock_boid_position (bs : list Boid) (i : nat) :
  x (flock_boid bs i) = x (nth i bs boid0)
  /\ y (flock_boid bs i) = y (nth i bs boid0).
Proof.
  unfold flock_boid. destruct (_ >? _)%Z; split; reflexivity.
Qed.

Lemma flock_boid_alone (bs : list Boid) (i : nat) :
  spec_neighbors bs i = [] -> flock_boid bs i = nth i bs boid0.
Proof.
  assert (Hscan := flock_scan_spec bs i). cbv zeta in Hscan.
  unfold spec_neighbors.
  generalize dependent (spec_neighbors_among bs i (seq 0 NUM_BOIDS)).
  intros ns Hscan Hnone. subst ns.
  unfold flock_boid. rewrite Hscan. reflexivity.
Qed.

Lemma update_boid_normal (bs : list Boid) (i : nat) (ptime : R) (w h : Z) :
  update_boid MODE_NORMAL ptime w h bs i
  = upd i (fun b => integrate_wrap w h (limit_speed b))
        (upd i (fun _ => flock_boid bs i) bs).
Proof. reflexivity. Qed.

(** ** Writing into the array *)

Lemma length_upd {A : Type} (i : nat) (f : A -> A) (l : list A) :
  length (upd i f l) = length l.
Proof.
  revert i. induction l as [ | a l IH]; intros [ | i]; simpl; auto.
Qed.

Lemma nth_upd_same {A : Type} (i : nat) (f : A -> A) (l : list A) (d : A) :
  (i < length l)%nat -> nth i (upd i f l) d = f (nth i l d).
Proof.
  revert i. induction l as [ | a l IH]; intros [ | i] H; simpl in *;
    try lia; auto with arith.
Qed.

Lemma nth_upd_other {A : Type} (i j : nat) (f : A -> A) (l : list A) (d : A) :
  i <> j -> nth j (upd i f l) d = nth j l d.
Proof.
  revert i j. induction l as [ | a l IH]; intros [ | i] [ | j] H; simpl;
    try reflexivity; try congruence.
  apply IH. congruence.
Qed.

Lemma upd_overflow {A : Type} (i : nat) (f : A -> A) (l : list A) :
  (length l <= i)%nat -> upd i f l = l.
Proof.
  revert i. induction l as [ | a l IH]; intros [ | i] H; simpl in *;
    try reflexivity; try lia.
  f_equal. apply IH. lia.
Qed.

Lemma Forall_upd {A : Type} (P : A -> Prop) (i : nat) (f : A -> A)
  (l : list A) (d : A) :
  Forall P l -> ((i < length l)%nat -> P (f (nth i l d))) ->
  Forall P (upd i f l).
Proof.
  revert i. induction l as [ | a l IH]; intros i Hl Hf.
  - destruct i; constructor.
  - inversion Hl; subst. destruct i as [ | i]; simpl.
    + constructor; [ apply Hf; simpl; lia | assumption ].
    + constructor; [ assumption | ].
      apply IH; [ assumption | ]. intros Hi. apply Hf. simpl. lia.
Qed.

(** ** The speed limit *)

Lemma speed_nonneg (b : Boid) : 0 <= speed b.
Proof. apply sqrt_pos. Qed.

Lemma speed_square (b : Boid) : speed b * speed b = vx b * vx b + vy b * vy b.
Proof. apply sqrt_sqrt. nra. Qed.

Lemma limit_speed_under (b : Boid) :
  speed b <= MAX_SPEED -> limit_speed b = b.
Proof.
  intros H. unfold limit_speed, Rgtb. fold (speed b).
  apply Rltb_false in H. now rewrite H.
Qed.

Lemma limit_speed_over (b : Boid) :
  MAX_SPEED < speed b ->
  limit_speed b
  = set_velocity (vx b / speed b * MAX_SPEED) (vy b / speed b * MAX_SPEED) b.
Proof.
  intros H. unfold limit_speed, Rgtb. fold (speed b).
  apply Rltb_true in H. now rewrite H.
Qed.

Lemma limit_speed_over_speed (b : Boid) :
  MAX_SPEED < speed b -> speed (limit_speed b) = MAX_SPEED.
Proof.
  intros H. rewrite limit_speed_over by exact H.
  unfold MAX_SPEED in *. unfold speed at 1. cbn [set_velocity vx vy].
  pose proof (speed_square b) as Hsq. pose proof (speed_nonneg b) as Hs.
  apply sqrt_lem_1; [ nra | lra | ].
  assert (Hne : speed b <> 0) by lra.
  replace (vx b / speed b * 4 * (vx b / speed b * 4)
           + vy b / speed b * 4 * (vy b / speed b * 4))
    with (16 * ((vx b * vx b + vy b * vy b) / (speed b * speed b)))
    by (field; exact Hne).
  rewrite <- Hsq. field. exact Hne.
Qed.

Lemma limit_speed_bound (b : Boid) : speed (limit_speed b) <= MAX_SPEED.
Proof.
  destruct (Rle_lt_dec (speed b) MAX_SPEED) as [H | H].
  - now rewrite limit_speed_under.
  - rewrite limit_speed_over_speed by exact H. lra.
Qed.

Lemma limit_speed_never_faster (b : Boid) : speed (limit_speed b) <= speed b.
Proof.
  destruct (Rle_lt_dec (speed b) MAX_SPEED) as [H | H].
  - rewrite limit_speed_under by exact H. lra.
  - rewrite limit_speed_over_speed by exact H. lra.
Qed.

(** The clamp multiplies the velocity by a factor in (0, 1]. *)
Lemma limit_speed_scales (b : Boid) :
  exists k : R,
    0 < k <= 1
    /\ vx (limit_speed b) = k * vx b /\ vy (limit_speed b) = k * vy b
    /\ (speed b <= MAX_SPEED -> k = 1).
Proof.
  destruct (Rle_lt_dec (speed b) MAX_SPEED) as [H | H].
  - exists 1. rewrite limit_speed_under by exact H.
    repeat split; try lra.
  - exists (MAX_SPEED / speed b). rewrite limit_speed_over by exact H.
    unfold MAX_SPEED in *. cbn [set_velocity vx vy].
    assert (Hpos : 0 < speed b) by lra.
    repeat split; try (field; lra); try lra.
    + apply Rdiv_lt_0_compat; lra.
    + apply (Rmult_le_reg_r (speed b)); [ exact Hpos | ].
      unfold Rdiv. rewrite Rmult_assoc, Rinv_l by lra. lra.
Qed.

Lemma limit_speed_idempotent (b : Boid) :
  limit_speed (limit_speed b) = limit_speed b.
Proof. apply limit_speed_under, limit_speed_bound. Qed.

Lemma limit_speed_position (b : Boid) :
  x (limit_speed b) = x b /\ y (limit_speed b) = y b.
Proof.
  unfold limit_speed. destruct (Rgtb _ _); split; reflexivity.
Qed.

(** ** One agent of the tick *)

Lemma speed_integrate_wrap (w h : Z) (b : Boid) :
  speed (integrate_wrap w h b) = speed b.
Proof. reflexivity. Qed.

Lemma speed_boid0 : speed boid0 = 0.
Proof.
  unfold speed. simpl. replace (0 * 0 + 0 * 0) with 0 by ring. apply sqrt_0.
Qed.

Lemma apply_separation_force_shape (bs : list Boid) (i : nat) (weight : R) :
  exists f : Boid -> Boid,
    apply_separation_force bs i weight = upd i f bs
    /\ forall b, x (f b) = x b /\ y (f b) = y b.
Proof.
  unfold apply_separation_force.
  destruct (fold_left _ _ _) as [[ax ay] c].
  destruct (c >? 0)%Z.
  - eexists. split; [ reflexivity | ]. intros b. split; reflexivity.
  - exists (fun b => b). split; [ | intros b; split; reflexivity ].
    clear. revert i. induction bs as [ | a bs IH]; intros [ | i]; simpl;
      try reflexivity.
    f_equal. apply IH.
Qed.

Lemma steer_position (tx ty : R) (b : Boid) :
  x (steer tx ty b) = x b /\ y (steer tx ty b) = y b.
Proof. unfold steer. destruct (Rgtb _ _); split; reflexivity. Qed.

(** The force phase of either mode writes agent [i] only, and only its
    velocity. *)
Lemma force_phase_shape (m : FlockingMode) (ptime : R) (w h : Z)
  (bs : list Boid) (i : nat) :
  let bs1 :=
    if mode_eqb m MODE_NORMAL then upd i (fun _ => flock_boid bs i) bs
    else apply_pattern_force m ptime w h bs i in
  length bs1 = length bs
  /\ (forall j, j <> i -> nth j bs1 boid0 = nth j bs boid0)
  /\ x (nth i bs1 boid0) = x (nth i bs boid0)
  /\ y (nth i bs1 boid0) = y (nth i bs boid0).
Proof.
  cbv zeta. destruct (mode_eqb m MODE_NORMAL).
  - split; [ apply length_upd | ].
    split; [ intros j Hj; apply nth_upd_other; congruence | ].
    destruct (Nat.lt_ge_cases i (length bs)) as [Hi | Hi].
    + rewrite nth_upd_same by exact Hi. apply flock_boid_position.
    + rewrite upd_overflow by exact Hi. split; reflexivity.
  - unfold apply_pattern_force.
    destruct (pattern_target m _ w h) as [[tx ty] | ].
    2: { repeat split; reflexivity. }
    destruct (apply_separation_force_shape (upd i (steer tx ty) bs) i
                PATTERN_SEPARATION_WEIGHT) as [f [-> Hf]].
    split; [ now rewrite !length_upd | ].
    split; [ intros j Hj; rewrite !nth_upd_other by congruence;
             reflexivity | ].
    destruct (Nat.lt_ge_cases i (length bs)) as [Hi | Hi].
    + rewrite !nth_upd_same by (rewrite ?length_upd; exact Hi).
      destruct (Hf (steer tx ty (nth i bs boid0))) as [-> ->].
      apply steer_position.
    + rewrite !upd_overflow by (rewrite ?length_upd; exact Hi).
      split; reflexivity.
Qed.

Lemma update_boid_other (m : FlockingMode) (ptime : R) (w h : Z)
  (bs : list Boid) (i j : nat) :
  j <> i -> nth j (update_boid m ptime w h bs i) boid0 = nth j bs boid0.
Proof.
  intros Hj. unfold update_boid.
  rewrite nth_upd_other by congruence.
  now apply (force_phase_shape m ptime w h bs i).
Qed.

Lemma update_boid_length (m : FlockingMode) (ptime : R) (w h : Z)
  (bs : list Boid) (i : nat) :
  length (update_boid m ptime w h bs i) = length bs.
Proof.
  unfold update_boid. rewrite length_upd.
  apply (force_phase_shape m ptime w h bs i).
Qed.

Lemma update_boid_speed (m : FlockingMode) (ptime : R) (w h : Z)
  (bs : list Boid) (i : nat) :
  speed (nth i (update_boid m ptime w h bs i) boid0) <= MAX_SPEED.
Proof.
  unfold update_boid. set (bs1 := if mode_eqb m MODE_NORMAL then _ else _).
  destruct (Nat.lt_ge_cases i (length bs1)) as [Hi | Hi].
  - rewrite nth_upd_same by exact Hi. rewrite speed_integrate_wrap.
    apply limit_speed_bound.
  - rewrite upd_overflow by exact Hi. rewrite nth_overflow by exact Hi.
    rewrite speed_boid0. unfold MAX_SPEED. lra.
Qed.

(** ** The whole tick *)

Lemma fold_update_boid_other (m : FlockingMode) (ptime : R) (w h : Z)
  (l : list nat) (bs : list Boid) (j : nat) :
  ~ In j l ->
  nth j (fold_left (update_boid m ptime w h) l bs) boid0 = nth j bs boid0.
Proof.
  revert bs. induction l as [ | i l IH]; intros bs Hj; simpl.
  - reflexivity.
  - rewrite IH by (intros H; apply Hj; now right).
    apply update_boid_other. intros ->. apply Hj. now left.
Qed.

Lemma fold_update_boid_speed (m : FlockingMode) (ptime : R) (w h : Z)
  (l : list nat) (bs : list Boid) (j : nat) :
  In j l \/ speed (nth j bs boid0) <= MAX_SPEED ->
  speed (nth j (fold_left (update_boid m ptime w h) l bs) boid0)
  <= MAX_SPEED.
Proof.
  revert bs. induction l as [ | i l IH]; intros bs H; simpl.
  - destruct H as [[] | H]. exact H.
  - apply IH. destruct (Nat.eq_dec j i) as [-> | Hne].
    + right. apply update_boid_speed.
    + destruct H as [[H | H] | H].
      * congruence.
      * left. exact H.
      * right. now rewrite update_boid_other.
Qed.

(** ** The speed limit in binary32 and in exact arithmetic *)

(** C1, as stated, fails in the arithmetic of the source: [init_boids] gives
    an agent the velocity (-4, 0.0799999) when [rand()] returns 0 and 51 for
    it; in binary32 the clamp takes this velocity to
    (-16773863 * 2^-22, 10735262 * 2^-27), a vector longer than 4; the speed
    computed from it is 4 + 2^-21, and a second clamp changes it again. *)
Lemma clamp_overshoots_in_binary32 :
  let v0 := (init_velocity_binary32 0, init_velocity_binary32 51) in
  let v := limit_speed_binary32 v0 in
  v0 = (S754_finite true 8388608 (-21), S754_finite false 10737408 (-27))
  /\ v = (S754_finite true 16773863 (-22), S754_finite false 10735262 (-27))
  /\ ((16773863 * 2 ^ 5) * (16773863 * 2 ^ 5) + 10735262 * 10735262
      > 4 * 4 * 2 ^ 54)%Z
  /\ speed_binary32 v = S754_finite false 8388609 (-21)
  /\ SFltb MAX_SPEED_binary32 (speed_binary32 v) = true
  /\ limit_speed_binary32 v <> v.
Proof.
  cbv zeta.
  assert (E0 : (init_velocity_binary32 0, init_velocity_binary32 51)
               = (S754_finite true 8388608 (-21),
                  S754_finite false 10737408 (-27)))
    by (vm_compute; reflexivity).
  rewrite E0.
  assert (E : limit_speed_binary32
                (S754_finite true 8388608 (-21),
                 S754_finite false 10737408 (-27))
              = (S754_finite true 16773863 (-22),
                 S754_finite false 10735262 (-27)))
    by (vm_compute; reflexivity).
  rewrite E.
  split; [ reflexivity | ].
  split; [ reflexivity | ].
  split; [ reflexivity | ].
  split; [ vm_compute; reflexivity | ].
  split; [ vm_compute; reflexivity | ].
  vm_compute. discriminate.
Qed.

(** C1, amended to exact arithmetic: [limit_speed] leaves a velocity of
    magnitude at most [MAX_SPEED], never a larger one than it found; it
    multiplies both components by one factor in (0, 1], which is 1 unless
    the magnitude exceeded [MAX_SPEED]; applied twice it does what it does
    applied once; and after a tick, in every mode, the velocity of every
    agent has magnitude at most [MAX_SPEED = 4]. *)
Theorem speed_is_limited :
  MAX_SPEED = 4
  /\ (forall b : Boid,
         speed (limit_speed b) <= MAX_SPEED
         /\ speed (limit_speed b) <= speed b
         /\ (exists k : R,
                0 < k <= 1
                /\ vx (limit_speed b) = k * vx b
                /\ vy (limit_speed b) = k * vy b
                /\ (speed b <= MAX_SPEED -> k = 1))
         /\ limit_speed (limit_speed b) = limit_speed b)
  /\ (forall (w h : Z) (s : World) (i : nat),
         (i < NUM_BOIDS)%nat ->
         speed (nth i (boids (update_boids w h s)) boid0) <= MAX_SPEED).
Proof.
  split; [ reflexivity | ]. split.
  - intros b.
    split; [ apply limit_speed_bound | ].
    split; [ apply limit_speed_never_faster | ].
    split; [ apply limit_speed_scales | apply limit_speed_idempotent ].
  - intros w h s i Hi. unfold update_boids. cbn [boids].
    apply fold_update_boid_speed. left. apply in_seq. lia.
Qed.

Lemma speed_is_limited_witness :
  speed (nth 0 (boids (update_boids 3 3 leftward_world)) boid0) <= MAX_SPEED.
Proof.
  apply (proj2 (proj2 speed_is_limited) 3%Z 3%Z leftward_world 0%nat).
  unfold NUM_BOIDS. lia.
Defined.

(** ** The toroidal wrap *)

Lemma component_bound (b : Boid) :
  speed b <= MAX_SPEED ->
  - MAX_SPEED <= vx b <= MAX_SPEED /\ - MAX_SPEED <= vy b <= MAX_SPEED.
Proof.
  intros H. pose proof (speed_square b) as Hsq.
  pose proof (speed_nonneg b) as Hs. unfold MAX_SPEED in *.
  assert (H16 : speed b * speed b <= 16) by nra.
  split; split; nra.
Qed.

Lemma in_bounds_position (w h : Z) (a b : Boid) :
  x a = x b -> y a = y b -> in_bounds w h b -> in_bounds w h a.
Proof. unfold in_bounds. intros -> ->. tauto. Qed.

Lemma Forall_nth_boid (P : Boid -> Prop) (bs : list Boid) :
  (forall j, (j < length bs)%nat -> P (nth j bs boid0)) -> Forall P bs.
Proof.
  intros H. apply Forall_forall. intros b Hin.
  destruct (In_nth bs b boid0 Hin) as [j [Hj <-]]. now apply H.
Qed.

(** Splits on the next comparison of the goal, with what it says as a
    hypothesis. *)
Ltac case_Rltb :=
  match goal with
  | |- context [Rltb ?a ?b] =>
      let E := fresh "E" in
      destruct (Rltb a b) eqn:E;
      [ apply Rltb_true in E | apply Rltb_false in E ]
  end.

Section Viewport.

Variables w h : Z.
Hypothesis wide : MAX_SPEED <= IZR w.
Hypothesis high : MAX_SPEED <= IZR h.

(** The single wrap restores the bound of a coordinate that moved by at
    most the size of the viewport. *)
Lemma integrate_wrap_in_bounds (b : Boid) :
  in_bounds w h b ->
  - MAX_SPEED <= vx b <= MAX_SPEED ->
  - MAX_SPEED <= vy b <= MAX_SPEED ->
  in_bounds w h (integrate_wrap w h b).
Proof.
  unfold in_bounds, integrate_wrap, Rgeb. unfold MAX_SPEED in *.
  intros [Hx Hy] Hvx Hvy. cbn [set_position x y].
  split; repeat case_Rltb; simpl; lra.
Qed.

Lemma update_boid_in_bounds (m : FlockingMode) (ptime : R)
  (bs : list Boid) (i : nat) :
  Forall (in_bounds w h) bs ->
  Forall (in_bounds w h) (update_boid m ptime w h bs i).
Proof.
  intros Hall.
  pose proof (force_phase_shape m ptime w h bs i) as Hshape.
  cbv zeta in Hshape. unfold update_boid.
  set (bs1 := if mode_eqb m MODE_NORMAL then _ else _) in *.
  destruct Hshape as (Hlen & Hother & Hx & Hy).
  assert (Hnth : forall j, (j < length bs)%nat ->
                           in_bounds w h (nth j bs1 boid0)).
  { intros j Hj.
    assert (Hb : in_bounds w h (nth j bs boid0)).
    { rewrite Forall_forall in Hall. apply Hall. now apply nth_In. }
    destruct (Nat.eq_dec j i) as [-> | Hne].
    - now apply (in_bounds_position w h _ (nth i bs boid0)).
    - now rewrite Hother. }
  apply Forall_upd with (d := boid0).
  - apply Forall_nth_boid. intros j Hj. apply Hnth. now rewrite <- Hlen.
  - intros Hi. rewrite Hlen in Hi.
    destruct (limit_speed_position (nth i bs1 boid0)) as [Elx Ely].
    destruct (component_bound (limit_speed (nth i bs1 boid0))
                (limit_speed_bound _)) as [Hvx Hvy].
    apply integrate_wrap_in_bounds; try assumption.
    apply (in_bounds_position w h _ (nth i bs1 boid0)); auto.
Qed.

Lemma fold_update_boid_in_bounds (m : FlockingMode) (ptime : R)
  (l : list nat) (bs : list Boid) :
  Forall (in_bounds w h) bs ->
  Forall (in_bounds w h) (fold_left (update_boid m ptime w h) l bs).
Proof.
  revert bs. induction l as [ | i l IH]; intros bs Hall; simpl.
  - exact Hall.
  - apply IH. now apply update_boid_in_bounds.
Qed.

(** C2, amended: in a viewport at least [MAX_SPEED] wide and high, the
    single wrap puts an agent that was in bounds and moves by at most
    [MAX_SPEED] along each axis back in bounds, and a tick of [update_boids]
    that starts with every agent in bounds ends with every agent in
    bounds. *)
Theorem positions_stay_in_bounds (s : World) :
  (forall b : Boid,
      in_bounds w h b ->
      - MAX_SPEED <= vx b <= MAX_SPEED ->
      - MAX_SPEED <= vy b <= MAX_SPEED ->
      in_bounds w h (integrate_wrap w h b))
  /\ (Forall (in_bounds w h) (boids s) ->
      Forall (in_bounds w h) (boids (update_boids w h s))).
Proof.
  split.
  - exact integrate_wrap_in_bounds.
  - intros Hall. unfold update_boids. cbn [boids].
    now apply fold_update_boid_in_bounds.
Qed.

End Viewport.

(** ** A viewport narrower than [MAX_SPEED] *)

Lemma nth_map_seq (f : nat -> Boid) (n j : nat) :
  (j < n)%nat -> nth j (map f (seq 0 n)) boid0 = f j.
Proof.
  intros Hj. rewrite (nth_indep _ boid0 (f 0%nat))
    by (now rewrite length_map, length_seq).
  rewrite map_nth. now rewrite seq_nth.
Qed.

Lemma leftward_boids_nth (j : nat) :
  (j < NUM_BOIDS)%nat ->
  nth j leftward_boids boid0 = mkBoid 0 0 (-4) 0 0 0 (Z.of_nat j).
Proof. intros Hj. unfold leftward_boids. now rewrite nth_map_seq. Qed.

Lemma leftward_boids_position (j : nat) :
  x (nth j leftward_boids boid0) = 0 /\ y (nth j leftward_boids boid0) = 0.
Proof.
  destruct (Nat.lt_ge_cases j NUM_BOIDS) as [Hj | Hj].
  - rewrite leftward_boids_nth by exact Hj. split; reflexivity.
  - rewrite nth_overflow; [ split; reflexivity | ].
    unfold leftward_boids. now rewrite length_map, length_seq.
Qed.

Lemma leftward_boids_all (P : Boid -> Prop) :
  (forall j, P (mkBoid 0 0 (-4) 0 0 0 (Z.of_nat j))) ->
  Forall P leftward_boids.
Proof.
  intros H. unfold leftward_boids. apply Forall_forall. intros b Hin.
  apply in_map_iff in Hin. destruct Hin as [j [<- _]]. apply H.
Qed.

(** Agents at one place are no neighbours of each other. *)
Lemma no_neighbors_at_one_place (bs : list Boid) (i : nat) (l : list nat) :
  (forall j, x (nth j bs boid0) = x (nth i bs boid0)
             /\ y (nth j bs boid0) = y (nth i bs boid0)) ->
  spec_neighbors_among bs i l = [].
Proof.
  intros Hsame. unfold spec_neighbors_among.
  induction l as [ | j l IH]; [ reflexivity | ].
  cbn [filter].
  assert (E : is_spec_neighbor bs i j = false).
  { unfold is_spec_neighbor, distance. destruct (Hsame j) as [-> ->].
    replace ((x (nth i bs boid0) - x (nth i bs boid0))
             * (x (nth i bs boid0) - x (nth i bs boid0))
             + (y (nth i bs boid0) - y (nth i bs boid0))
               * (y (nth i bs boid0) - y (nth i bs boid0)))
      with 0 by ring.
    rewrite sqrt_0, Rltb_irrefl. now rewrite andb_false_r. }
  rewrite E. exact IH.
Qed.

Lemma leftward_speed (j : nat) :
  speed (mkBoid 0 0 (-4) 0 0 0 (Z.of_nat j)) = 4.
Proof.
  unfold speed. cbn [vx vy]. apply sqrt_lem_1; lra.
Qed.

Lemma leftward_boids_length : length leftward_boids = NUM_BOIDS.
Proof. unfold leftward_boids. now rewrite length_map, length_seq. Qed.

Lemma leftward_boids_alone (i : nat) : spec_neighbors leftward_boids i = [].
Proof.
  unfold spec_neighbors. apply no_neighbors_at_one_place. intros j.
  destruct (leftward_boids_position j) as [-> ->].
  destruct (leftward_boids_position i) as [-> ->]. split; reflexivity.
Qed.

Lemma integrate_wrap_leftward (j : nat) :
  integrate_wrap 3 3 (mkBoid 0 0 (-4) 0 0 0 (Z.of_nat j))
  = mkBoid (0 + -4 + 3) (0 + 0) (-4) 0 0 0 (Z.of_nat j).
Proof.
  unfold integrate_wrap, Rgeb. cbn [x y vx vy set_position target_x target_y
                                     index].
  assert (E1 : Rltb (0 + -4) 0 = true) by (apply Rltb_true; lra).
  assert (E2 : Rltb (0 + -4 + 3) 3 = true) by (apply Rltb_true; lra).
  assert (E3 : Rltb (0 + 0) 0 = false) by (apply Rltb_false; lra).
  assert (E4 : Rltb (0 + 0) 3 = true) by (apply Rltb_true; lra).
  rewrite E1, E2, E3, E4. reflexivity.
Qed.

(** The first iteration of the tick on the agents moving left, in a
    viewport 3 wide. *)
Lemma leftward_first_step :
  nth 0 (update_boid MODE_NORMAL 0 3 3 leftward_boids 0) boid0
  = mkBoid (0 + -4 + 3) (0 + 0) (-4) 0 0 0 0.
Proof.
  assert (H0 : (0 < NUM_BOIDS)%nat) by (unfold NUM_BOIDS; lia).
  rewrite update_boid_normal.
  rewrite nth_upd_same by (now rewrite length_upd, leftward_boids_length).
  rewrite nth_upd_same by (now rewrite leftward_boids_length).
  rewrite flock_boid_alone by apply leftward_boids_alone.
  rewrite leftward_boids_nth by exact H0.
  rewrite limit_speed_under
    by (rewrite leftward_speed; unfold MAX_SPEED; lra).
  apply (integrate_wrap_leftward 0).
Qed.

Lemma seq_NUM_BOIDS : seq 0 NUM_BOIDS = 0%nat :: seq 1 (pred NUM_BOIDS).
Proof. reflexivity. Qed.

Lemma update_boids_first (w h : Z) (s : World) :
  nth 0 (boids (update_boids w h s)) boid0
  = nth 0 (update_boid (current_mode s) (pattern_time s) w h (boids s) 0)
        boid0.
Proof.
  unfold update_boids. cbn [boids]. rewrite seq_NUM_BOIDS.
  generalize (pred NUM_BOIDS). intros n. cbn [fold_left].
  apply fold_update_boid_other. rewrite in_seq.
  intros [H _]. exact (Nat.nle_succ_0 0 H).
Qed.

Lemma init_boids_from_leftward (n i : nat) :
  init_boids_from 3 3 n i (leftward_tape n)
  = Some (map (fun k => mkBoid 0 0 (-4) 0 0 0 (Z.of_nat k)) (seq i n), []).
Proof.
  revert i. induction n as [ | n IH]; intros i.
  - reflexivity.
  - unfold leftward_tape. cbn [repeat concat app init_boids_from].
    fold (leftward_tape n). rewrite IH. cbn [seq map].
    change (Z.rem 0 3) with 0%Z. change (Z.rem 0 100) with 0%Z.
    change (Z.rem 50 100) with 50%Z.
    replace ((0 / 50 - 1) * MAX_SPEED) with (-4) by (unfold MAX_SPEED; lra).
    replace ((50 / 50 - 1) * MAX_SPEED) with 0 by (unfold MAX_SPEED; lra).
    reflexivity.
Qed.

(** The agents moving left are what [main] starts with in a window 3 by 3
    when [rand()] returns the numbers of [leftward_tape]. *)
Lemma leftward_world_initial :
  initial_main false 0 3 3 (leftward_tape NUM_BOIDS)
  = Some (mkMain leftward_world 3 3).
Proof.
  unfold initial_main, init_boids. now rewrite init_boids_from_leftward.
Qed.

(** C2, as stated, fails: in a viewport 3 wide, from the initial state of
    the agents moving left, with every agent in bounds and no faster than
    [MAX_SPEED], the tick leaves agent 0 at [x = -1]. *)
Lemma narrow_viewport_escapes :
  initial_main false 0 3 3 (leftward_tape NUM_BOIDS)
  = Some (mkMain leftward_world 3 3)
  /\ Forall (in_bounds 3 3) (boids leftward_world)
  /\ Forall (fun b => speed b <= MAX_SPEED) (boids leftward_world)
  /\ x (nth 0 (boids (update_boids 3 3 leftward_world)) boid0) = -1
  /\ ~ in_bounds 3 3 (nth 0 (boids (update_boids 3 3 leftward_world)) boid0).
Proof.
  assert (Ex : x (nth 0 (boids (update_boids 3 3 leftward_world)) boid0)
               = -1).
  { rewrite update_boids_first.
    change (update_boid (current_mode leftward_world)
              (pattern_time leftward_world) 3 3 (boids leftward_world) 0)
      with (update_boid MODE_NORMAL 0 3 3 leftward_boids 0).
    rewrite leftward_first_step. cbn [x]. lra. }
  split; [ exact leftward_world_initial | ].
  split.
  { apply leftward_boids_all. intros j. unfold in_bounds. simpl. lra. }
  split.
  { apply leftward_boids_all. intros j. rewrite leftward_speed.
    unfold MAX_SPEED. lra. }
  split; [ exact Ex | ].
  unfold in_bounds. rewrite Ex. lra.
Qed.

Lemma positions_stay_in_bounds_witness :
  Forall (in_bounds 800 600) (boids (update_boids 800 600 leftward_world)).
Proof.
  apply (proj2 (positions_stay_in_bounds 800 600
                  ltac:(unfold MAX_SPEED; lra) ltac:(unfold MAX_SPEED; lra)
                  leftward_world)).
  apply leftward_boids_all. intros j. unfold in_bounds. simpl. lra.
Defined.

(** ** The length of the array *)

Lemma fold_update_boid_length (m : FlockingMode) (ptime : R) (w h : Z)
  (l : list nat) (bs : list Boid) :
  length (fold_left (update_boid m ptime w h) l bs) = length bs.
Proof.
  revert bs. induction l as [ | i l IH]; intros bs; simpl.
  - reflexivity.
  - rewrite IH. apply update_boid_length.
Qed.

Lemma update_boids_length (w h : Z) (s : World) :
  length (boids (update_boids w h s)) = length (boids s).
Proof. unfold update_boids. cbn [boids]. apply fold_update_boid_length. Qed.

(** ** The agents [init_boids] creates *)

Lemma init_boids_from_spec (w h : Z) (n i : nat) (tape rest : list Z)
  (bs : list Boid) :
  (0 < w)%Z -> (0 < h)%Z ->
  rand_range tape ->
  init_boids_from w h n i tape = Some (bs, rest) ->
  Forall (in_bounds w h) bs
  /\ (forall j, (j < n)%nat -> index (nth j bs boid0) = Z.of_nat (i + j)).
Proof.
  intros Hw Hh. unfold rand_range. revert i tape bs.
  induction n as [ | n IH]; intros i tape bs Hr; simpl.
  - intros [= <- <-]. split; [ constructor | intros j Hj; lia ].
  - destruct tape as [ | r1 [ | r2 [ | r3 [ | r4 tape]]]]; try discriminate.
    destruct (init_boids_from w h n (S i) tape) as [[bs' rest'] | ] eqn:E;
      [ | discriminate ].
    intros [= <- <-].
    inversion Hr as [ | ? ? H1 Hr1]; subst.
    inversion Hr1 as [ | ? ? H2 Hr2]; subst.
    inversion Hr2 as [ | ? ? H3 Hr3]; subst.
    inversion Hr3 as [ | ? ? H4 Hr4]; subst.
    destruct (IH (S i) tape bs' Hr4 E) as [Hb Hi].
    split.
    + constructor; [ | exact Hb ].
      unfold in_bounds. cbn [x y].
      assert (B1 : (0 <= Z.rem r1 w < w)%Z) by (apply Z.rem_bound_pos; lia).
      assert (B2 : (0 <= Z.rem r2 h < h)%Z) by (apply Z.rem_bound_pos; lia).
      split; split;
        first [ apply (IZR_le 0); lia | apply IZR_lt; lia ].
    + intros [ | j] Hj; cbn [nth index].
      * f_equal. lia.
      * rewrite Hi by lia. f_equal. lia.
Qed.

(** ** A whole run *)

Lemma handle_event_boids (m : Main) (e : XEvent) :
  boids (world (handle_event m e)) = boids (world m).
Proof.
  destruct e as [nw nh | key | ]; simpl; try reflexivity.
  destruct (negb (auto_mode (world m))); [ | reflexivity ].
  simpl. unfold handle_key, toggle.
  destruct (key_pattern key); [ reflexivity | ].
  destruct ((key =? XK_n)%Z || (key =? XK_N)%Z); reflexivity.
Qed.

Lemma handle_events_view (events : list XEvent) (m : Main) :
  forallb (fun e => negb (is_resize e)) events = true ->
  boids (world (fold_left handle_event events m)) = boids (world m)
  /\ width (fold_left handle_event events m) = width m
  /\ height (fold_left handle_event events m) = height m.
Proof.
  revert m. induction events as [ | e events IH]; intros m Hno.
  - repeat split.
  - cbn [forallb] in Hno. apply andb_true_iff in Hno. destruct Hno as [He Hno].
    cbn [fold_left]. destruct (IH (handle_event m e) Hno) as (-> & -> & ->).
    split; [ apply handle_event_boids | ].
    destruct e as [nw nh | key | ]; try discriminate He; simpl;
      try (split; reflexivity).
    destruct (negb (auto_mode (world m))); split; reflexivity.
Qed.

Lemma check_auto_mode_timing_boids (now : Z) (s s' : World) :
  check_auto_mode_timing now s = Some s' -> boids s' = boids s.
Proof.
  unfold check_auto_mode_timing.
  destruct (negb (auto_mode s)); [ now intros [= <-] | ].
  destruct (_ && _).
  - destruct (get_next_pattern_mode s) as [[k s1] | ] eqn:E; [ | discriminate ].
    intros [= <-]. simpl. now apply get_next_pattern_mode_fields in E.
  - destruct (_ && _); intros [= <-]; reflexivity.
Qed.

Lemma update_boids_speed_nth (w h : Z) (s : World) (j : nat) :
  (j < NUM_BOIDS)%nat ->
  speed (nth j (boids (update_boids w h s)) boid0) <= MAX_SPEED.
Proof.
  intros Hj. unfold update_boids. cbn [boids].
  apply fold_update_boid_speed. left. apply in_seq. lia.
Qed.

Lemma update_boids_speed (w h : Z) (s : World) :
  length (boids s) = NUM_BOIDS ->
  Forall (fun b => speed b <= MAX_SPEED) (boids (update_boids w h s)).
Proof.
  intros Hlen. apply Forall_nth_boid. intros j Hj.
  rewrite update_boids_length, Hlen in Hj.
  now apply update_boids_speed_nth.
Qed.

Section View.

Variables w h : Z.
Hypothesis wide : MAX_SPEED <= IZR w.
Hypothesis high : MAX_SPEED <= IZR h.

Lemma frame_in_view (m m' : Main) (input : list XEvent * Z) :
  forallb (fun e => negb (is_resize e)) (fst input) = true ->
  in_view w h m ->
  frame m input = Some m' ->
  in_view w h m'
  /\ Forall (fun b => speed b <= MAX_SPEED) (boids (world m')).
Proof.
  destruct input as [events now]. cbn [fst].
  intros Hno (Hw & Hh & Hlen & Hin). unfold frame.
  destruct (handle_events_view events m Hno) as (Eb & Ew & Eh).
  destruct (check_auto_mode_timing now _) as [s | ] eqn:Ec; [ | discriminate ].
  apply check_auto_mode_timing_boids in Ec. rewrite Eb in Ec.
  intros [= <-]. unfold in_view. cbn [world width height].
  rewrite Ew, Eh, Hw, Hh.
  split; [ split; [ reflexivity | split; [ reflexivity | split ] ] | ].
  - now rewrite update_boids_length, Ec.
  - unfold update_boids. cbn [boids].
    apply fold_update_boid_in_bounds; try assumption. now rewrite Ec.
  - apply update_boids_speed. now rewrite Ec.
Qed.


Lemma run_in_view (inputs : list (list XEvent * Z)) (m m' : Main) :
  no_resize inputs ->
  in_view w h m ->
  run m inputs = Some m' ->
  in_view w h m'
  /\ (inputs <> [] ->
      Forall (fun b => speed b <= MAX_SPEED) (boids (world m'))).
Proof.
  unfold no_resize. revert m.
  induction inputs as [ | input inputs IH]; intros m Hno Hin.
  - intros [= <-]. split; [ exact Hin | congruence ].
  - inversion Hno as [ | ? ? Hi Hrest]; subst. cbn [run].
    destruct (frame m input) as [m1 | ] eqn:Ef; [ | discriminate ].
    destruct (frame_in_view m m1 input Hi Hin Ef) as [Hin1 Hs1].
    intros Er. destruct (IH m1 Hrest Hin1 Er) as [Hin' Hs'].
    split; [ exact Hin' | ]. intros _.
    destruct inputs as [ | input' inputs'].
    + injection Er as <-. exact Hs1.
    + apply Hs'. discriminate.
Qed.

(** X2, end to end: a run that starts with [init_boids] in a viewport at least
    [MAX_SPEED] wide and high, and sees no resize, has its [NUM_BOIDS] agents
    in bounds after every frame, none faster than [MAX_SPEED]. *)
Theorem run_keeps_agents_in_view (auto : bool) (start : Z) (tape : list Z)
  (inputs : list (list XEvent * Z)) (m0 m : Main) :
  rand_range tape ->
  initial_main auto start w h tape = Some m0 ->
  no_resize inputs ->
  run m0 inputs = Some m ->
  length (boids (world m)) = NUM_BOIDS
  /\ Forall (in_bounds w h) (boids (world m))
  /\ (inputs <> [] ->
      Forall (fun b => speed b <= MAX_SPEED) (boids (world m))).
Proof.
  intros Hr E0 Hno Er.
  assert (Hin0 : in_view w h m0).
  { unfold initial_main, init_boids in E0.
    destruct (init_boids_from w h NUM_BOIDS 0 tape) as [[bs rest] | ] eqn:E;
      [ | discriminate ].
    injection E0 as <-. unfold in_view. cbn [world width height boids].
    destruct (init_boids_from_tape _ _ _ _ _ _ _ Hr E) as [_ Hlen].
    assert (Hw : (0 < w)%Z).
    { apply lt_IZR. unfold MAX_SPEED in wide. lra. }
    assert (Hh : (0 < h)%Z).
    { apply lt_IZR. unfold MAX_SPEED in high. lra. }
    destruct (init_boids_from_spec _ _ _ _ _ _ _ Hw Hh Hr E) as [Hb _].
    repeat split; assumption. }
  destruct (run_in_view inputs m0 m Hno Hin0 Er) as [(_ & _ & Hlen & Hb) Hs].
  repeat split; assumption.
Qed.

End View.

(** [init_boids] succeeds on a tape of four numbers per agent. *)
Lemma init_boids_from_total (w h : Z) (n i : nat) (tape : list Z) :
  (4 * n <= length tape)%nat ->
  exists bs rest, init_boids_from w h n i tape = Some (bs, rest).
Proof.
  revert i tape. induction n as [ | n IH]; intros i tape Hlen; simpl.
  - eauto.
  - destruct tape as [ | r1 [ | r2 [ | r3 [ | r4 tape]]]];
      simpl in Hlen; try lia.
    destruct (IH (S i) tape) as [bs [rest E]]; [ lia | ].
    rewrite E. eauto.
Qed.

Lemma run_keeps_agents_in_view_witness :
  exists m0 m : Main,
    initial_main false 0 800 600 (repeat 7%Z (4 * NUM_BOIDS)) = Some m0
    /\ run m0 [([KeyPress XK_l; OtherEvent], 1%Z)] = Some m
    /\ Forall (in_bounds 800 600) (boids (world m)).
Proof.
  destruct (init_boids_from_total 800 600 NUM_BOIDS 0
              (repeat 7%Z (4 * NUM_BOIDS)))
    as [bs [rest E]]; [ now rewrite repeat_length | ].
  assert (E0 : initial_main false 0 800 600 (repeat 7%Z (4 * NUM_BOIDS))
               = Some (mkMain (mkWorld bs MODE_NORMAL 0 false 0
                                       MODE_LISSAJOUS rest) 800 600)).
  { unfold initial_main, init_boids. now rewrite E. }
  eexists. eexists. split; [ exact E0 | ]. split; [ reflexivity | ].
  refine (proj1 (proj2 (run_keeps_agents_in_view 800 600 _ _ false 0%Z
                          (repeat 7%Z (4 * NUM_BOIDS))
                          [([KeyPress XK_l; OtherEvent], 1%Z)] _ _ _ E0 _
                          eq_refl))).
  - unfold MAX_SPEED. lra.
  - unfold MAX_SPEED. lra.
  - unfold rand_range. apply Forall_forall. intros r Hin.
    apply repeat_spec in Hin. subst r. unfold RAND_MAX. lia.
  - repeat constructor.
Defined.

(** * Further properties of the code *)

(** ** What the tick never writes *)

Lemma map_upd {A B : Type} (g : A -> B) (i : nat) (f : A -> A) (l : list A)
  (d : A) :
  ((i < length l)%nat -> g (f (nth i l d)) = g (nth i l d)) ->
  map g (upd i f l) = map g l.
Proof.
  revert i. induction l as [ | a l IH]; intros i H.
  - destruct i; reflexivity.
  - destruct i as [ | i]; simpl.
    + f_equal. apply H. simpl. lia.
    + f_equal. apply IH. intros Hi. apply H. simpl. lia.
Qed.

Lemma flock_boid_identity (bs : list Boid) (i : nat) :
  identity (flock_boid bs i) = identity (nth i bs boid0).
Proof. unfold flock_boid. destruct (_ >? _)%Z; reflexivity. Qed.

Lemma steer_identity (tx ty : R) (b : Boid) :
  identity (steer tx ty b) = identity b.
Proof. unfold steer. destruct (Rgtb _ _); reflexivity. Qed.

Lemma limit_speed_identity (b : Boid) : identity (limit_speed b) = identity b.
Proof. unfold limit_speed. destruct (Rgtb _ _); reflexivity. Qed.

Lemma apply_separation_force_identity (bs : list Boid) (i : nat) (weight : R) :
  map identity (apply_separation_force bs i weight) = map identity bs.
Proof.
  unfold apply_separation_force.
  destruct (fold_left _ _ _) as [[ax ay] c].
  destruct (c >? 0)%Z; [ | reflexivity ].
  apply map_upd with (d := boid0). reflexivity.
Qed.

Lemma update_boid_identity (m : FlockingMode) (ptime : R) (w h : Z)
  (bs : list Boid) (i : nat) :
  map identity (update_boid m ptime w h bs i) = map identity bs.
Proof.
  unfold update_boid.
  rewrite map_upd with (d := boid0)
    by (intros _; unfold integrate_wrap, identity; cbn [set_position index
          target_x target_y]; apply limit_speed_identity).
  destruct (mode_eqb m MODE_NORMAL).
  - apply map_upd with (d := boid0). intros _. apply flock_boid_identity.
  - unfold apply_pattern_force.
    destruct (pattern_target m _ w h) as [[tx ty] | ]; [ | reflexivity ].
    rewrite apply_separation_force_identity.
    apply map_upd with (d := boid0). intros _. apply steer_identity.
Qed.

Lemma update_boids_identity (w h : Z) (s : World) :
  map identity (boids (update_boids w h s)) = map identity (boids s).
Proof.
  unfold update_boids. cbn [boids].
  generalize (seq 0 NUM_BOIDS). intros l. generalize (boids s). 
  induction l as [ | i l IH]; intros bs; simpl.
  - reflexivity.
  - rewrite IH. apply update_boid_identity.
Qed.

Lemma frame_identity (m m' : Main) (input : list XEvent * Z) :
  frame m input = Some m' ->
  map identity (boids (world m')) = map identity (boids (world m)).
Proof.
  destruct input as [events now]. unfold frame.
  destruct (check_auto_mode_timing now _) as [s | ] eqn:Ec; [ | discriminate ].
  apply check_auto_mode_timing_boids in Ec.
  intros [= <-]. cbn [world]. rewrite update_boids_identity, Ec.
  clear Ec. generalize m. induction events as [ | e events IH]; intros m1.
  - reflexivity.
  - cbn [fold_left]. rewrite IH. now rewrite handle_event_boids.
Qed.

Lemma run_identity (inputs : list (list XEvent * Z)) (m m' : Main) :
  run m inputs = Some m' ->
  map identity (boids (world m')) = map identity (boids (world m)).
Proof.
  revert m. induction inputs as [ | input inputs IH]; intros m; cbn [run].
  - now intros [= <-].
  - destruct (frame m input) as [m1 | ] eqn:Ef; [ | discriminate ].
    intros Er. rewrite (IH m1 Er). exact (frame_identity m m1 input Ef).
Qed.

Lemma init_boids_from_identity (w h : Z) (n i : nat) (tape rest : list Z)
  (bs : list Boid) :
  init_boids_from w h n i tape = Some (bs, rest) ->
  forall j, (j < n)%nat ->
            identity (nth j bs boid0)
            = (Z.of_nat (i + j), x (nth j bs boid0), y (nth j bs boid0)).
Proof.
  revert i tape bs. induction n as [ | n IH]; intros i tape bs; simpl.
  - intros _ j Hj. lia.
  - destruct tape as [ | r1 [ | r2 [ | r3 [ | r4 tape]]]]; try discriminate.
    destruct (init_boids_from w h n (S i) tape) as [[bs' rest'] | ] eqn:E;
      [ | discriminate ].
    intros [= <- <-] [ | j] Hj; cbn [nth].
    + unfold identity. cbn [index target_x target_y x y].
      now rewrite Nat.add_0_r.
    + rewrite (IH (S i) tape bs' E j) by lia.
      now rewrite Nat.add_succ_r.
Qed.

Lemma nth_identity (bs bs' : list Boid) (j : nat) :
  map identity bs' = map identity bs ->
  identity (nth j bs' boid0) = identity (nth j bs boid0).
Proof.
  intros E.
  transitivity (nth j (map identity bs') (identity boid0)).
  - symmetry. apply map_nth.
  - rewrite E. apply map_nth.
Qed.

(** X3: the index and the target fields of an agent are those [init_boids]
    gave it, after every frame of every run: agent [j] has index [j], and
    its target is the place it was created at. *)
Theorem agents_keep_identity (auto : bool) (start w h : Z) (tape : list Z)
  (inputs : list (list XEvent * Z)) (m0 m : Main) (j : nat) :
  initial_main auto start w h tape = Some m0 ->
  run m0 inputs = Some m ->
  (j < NUM_BOIDS)%nat ->
  index (nth j (boids (world m)) boid0) = Z.of_nat j
  /\ target_x (nth j (boids (world m)) boid0)
     = x (nth j (boids (world m0)) boid0)
  /\ target_y (nth j (boids (world m)) boid0)
     = y (nth j (boids (world m0)) boid0).
Proof.
  intros E0 Er Hj.
  pose proof (nth_identity _ _ j (run_identity inputs m0 m Er)) as Ei.
  unfold initial_main, init_boids in E0.
  destruct (init_boids_from w h NUM_BOIDS 0 tape) as [[bs rest] | ] eqn:E;
    [ | discriminate ].
  injection E0 as <-. cbn [world boids] in *.
  rewrite (init_boids_from_identity _ _ _ _ _ _ _ E j Hj) in Ei.
  unfold identity in Ei. injection Ei as E1 E2 E3.
  repeat split; assumption.
Qed.

Lemma agents_keep_identity_witness :
  exists m0 m : Main,
    initial_main false 0 800 600 (repeat 7%Z (4 * NUM_BOIDS)) = Some m0
    /\ run m0 [([KeyPress XK_r], 1%Z); ([], 1%Z)] = Some m
    /\ index (nth 3 (boids (world m)) boid0) = 3%Z.
Proof.
  destruct (init_boids_from_total 800 600 NUM_BOIDS 0
              (repeat 7%Z (4 * NUM_BOIDS)))
    as [bs [rest E]]; [ now rewrite repeat_length | ].
  assert (E0 : initial_main false 0 800 600 (repeat 7%Z (4 * NUM_BOIDS))
               = Some (mkMain (mkWorld bs MODE_NORMAL 0 false 0
                                       MODE_LISSAJOUS rest) 800 600)).
  { unfold initial_main, init_boids. now rewrite E. }
  eexists. eexists. split; [ exact E0 | ]. split; [ reflexivity | ].
  refine (proj1 (agents_keep_identity false 0%Z 800 600
                   (repeat 7%Z (4 * NUM_BOIDS))
                   [([KeyPress XK_r], 1%Z); ([], 1%Z)] _ _ 3 E0 eq_refl _)).
  unfold NUM_BOIDS. lia.
Defined.

(** ** Manual mode *)

Lemma handle_key_scheduler (key : Z) (s : World) :
  scheduler (handle_key key s) = scheduler s.
Proof.
  unfold handle_key, toggle.
  destruct (key_pattern key); [ reflexivity | ].
  destruct ((key =? XK_n)%Z || (key =? XK_N)%Z); reflexivity.
Qed.

Lemma handle_events_scheduler (events : list XEvent) (m : Main) :
  scheduler (world (fold_left handle_event events m)) = scheduler (world m).
Proof.
  revert m. induction events as [ | e events IH]; intros m; cbn [fold_left].
  - reflexivity.
  - rewrite IH. destruct e as [nw nh | key | ]; cbn [handle_event world];
      try reflexivity.
    destruct (negb (auto_mode (world m))); [ | reflexivity ].
    apply handle_key_scheduler.
Qed.

Lemma frame_manual (m : Main) (events : list XEvent) (now : Z) :
  auto_mode (world m) = false ->
  frame m (events, now)
  = Some (mkMain (update_boids (width (fold_left handle_event events m))
                               (height (fold_left handle_event events m))
                               (world (fold_left handle_event events m)))
                 (width (fold_left handle_event events m))
                 (height (fold_left handle_event events m))).
Proof.
  intros Hauto. unfold frame, check_auto_mode_timing.
  now rewrite handle_events_auto_mode, Hauto.
Qed.

(** X4: without [--auto] the loop of [main] never stops for want of a random
    number and never writes the scheduler: the auto flag stays off, and the
    transition time, the remembered pattern and the state of [rand()] stay as
    they were, whatever the events and the clock. *)
Theorem manual_run_leaves_scheduler (m : Main)
  (inputs : list (list XEvent * Z)) :
  auto_mode (world m) = false ->
  exists m', run m inputs = Some m'
             /\ auto_mode (world m') = false
             /\ last_mode_change (world m') = last_mode_change (world m)
             /\ last_pattern_mode (world m') = last_pattern_mode (world m)
             /\ rand_tape (world m') = rand_tape (world m).
Proof.
  revert m. induction inputs as [ | [events now] inputs IH]; intros m Hauto.
  - exists m. repeat split; assumption.
  - cbn [run]. rewrite (frame_manual m events now Hauto).
    pose proof (handle_events_scheduler events m) as Es.
    unfold scheduler in Es. injection Es as Ea El Ep Et.
    destruct (IH (mkMain (update_boids
                            (width (fold_left handle_event events m))
                            (height (fold_left handle_event events m))
                            (world (fold_left handle_event events m)))
                         (width (fold_left handle_event events m))
                         (height (fold_left handle_event events m))))
      as [m' (Er & Ha' & Hl' & Hp' & Ht')].
    + cbn [world update_boids auto_mode]. now rewrite Ea.
    + exists m'. split; [ exact Er | ]. split; [ exact Ha' | ].
      cbn [world update_boids last_mode_change last_pattern_mode rand_tape]
        in Hl', Hp', Ht'.
      rewrite Hl', Hp', Ht', El, Ep, Et. repeat split.
Qed.

Lemma manual_run_leaves_scheduler_witness :
  exists m', run lissajous_main
               [([KeyPress XK_r; ConfigureNotify 640 480], 5%Z);
                ([KeyPress XK_n], 2147483650%Z)] = Some m'
             /\ rand_tape (world m') = [].
Proof.
  destruct (manual_run_leaves_scheduler lissajous_main
              [([KeyPress XK_r; ConfigureNotify 640 480], 5%Z);
               ([KeyPress XK_n], 2147483650%Z)] eq_refl)
    as [m' (Er & _ & _ & _ & Et)].
  exists m'. split; [ exact Er | exact Et ].
Defined.

Lemma handle_events_no_key (events : list XEvent) (m : Main) :
  forallb (fun e => negb (is_key_press e)) events = true ->
  world (fold_left handle_event events m) = world m.
Proof.
  revert m. induction events as [ | e events IH]; intros m Hno.
  - reflexivity.
  - cbn [forallb] in Hno. apply andb_true_iff in Hno. destruct Hno as [He Hno].
    cbn [fold_left]. rewrite (IH _ Hno).
    destruct e as [nw nh | key | ]; try discriminate He; reflexivity.
Qed.

(** X5: the Pattern Clock.  In manual mode, over [n] frames without a key
    press, the mode stays and [pattern_time] advances by [n * 0.01] in a
    pattern mode and not at all in [MODE_NORMAL]. *)
Theorem pattern_clock_advances (m : Main) (inputs : list (list XEvent * Z)) :
  auto_mode (world m) = false ->
  no_key_press inputs ->
  exists m', run m inputs = Some m'
             /\ current_mode (world m') = current_mode (world m)
             /\ pattern_time (world m')
                = pattern_time (world m)
                  + (if is_pattern (current_mode (world m))
                     then INR (length inputs) * 0.01 else 0).
Proof.
  unfold no_key_press. revert m.
  induction inputs as [ | [events now] inputs IH]; intros m Hauto Hno.
  - exists m. split; [ reflexivity | ]. split; [ reflexivity | ].
    cbn [length INR]. destruct (is_pattern _); lra.
  - inversion Hno as [ | ? ? He Hrest]; subst. cbn [fst] in He.
    cbn [run]. rewrite (frame_manual m events now Hauto).
    pose proof (handle_events_no_key events m He) as Ew.
    destruct (IH (mkMain (update_boids
                            (width (fold_left handle_event events m))
                            (height (fold_left handle_event events m))
                            (world (fold_left handle_event events m)))
                         (width (fold_left handle_event events m))
                         (height (fold_left handle_event events m))))
      as [m' (Er & Hm' & Hp')].
    + cbn [world update_boids auto_mode]. now rewrite Ew.
    + exact Hrest.
    + exists m'. split; [ exact Er | ].
      cbn [world update_boids current_mode pattern_time] in Hm', Hp'.
      rewrite Ew in Hm', Hp'. split; [ exact Hm' | ].
      rewrite Hp'. change (length ((events, now) :: inputs))
        with (S (length inputs)). rewrite S_INR.
      unfold is_pattern.
      destruct (mode_eqb (current_mode (world m)) MODE_NORMAL);
        cbn [negb]; lra.
Qed.

Lemma pattern_clock_advances_witness :
  exists m', run lissajous_main
               [([], 0%Z); ([OtherEvent], 0%Z); ([ConfigureNotify 3 3], 1%Z)]
             = Some m'
             /\ pattern_time (world m') = 0.03.
Proof.
  destruct (pattern_clock_advances lissajous_main
              [([], 0%Z); ([OtherEvent], 0%Z); ([ConfigureNotify 3 3], 1%Z)]
              eq_refl)
    as [m' (Er & _ & Ep)].
  - repeat constructor.
  - exists m'. split; [ exact Er | ]. rewrite Ep. simpl. lra.
Defined.

(** ** The curve parameter *)

Lemma handle_event_pattern_time (m : Main) (e : XEvent) :
  0 <= pattern_time (world m) ->
  0 <= pattern_time (world (handle_event m e)).
Proof.
  intros H. destruct e as [nw nh | key | ]; cbn [handle_event world];
    try exact H.
  destruct (negb (auto_mode (world m))); [ cbn [world] | exact H ].
  unfold handle_key, toggle.
  destruct (key_pattern key); [ cbn [set_mode pattern_time]; lra | ].
  destruct ((key =? XK_n)%Z || (key =? XK_N)%Z);
    [ cbn [set_mode pattern_time]; lra | exact H ].
Qed.

Lemma check_auto_mode_timing_pattern_time (now : Z) (s s' : World) :
  check_auto_mode_timing now s = Some s' ->
  0 <= pattern_time s -> 0 <= pattern_time s'.
Proof.
  unfold check_auto_mode_timing.
  destruct (negb (auto_mode s)); [ now intros [= <-] | ].
  destruct (_ && _).
  - destruct (get_next_pattern_mode s) as [[k s1] | ]; [ | discriminate ].
    intros [= <-] _. cbn [pattern_time]. lra.
  - destruct (_ && _); intros [= <-]; cbn [pattern_time]; lra.
Qed.

Lemma frame_pattern_time (m m' : Main) (input : list XEvent * Z) :
  frame m input = Some m' ->
  0 <= pattern_time (world m) -> 0 <= pattern_time (world m').
Proof.
  destruct input as [events now]. unfold frame. intros Ef H.
  assert (H1 : 0 <= pattern_time (world (fold_left handle_event events m))).
  { clear Ef. revert m H. induction events as [ | e events IH]; intros m H.
    - exact H.
    - cbn [fold_left]. apply IH. now apply handle_event_pattern_time. }
  destruct (check_auto_mode_timing now _) as [s | ] eqn:Ec; [ | discriminate ].
  apply check_auto_mode_timing_pattern_time in Ec; [ | exact H1 ].
  injection Ef as <-. cbn [world update_boids pattern_time].
  destruct (mode_eqb (current_mode s) MODE_NORMAL); lra.
Qed.

Lemma run_pattern_time (inputs : list (list XEvent * Z)) (m m' : Main) :
  run m inputs = Some m' ->
  0 <= pattern_time (world m) -> 0 <= pattern_time (world m').
Proof.
  revert m. induction inputs as [ | input inputs IH]; intros m; cbn [run].
  - now intros [= <-].
  - destruct (frame m input) as [m1 | ] eqn:Ef; [ | discriminate ].
    intros Er H. apply (IH m1 Er). exact (frame_pattern_time m m1 input Ef H).
Qed.

(** X6: along every run the Pattern Clock is never negative, and the curve
    parameter of agent [j] lies between the clock and the clock plus 10; the
    square root of the Fermat spiral is never taken of a negative number. *)
Theorem curve_parameter_range (auto : bool) (start w h : Z) (tape : list Z)
  (inputs : list (list XEvent * Z)) (m0 m : Main) (j : nat) :
  initial_main auto start w h tape = Some m0 ->
  run m0 inputs = Some m ->
  (j < NUM_BOIDS)%nat ->
  0 <= pattern_time (world m)
  /\ pattern_param (nth j (boids (world m)) boid0) (pattern_time (world m))
     = INR j / 50 + pattern_time (world m)
  /\ pattern_time (world m)
     <= pattern_param (nth j (boids (world m)) boid0) (pattern_time (world m))
     < pattern_time (world m) + 10.
Proof.
  intros E0 Er Hj.
  assert (Hp : 0 <= pattern_time (world m)).
  { apply (run_pattern_time inputs m0 m Er).
    unfold initial_main in E0.
    destruct (init_boids w h tape) as [[bs rest] | ]; [ | discriminate ].
    injection E0 as <-. cbn [world pattern_time]. lra. }
  pose proof (nth_identity _ _ j (run_identity inputs m0 m Er)) as Ei.
  unfold initial_main, init_boids in E0.
  destruct (init_boids_from w h NUM_BOIDS 0 tape) as [[bs rest] | ] eqn:E;
    [ | discriminate ].
  injection E0 as <-. cbn [world boids] in Ei.
  rewrite (init_boids_from_identity _ _ _ _ _ _ _ E j Hj) in Ei.
  unfold identity in Ei. injection Ei as E1 _ _.
  unfold pattern_param. rewrite E1, INR_NUM_BOIDS.
  cbn [Nat.add]. rewrite <- INR_IZR_INZ.
  assert (H0 : 0 <= INR j) by apply pos_INR.
  assert (H1 : INR j < 500).
  { rewrite <- INR_NUM_BOIDS. now apply lt_INR. }
  split; [ exact Hp | ]. split; [ field | lra ].
Qed.

Lemma curve_parameter_range_witness :
  exists m0 m : Main,
    initial_main true 7 800 600 (repeat 7%Z (4 * NUM_BOIDS)) = Some m0
    /\ run m0 [([KeyPress XK_r], 8%Z)] = Some m
    /\ 0 <= pattern_time (world m).
Proof.
  destruct (init_boids_from_total 800 600 NUM_BOIDS 0
              (repeat 7%Z (4 * NUM_BOIDS)))
    as [bs [rest E]]; [ now rewrite repeat_length | ].
  assert (E0 : initial_main true 7 800 600 (repeat 7%Z (4 * NUM_BOIDS))
               = Some (mkMain (mkWorld bs MODE_NORMAL 0 true 7
                                       MODE_LISSAJOUS rest) 800 600)).
  { unfold initial_main, init_boids. now rewrite E. }
  eexists. eexists. split; [ exact E0 | ]. split; [ reflexivity | ].
  refine (proj1 (curve_parameter_range true 7%Z 800 600
                   (repeat 7%Z (4 * NUM_BOIDS))
                   [([KeyPress XK_r], 8%Z)] _ _ 499 E0 eq_refl _)).
  unfold NUM_BOIDS. lia.
Defined.

(** ** The keyboard *)

(** X7: a key the [switch] has no case for changes nothing. *)
Theorem unbound_key_ignored (key : Z) (m : Main) :
  ~ In key bound_keys -> handle_event m (KeyPress key) = m.
Proof.
  intros Hk. cbn [handle_event].
  destruct (negb (auto_mode (world m))); [ | reflexivity ].
  assert (E : handle_key key (world m) = world m).
  { unfold handle_key, key_pattern.
    repeat match goal with
           | |- context [(key =? ?k)%Z] =>
               destruct (Z.eqb_spec key k) as [-> | _];
               [ exfalso; apply Hk; unfold bound_keys, key_pairs;
                 cbn [map fst snd app In]; tauto | ]
           end.
    reflexivity. }
  rewrite E. now destruct m.
Qed.

Lemma unbound_key_ignored_witness :
  handle_event lissajous_main (KeyPress 113) = lissajous_main.
Proof.
  apply (unbound_key_ignored 113 lissajous_main).
  unfold bound_keys, key_pairs. cbn [map fst snd app In].
  unfold XK_l, XK_L, XK_r, XK_R, XK_y, XK_Y, XK_b, XK_B, XK_m, XK_M,
    XK_s, XK_S, XK_f, XK_F, XK_c, XK_C, XK_n, XK_N.
  intros H. repeat (destruct H as [H | H]; [ discriminate H | ]). exact H.
Defined.

(** X8: the lower-case and the upper-case key of a binding do the same. *)
Theorem key_case_insensitive (lower upper : Z) (m : Main) :
  In (lower, upper) key_pairs ->
  handle_event m (KeyPress lower) = handle_event m (KeyPress upper).
Proof.
  unfold key_pairs. cbn [In]. intros H.
  repeat (destruct H as [[= <- <-] | H]; [ reflexivity | ]).
  destruct H.
Qed.

Lemma key_case_insensitive_witness :
  handle_event lissajous_main (KeyPress XK_y)
  = handle_event lissajous_main (KeyPress XK_Y).
Proof.
  apply (key_case_insensitive XK_y XK_Y lissajous_main).
  unfold key_pairs. cbn [In]. tauto.
Defined.

(** ** The scheduler, frame by frame *)

(** X9: in auto mode a frame changes the mode only when the dwell time of the
    mode it finds has elapsed, and then it records the time: out of
    [MODE_NORMAL] after [BOIDS_TIME] into a pattern mode, whose clock reads
    0.01 after the tick of the frame; out of a pattern mode after
    [PATTERN_TIME] into [MODE_NORMAL], never into another pattern. *)
Theorem auto_mode_changes_after_dwell (m m' : Main) (events : list XEvent)
  (now : Z) :
  auto_mode (world m) = true ->
  frame m (events, now) = Some m' ->
  current_mode (world m') <> current_mode (world m) ->
  last_mode_change (world m') = now
  /\ ((current_mode (world m) = MODE_NORMAL
       /\ is_pattern (current_mode (world m')) = true
       /\ (BOIDS_TIME <= to_int (now - last_mode_change (world m)))%Z
       /\ pattern_time (world m') = 0.01)
      \/ (is_pattern (current_mode (world m)) = true
          /\ current_mode (world m') = MODE_NORMAL
          /\ (PATTERN_TIME <= to_int (now - last_mode_change (world m)))%Z
          /\ pattern_time (world m') = 0)).
Proof.
  intros Hauto Ef Hne.
  destruct (frame_auto m m' events now Hauto Ef) as [s [Ec Ew]].
  rewrite Ew in Hne |- *. cbn [update_boids current_mode] in Hne.
  cbn [update_boids current_mode last_mode_change pattern_time].
  destruct (check_auto_mode_timing_cases now (world m) s Hauto Ec)
    as [(Hm & Ht & _ & _ & Hp & Hl & _)
       | [(Hm & Ht & Hm' & _ & _ & Hp & Hl & _) | (-> & _)]].
  - split; [ exact Hl | ]. left. rewrite Hm in Hne.
    split; [ exact Hm | ]. split; [ now apply is_pattern_neq | ].
    split; [ exact Ht | ].
    apply mode_eqb_neq in Hne. rewrite Hne, Hp. lra.
  - split; [ exact Hl | ]. right.
    split; [ now apply is_pattern_neq | ]. split; [ exact Hm' | ].
    split; [ exact Ht | ]. rewrite Hm'. exact Hp.
  - contradiction Hne. reflexivity.
Qed.

Lemma auto_mode_changes_after_dwell_witness :
  exists m', frame auto_main ([KeyPress XK_c], 30%Z) = Some m'
             /\ last_mode_change (world m') = 30%Z.
Proof.
  assert (Ec : check_auto_mode_timing 30 (world auto_main)
               = Some (mkWorld resting_boids MODE_ROSE 0 true 30 MODE_ROSE
                               [9%Z; 2%Z])) by reflexivity.
  destruct (frame_auto_total auto_main [KeyPress XK_c] 30%Z _ eq_refl Ec)
    as [m' [Ef Ew]].
  exists m'. split; [ exact Ef | ].
  refine (proj1 (auto_mode_changes_after_dwell auto_main m' [KeyPress XK_c]
                   30%Z eq_refl Ef _)).
  rewrite Ew. discriminate.
Defined.

(** ** The loop of [get_next_pattern_mode] *)

Lemma draw_pattern_skip (last : FlockingMode) (skipped tape : list Z) :
  Forall (fun r => mode_of_int (Z.rem r 8 + 1) = last) skipped ->
  draw_pattern last (skipped ++ tape) = draw_pattern last tape.
Proof.
  induction 1 as [ | r skipped Hr _ IH]; cbn [app draw_pattern].
  - reflexivity.
  - apply mode_eqb_eq in Hr. now rewrite Hr.
Qed.

(** X10: [get_next_pattern_mode] calls [rand()] until the number maps to
    another pattern than the last one: it discards exactly the leading
    numbers that map to the last, selects the pattern of the first that does
    not, remembers it, and leaves the numbers after it. *)
Theorem get_next_pattern_mode_loop (s : World) (skipped tape : list Z)
  (r : Z) :
  rand_tape s = skipped ++ r :: tape ->
  Forall (fun r' => mode_of_int (Z.rem r' 8 + 1) = last_pattern_mode s)
         skipped ->
  mode_of_int (Z.rem r 8 + 1) <> last_pattern_mode s ->
  get_next_pattern_mode s
  = Some (mode_of_int (Z.rem r 8 + 1),
          mkWorld (boids s) (current_mode s) (pattern_time s) (auto_mode s)
                  (last_mode_change s) (mode_of_int (Z.rem r 8 + 1)) tape).
Proof.
  intros Et Hs Hr. unfold get_next_pattern_mode.
  rewrite Et, (draw_pattern_skip _ _ _ Hs). cbn [draw_pattern].
  apply mode_eqb_neq in Hr. now rewrite Hr.
Qed.

Lemma get_next_pattern_mode_loop_witness :
  get_next_pattern_mode
    (mkWorld [] MODE_NORMAL 0 true 0 MODE_LISSAJOUS [0%Z; 8%Z; 16%Z; 3%Z; 5%Z])
  = Some (MODE_BUTTERFLY,
          mkWorld [] MODE_NORMAL 0 true 0 MODE_BUTTERFLY [5%Z]).
Proof.
  apply (get_next_pattern_mode_loop
           (mkWorld [] MODE_NORMAL 0 true 0 MODE_LISSAJOUS
                    [0%Z; 8%Z; 16%Z; 3%Z; 5%Z])
           [0%Z; 8%Z; 16%Z] [5%Z] 3%Z).
  - reflexivity.
  - repeat constructor.
  - discriminate.
Defined.

(** X11: every pattern other than the last one can come next: there is a
    number in the range of [rand()] on which the scheduler, the dwell time
    of [MODE_NORMAL] elapsed, selects it. *)
Theorem every_other_pattern_selectable (k : FlockingMode) (now : Z)
  (s : World) (tape : list Z) :
  is_pattern k = true ->
  k <> last_pattern_mode s ->
  auto_mode s = true ->
  current_mode s = MODE_NORMAL ->
  (BOIDS_TIME <= to_int (now - last_mode_change s))%Z ->
  exists r : Z,
    (0 <= r <= RAND_MAX)%Z
    /\ check_auto_mode_timing now
         (mkWorld (boids s) (current_mode s) (pattern_time s) (auto_mode s)
                  (last_mode_change s) (last_pattern_mode s) (r :: tape))
       = Some (mkWorld (boids s) k 0 true now k tape).
Proof.
  intros Hk Hne Hauto Hmode Ht.
  exists (int_of_mode k - 1)%Z. split.
  { unfold RAND_MAX. destruct k; cbn [int_of_mode]; try lia.
    discriminate Hk. }
  unfold check_auto_mode_timing, get_next_pattern_mode.
  cbn [auto_mode current_mode last_mode_change last_pattern_mode rand_tape
       boids pattern_time draw_pattern].
  rewrite Hauto, Hmode. cbn [negb mode_eqb int_of_mode Z.eqb andb].
  destruct (Z.geb_spec (to_int (now - last_mode_change s)) BOIDS_TIME);
    [ | lia ].
  assert (Ek : mode_of_int (Z.rem (int_of_mode k - 1) 8 + 1) = k).
  { destruct k; reflexivity. }
  rewrite Ek. apply mode_eqb_neq in Hne. rewrite Hne. reflexivity.
Qed.

Lemma every_other_pattern_selectable_witness :
  exists r : Z,
    (0 <= r <= RAND_MAX)%Z
    /\ check_auto_mode_timing 31
         (mkWorld [] MODE_NORMAL 0 true 0 MODE_LISSAJOUS (r :: [4%Z]))
       = Some (mkWorld [] MODE_CARDIOID 0 true 31 MODE_CARDIOID [4%Z]).
Proof.
  apply (every_other_pattern_selectable MODE_CARDIOID 31
           (mkWorld [] MODE_NORMAL 0 true 0 MODE_LISSAJOUS []) [4%Z]).
  - reflexivity.
  - discriminate.
  - reflexivity.
  - reflexivity.
  - vm_compute. discriminate.
Defined.

(** ** [init_boids], in full *)

Lemma created_speed (w h : Z) (j : nat) (b : Boid) :
  created w h j b -> speed b <= MAX_SPEED * sqrt 2.
Proof.
  intros (_ & (k & l & Hk & Hl & Ex & Ey) & _).
  assert (Bk : 0 <= IZR k <= 99).
  { split; [ apply (IZR_le 0) | apply (IZR_le k 99) ]; lia. }
  assert (Bl : 0 <= IZR l <= 99).
  { split; [ apply (IZR_le 0) | apply (IZR_le l 99) ]; lia. }
  unfold speed, MAX_SPEED in *. rewrite Ex, Ey.
  replace (4 * sqrt 2) with (sqrt (16 * 2)).
  - apply sqrt_le_1_alt. nra.
  - rewrite sqrt_mult by lra. replace 16 with (4 * 4) by lra.
    rewrite sqrt_square by lra. reflexivity.
Qed.

Lemma init_boids_from_created (w h : Z) (n i : nat) (tape : list Z) :
  (0 < w)%Z -> (0 < h)%Z ->
  rand_range tape ->
  (4 * n <= length tape)%nat ->
  exists bs,
    init_boids_from w h n i tape = Some (bs, skipn (4 * n) tape)
    /\ length bs = n
    /\ forall j, (j < n)%nat -> created w h (i + j) (nth j bs boid0).
Proof.
  intros Hw Hh. unfold rand_range. revert i tape.
  induction n as [ | n IH]; intros i tape Hr Hlen.
  - exists []. cbn [init_boids_from Nat.mul skipn length].
    split; [ reflexivity | ]. split; [ reflexivity | ]. intros j Hj. lia.
  - replace (4 * S n)%nat with (S (S (S (S (4 * n))))) by lia.
    destruct tape as [ | r1 [ | r2 [ | r3 [ | r4 tape]]]];
      cbn [length] in Hlen; try lia.
    inversion Hr as [ | ? ? H1 Hr1]; subst.
    inversion Hr1 as [ | ? ? H2 Hr2]; subst.
    inversion Hr2 as [ | ? ? H3 Hr3]; subst.
    inversion Hr3 as [ | ? ? H4 Hr4]; subst.
    destruct (IH (S i) tape Hr4) as [bs (E & Hl & Hc)]; [ lia | ].
    cbn [init_boids_from skipn]. rewrite E.
    eexists. split; [ reflexivity | ]. split; [ cbn [length]; now rewrite Hl | ].
    intros [ | j] Hj; cbn [nth].
    + unfold created. cbn [x y vx vy target_x target_y index].
      unfold RAND_MAX in *.
      split; [ exists (Z.rem r1 w), (Z.rem r2 h) | split;
               [ exists (Z.rem r3 100), (Z.rem r4 100) | ] ].
      * repeat split; try (apply Z.rem_bound_pos; lia).
      * repeat split; try (apply Z.rem_bound_pos; lia).
      * repeat split. f_equal. lia.
    + replace (i + S j)%nat with (S i + j)%nat by lia. apply Hc. lia.
Qed.

(** X12: in a viewport of positive width and height [init_boids] reads four
    numbers of [rand()] per agent and no more, and creates [NUM_BOIDS] agents:
    agent [j] has the index [j] and its target at its position, stands on a
    pixel of the viewport, and has velocity components among the hundred
    values from [-MAX_SPEED] to [0.98 * MAX_SPEED]; its speed may exceed
    [MAX_SPEED], by a factor of at most the square root of 2. *)
Theorem init_boids_creates (w h : Z) (tape : list Z) :
  (0 < w)%Z -> (0 < h)%Z ->
  rand_range tape ->
  (4 * NUM_BOIDS <= length tape)%nat ->
  exists bs,
    init_boids w h tape = Some (bs, skipn (4 * NUM_BOIDS) tape)
    /\ length bs = NUM_BOIDS
    /\ forall j, (j < NUM_BOIDS)%nat ->
                 created w h j (nth j bs boid0)
                 /\ in_bounds w h (nth j bs boid0)
                 /\ - MAX_SPEED <= vx (nth j bs boid0) <= 0.98 * MAX_SPEED
                 /\ - MAX_SPEED <= vy (nth j bs boid0) <= 0.98 * MAX_SPEED
                 /\ speed (nth j bs boid0) <= MAX_SPEED * sqrt 2.
Proof.
  intros Hw Hh Hr Hlen. unfold init_boids.
  destruct (init_boids_from_created w h NUM_BOIDS 0 tape Hw Hh Hr Hlen)
    as [bs (E & Hl & Hc)].
  exists bs. split; [ exact E | ]. split; [ exact Hl | ].
  intros j Hj. specialize (Hc j Hj). cbn [Nat.add] in Hc.
  split; [ exact Hc | ].
  pose proof (created_speed w h j _ Hc) as Hs.
  destruct Hc as ((kx & ky & Hkx & Hky & Ex & Ey)
                  & (k & l & Hk & Hl' & Evx & Evy) & _).
  assert (Bk : 0 <= IZR k <= 99).
  { split; [ apply (IZR_le 0) | apply (IZR_le k 99) ]; lia. }
  assert (Bl : 0 <= IZR l <= 99).
  { split; [ apply (IZR_le 0) | apply (IZR_le l 99) ]; lia. }
  split; [ | split; [ | split; [ | exact Hs ] ] ].
  - unfold in_bounds. rewrite Ex, Ey.
    split; split; first [ apply (IZR_le 0); lia | apply IZR_lt; lia ].
  - rewrite Evx. unfold MAX_SPEED. lra.
  - rewrite Evy. unfold MAX_SPEED. lra.
Qed.

Lemma init_boids_creates_witness :
  exists bs,
    init_boids 800 600 (repeat 7%Z (4 * NUM_BOIDS) ++ [1%Z; 2%Z])
    = Some (bs, skipn (4 * NUM_BOIDS)
                  (repeat 7%Z (4 * NUM_BOIDS) ++ [1%Z; 2%Z]))
    /\ length bs = NUM_BOIDS.
Proof.
  destruct (init_boids_creates 800 600
              (repeat 7%Z (4 * NUM_BOIDS) ++ [1%Z; 2%Z]))
    as [bs (E & Hl & _)].
  - lia.
  - lia.
  - unfold rand_range. apply Forall_app. split.
    + apply Forall_forall. intros r Hin.
      apply repeat_spec in Hin. subst r. unfold RAND_MAX. lia.
    + repeat constructor; unfold RAND_MAX; lia.
  - rewrite length_app, repeat_length. apply Nat.le_add_r.
  - exists bs. split; [ exact E | exact Hl ].
Defined.

(** ** The order of the updates within a tick *)

Lemma seq_split (n i : nat) :
  (i < n)%nat -> seq 0 n = seq 0 i ++ i :: seq (S i) (n - S i).
Proof.
  intros Hi. replace n with (i + S (n - S i))%nat at 1 by lia.
  rewrite seq_app. reflexivity.
Qed.

Lemma fold_update_boid_in_place (m : FlockingMode) (ptime : R) (w h : Z)
  (n i : nat) (bs : list Boid) :
  (i < n)%nat ->
  let before := fold_left (update_boid m ptime w h) (seq 0 i) bs in
  let after := fold_left (update_boid m ptime w h) (seq 0 n) bs in
  nth i after boid0 = nth i (update_boid m ptime w h before i) boid0
  /\ (forall j, (i <= j)%nat -> nth j before boid0 = nth j bs boid0)
  /\ (forall j, (j < i)%nat -> nth j before boid0 = nth j after boid0).
Proof.
  intros Hi before after. subst before after.
  rewrite (seq_split n i Hi), fold_left_app. cbn [fold_left].
  split; [ | split ].
  - apply fold_update_boid_other. rewrite in_seq. lia.
  - intros j Hj. apply fold_update_boid_other. rewrite in_seq. lia.
  - intros j Hj. symmetry.
    rewrite fold_update_boid_other by (rewrite in_seq; lia).
    apply update_boid_other. lia.
Qed.

(** X13: the tick updates the array in place, in the order of the indices.
    The state of agent [i] after the tick is the one its own iteration
    computes, and that iteration reads the agents before [i] as they are
    after the tick and the agents from [i] on as they were before it. *)
Theorem update_boids_in_place (w h : Z) (s : World) (i : nat) :
  (i < NUM_BOIDS)%nat ->
  let before :=
    fold_left (update_boid (current_mode s) (pattern_time s) w h)
              (seq 0 i) (boids s) in
  nth i (boids (update_boids w h s)) boid0
  = nth i (update_boid (current_mode s) (pattern_time s) w h before i) boid0
  /\ (forall j, (i <= j)%nat -> nth j before boid0 = nth j (boids s) boid0)
  /\ (forall j, (j < i)%nat ->
                nth j before boid0
                = nth j (boids (update_boids w h s)) boid0).
Proof.
  intros Hi. unfold update_boids. cbn [boids].
  exact (fold_update_boid_in_place (current_mode s) (pattern_time s) w h
           NUM_BOIDS i (boids s) Hi).
Qed.

Lemma update_boids_in_place_witness :
  nth 2 (boids (update_boids 3 3 leftward_world)) boid0
  = nth 2 (update_boid MODE_NORMAL 0 3 3
             (fold_left (update_boid MODE_NORMAL 0 3 3) (seq 0 2)
                        leftward_boids) 2) boid0.
Proof.
  refine (proj1 (update_boids_in_place 3 3 leftward_world 2 _)).
  unfold NUM_BOIDS. lia.
Defined.

Lemma integrate_wrap_moves (w h : Z) (b : Boid) :
  exists kx ky : Z,
    (-1 <= kx <= 1)%Z /\ (-1 <= ky <= 1)%Z
    /\ x (integrate_wrap w h b) = x b + vx b + IZR kx * IZR w
    /\ y (integrate_wrap w h b) = y b + vy b + IZR ky * IZR h
    /\ vx (integrate_wrap w h b) = vx b
    /\ vy (integrate_wrap w h b) = vy b.
Proof.
  unfold integrate_wrap, Rgeb. cbn [set_position x y vx vy].
  assert (Hx : exists kx : Z,
             (-1 <= kx <= 1)%Z
             /\ (if negb (Rltb (if Rltb (x b + vx b) 0
                                then x b + vx b + IZR w else x b + vx b)
                               (IZR w))
                 then (if Rltb (x b + vx b) 0
                       then x b + vx b + IZR w else x b + vx b) - IZR w
                 else (if Rltb (x b + vx b) 0
                       then x b + vx b + IZR w else x b + vx b))
                = x b + vx b + IZR kx * IZR w).
  { destruct (Rltb (x b + vx b) 0);
      [ destruct (Rltb (x b + vx b + IZR w) (IZR w))
      | destruct (Rltb (x b + vx b) (IZR w)) ]; cbn [negb];
      [ exists 1%Z | exists 0%Z | exists 0%Z | exists (-1)%Z ];
      (split; [ lia | lra ]). }
  assert (Hy : exists ky : Z,
             (-1 <= ky <= 1)%Z
             /\ (if negb (Rltb (if Rltb (y b + vy b) 0
                                then y b + vy b + IZR h else y b + vy b)
                               (IZR h))
                 then (if Rltb (y b + vy b) 0
                       then y b + vy b + IZR h else y b + vy b) - IZR h
                 else (if Rltb (y b + vy b) 0
                       then y b + vy b + IZR h else y b + vy b))
                = y b + vy b + IZR ky * IZR h).
  { destruct (Rltb (y b + vy b) 0);
      [ destruct (Rltb (y b + vy b + IZR h) (IZR h))
      | destruct (Rltb (y b + vy b) (IZR h)) ]; cbn [negb];
      [ exists 1%Z | exists 0%Z | exists 0%Z | exists (-1)%Z ];
      (split; [ lia | lra ]). }
  destruct Hx as [kx [Bx Ex]]. destruct Hy as [ky [By Ey]].
  exists kx, ky. repeat split; try lia; assumption.
Qed.

Lemma update_boid_moves (m : FlockingMode) (ptime : R) (w h : Z)
  (bs : list Boid) (i : nat) :
  (i < length bs)%nat ->
  exists kx ky : Z,
    (-1 <= kx <= 1)%Z /\ (-1 <= ky <= 1)%Z
    /\ x (nth i (update_boid m ptime w h bs i) boid0)
       = x (nth i bs boid0) + vx (nth i (update_boid m ptime w h bs i) boid0)
         + IZR kx * IZR w
    /\ y (nth i (update_boid m ptime w h bs i) boid0)
       = y (nth i bs boid0) + vy (nth i (update_boid m ptime w h bs i) boid0)
         + IZR ky * IZR h.
Proof.
  intros Hi. unfold update_boid.
  destruct (force_phase_shape m ptime w h bs i) as (Hlen & _ & Hx & Hy).
  cbv zeta in Hlen, Hx, Hy.
  rewrite nth_upd_same by (rewrite Hlen; exact Hi).
  destruct (integrate_wrap_moves w h
              (limit_speed
                 (nth i (if mode_eqb m MODE_NORMAL
                         then upd i (fun _ => flock_boid bs i) bs
                         else apply_pattern_force m ptime w h bs i) boid0)))
    as [kx [ky (Bx & By & Ex & Ey & Evx & Evy)]].
  exists kx, ky. split; [ exact Bx | ]. split; [ exact By | ].
  rewrite Ex, Ey, Evx, Evy.
  destruct (limit_speed_position
              (nth i (if mode_eqb m MODE_NORMAL
                      then upd i (fun _ => flock_boid bs i) bs
                      else apply_pattern_force m ptime w h bs i) boid0))
    as [-> ->].
  rewrite Hx, Hy. split; reflexivity.
Qed.

Lemma fold_update_boid_moves (m : FlockingMode) (ptime : R) (w h : Z)
  (n i : nat) (bs : list Boid) :
  (i < n)%nat -> (i < length bs)%nat ->
  exists kx ky : Z,
    (-1 <= kx <= 1)%Z /\ (-1 <= ky <= 1)%Z
    /\ x (nth i (fold_left (update_boid m ptime w h) (seq 0 n) bs) boid0)
       = x (nth i bs boid0)
         + vx (nth i (fold_left (update_boid m ptime w h) (seq 0 n) bs) boid0)
         + IZR kx * IZR w
    /\ y (nth i (fold_left (update_boid m ptime w h) (seq 0 n) bs) boid0)
       = y (nth i bs boid0)
         + vy (nth i (fold_left (update_boid m ptime w h) (seq 0 n) bs) boid0)
         + IZR ky * IZR h.
Proof.
  intros Hi Hlen.
  destruct (fold_update_boid_in_place m ptime w h n i bs Hi)
    as (E & Hold & _).
  rewrite E. rewrite <- (Hold i (Nat.le_refl i)).
  apply update_boid_moves. now rewrite fold_update_boid_length.
Qed.

(** X14: a tick moves every agent by its new velocity, the one the forces and
    [limit_speed] of this tick leave, and wraps each coordinate by at most
    one viewport width or height; no agent is turned back at an edge. *)
Theorem tick_moves_by_new_velocity (w h : Z) (s : World) (i : nat) :
  (i < NUM_BOIDS)%nat ->
  length (boids s) = NUM_BOIDS ->
  exists kx ky : Z,
    (-1 <= kx <= 1)%Z /\ (-1 <= ky <= 1)%Z
    /\ x (nth i (boids (update_boids w h s)) boid0)
       = x (nth i (boids s) boid0)
         + vx (nth i (boids (update_boids w h s)) boid0) + IZR kx * IZR w
    /\ y (nth i (boids (update_boids w h s)) boid0)
       = y (nth i (boids s) boid0)
         + vy (nth i (boids (update_boids w h s)) boid0) + IZR ky * IZR h.
Proof.
  intros Hi Hlen. unfold update_boids. cbn [boids].
  apply fold_update_boid_moves; [ exact Hi | ]. rewrite Hlen. exact Hi.
Qed.

Lemma tick_moves_by_new_velocity_witness :
  exists kx ky : Z,
    (-1 <= kx <= 1)%Z /\ (-1 <= ky <= 1)%Z
    /\ x (nth 7 (boids (update_boids 3 3 leftward_world)) boid0)
       = x (nth 7 (boids leftward_world) boid0)
         + vx (nth 7 (boids (update_boids 3 3 leftward_world)) boid0)
         + IZR kx * IZR 3
    /\ y (nth 7 (boids (update_boids 3 3 leftward_world)) boid0)
       = y (nth 7 (boids leftward_world) boid0)
         + vy (nth 7 (boids (update_boids 3 3 leftward_world)) boid0)
         + IZR ky * IZR 3.
Proof.
  apply (tick_moves_by_new_velocity 3 3 leftward_world 7).
  - unfold NUM_BOIDS. lia.
  - apply leftward_boids_length.
Defined.

(** ** The extent of the curves *)

Lemma bound_mul (a p u : R) :
  - a <= p <= a -> -1 <= u <= 1 -> - a <= p * u <= a.
Proof. intros Hp Hu. split; nra. Qed.

Lemma scale_mul (a u : R) : 0 <= a -> -1 <= u <= 1 -> - a <= a * u <= a.
Proof. intros Ha Hu. split; nra. Qed.

Lemma get_scale_factor_bounds (w h : Z) :
  (0 <= w)%Z -> (0 <= h)%Z ->
  0 <= get_scale_factor w h
  /\ get_scale_factor w h <= 0.3 * IZR w
  /\ get_scale_factor w h <= 0.3 * IZR h.
Proof.
  intros Hw Hh. apply IZR_le in Hw, Hh. unfold get_scale_factor.
  pose proof (Rmin_l (IZR w) (IZR h)). pose proof (Rmin_r (IZR w) (IZR h)).
  assert (0 <= Rmin (IZR w) (IZR h)) by (apply Rmin_glb; assumption).
  repeat split; lra.
Qed.

Lemma half_bounds (w : Z) :
  (0 <= w)%Z -> IZR w - 1 <= 2 * IZR (Z.quot w 2) <= IZR w.
Proof.
  intros Hw.
  assert (H : (w - 1 <= 2 * Z.quot w 2 <= w)%Z).
  { rewrite Z.quot_div_nonneg by lia.
    pose proof (Z.div_mod w 2). pose proof (Z.mod_pos_bound w 2). lia. }
  destruct H as [H1 H2]. apply IZR_le in H1, H2.
  rewrite mult_IZR in H1, H2. rewrite minus_IZR in H1. lra.
Qed.

Lemma within_viewport (w h : Z) (dx dy : R) :
  (10 <= w)%Z -> (10 <= h)%Z ->
  - (1.5 * get_scale_factor w h) <= dx <= 1.5 * get_scale_factor w h ->
  - (1.5 * get_scale_factor w h) <= dy <= 1.5 * get_scale_factor w h ->
  (0 <= IZR (Z.quot w 2) + dx < IZR w)
  /\ (0 <= IZR (Z.quot h 2) + dy < IZR h).
Proof.
  intros Hw Hh Hx Hy.
  destruct (get_scale_factor_bounds w h) as (H0 & H1 & H2); try lia.
  pose proof (half_bounds w ltac:(lia)). pose proof (half_bounds h ltac:(lia)).
  apply IZR_le in Hw, Hh. split; split; lra.
Qed.

(** X15: in a viewport at least 10 wide and high the target points of the
    Lissajous, rose, hypocycloid, Maurer rose and spirograph patterns lie in
    the viewport, whatever the curve parameter. *)
Theorem curve_targets_in_viewport (m : FlockingMode) (t : R) (w h : Z)
  (tx ty : R) :
  In m curves_in_viewport ->
  (10 <= w)%Z -> (10 <= h)%Z ->
  pattern_target m t w h = Some (tx, ty) ->
  0 <= tx < IZR w /\ 0 <= ty < IZR h.
Proof.
  intros Hm Hw Hh.
  destruct (get_scale_factor_bounds w h) as (H0 & _ & _); try lia.
  unfold curves_in_viewport in Hm. cbn [In] in Hm.
  destruct Hm as [<- | [<- | [<- | [<- | [<- | []]]]]]; cbn [pattern_target];
    intros [= <- <-].
  - unfold calculate_lissajous_position. cbv zeta.
    apply within_viewport; try assumption.
    + pose proof (scale_mul _ _ H0 (SIN_bound (3 * t))). lra.
    + pose proof (scale_mul _ _ H0 (SIN_bound (2 * t + PI / 2))). lra.
  - unfold calculate_rose_position. cbv zeta.
    apply within_viewport; try assumption.
    + pose proof (bound_mul _ _ _ (scale_mul _ _ H0 (SIN_bound (3 * t)))
                    (COS_bound t)). lra.
    + pose proof (bound_mul _ _ _ (scale_mul _ _ H0 (SIN_bound (3 * t)))
                    (SIN_bound t)). lra.
  - unfold calculate_hypocycloid_position. cbv zeta.
    set (sc := get_scale_factor w h) in *.
    assert (H3 : 0 <= sc - sc / 4) by lra.
    assert (H4 : 0 <= sc / 4) by lra.
    pose proof (scale_mul _ _ H3 (COS_bound t)) as B1.
    pose proof (scale_mul _ _ H4
                  (COS_bound ((sc - sc / 4) * t / (sc / 4)))) as B2.
    pose proof (scale_mul _ _ H3 (SIN_bound t)) as B3.
    pose proof (scale_mul _ _ H4
                  (SIN_bound ((sc - sc / 4) * t / (sc / 4)))) as B4.
    destruct (within_viewport w h
                ((sc - sc / 4) * cos t
                 + sc / 4 * cos ((sc - sc / 4) * t / (sc / 4)))
                ((sc - sc / 4) * sin t
                 - sc / 4 * sin ((sc - sc / 4) * t / (sc / 4))) Hw Hh);
      fold sc; lra.
  - unfold calculate_maurer_rose_position. cbv zeta.
    set (sc := get_scale_factor w h) in *.
    assert (Hr : - (1.5 * sc)
                 <= sc * 1.5 * (0.8 + 0.2 * sin (7 * (t * 71) * PI / 180))
                 <= 1.5 * sc).
    { pose proof (SIN_bound (7 * (t * 71) * PI / 180)). split; nra. }
    apply within_viewport; try assumption; fold sc.
    + apply (bound_mul _ _ _ Hr (COS_bound (t * 71 * PI / 180))).
    + apply (bound_mul _ _ _ Hr (SIN_bound (t * 71 * PI / 180))).
  - unfold calculate_spirograph_position. cbv zeta.
    set (sc := get_scale_factor w h) in *.
    assert (H3 : 0 <= sc * 0.8 - sc * 0.8 * 0.4) by lra.
    assert (H4 : 0 <= sc * 0.8 * 0.4 * 0.8) by lra.
    pose proof (scale_mul _ _ H3 (COS_bound t)) as B1.
    pose proof (scale_mul _ _ H4
                  (COS_bound ((sc * 0.8 - sc * 0.8 * 0.4) * t
                              / (sc * 0.8 * 0.4)))) as B2.
    pose proof (scale_mul _ _ H3 (SIN_bound t)) as B3.
    pose proof (scale_mul _ _ H4
                  (SIN_bound ((sc * 0.8 - sc * 0.8 * 0.4) * t
                              / (sc * 0.8 * 0.4)))) as B4.
    destruct (within_viewport w h
                ((sc * 0.8 - sc * 0.8 * 0.4) * cos t
                 + sc * 0.8 * 0.4 * 0.8
                   * cos ((sc * 0.8 - sc * 0.8 * 0.4) * t
                          / (sc * 0.8 * 0.4)))
                ((sc * 0.8 - sc * 0.8 * 0.4) * sin t
                 - sc * 0.8 * 0.4 * 0.8
                   * sin ((sc * 0.8 - sc * 0.8 * 0.4) * t
                          / (sc * 0.8 * 0.4))) Hw Hh);
      fold sc; lra.
Qed.

Lemma curve_targets_in_viewport_witness :
  0 <= fst (calculate_maurer_rose_position 2 800 600) < 800
  /\ 0 <= snd (calculate_maurer_rose_position 2 800 600) < 600.
Proof.
  apply (curve_targets_in_viewport MODE_MAURER_ROSE 2 800 600).
  - unfold curves_in_viewport. cbn [In]. tauto.
  - lia.
  - lia.
  - reflexivity.
Defined.

(** X16: the cardioid is wider than a viewport that is at least as high as
    wide.  The first target of agent 0, at the time a cardioid starts, lies
    on or beyond the right edge of such a viewport (of width 13 or more). *)
Theorem cardioid_target_leaves_viewport (w h : Z) (b : Boid) :
  (13 <= w)%Z -> (w <= h)%Z ->
  index b = 0%Z ->
  exists tx ty : R,
    pattern_target MODE_CARDIOID (pattern_param b 0) w h = Some (tx, ty)
    /\ IZR w <= tx.
Proof.
  intros Hw Hh Hi. eexists. eexists. split; [ reflexivity | ].
  unfold pattern_param. rewrite Hi.
  replace (0 / INR NUM_BOIDS * 10 + 0) with 0 by (unfold Rdiv; ring).
  rewrite cos_0. unfold get_scale_factor.
  rewrite Rmin_left by (apply IZR_le; exact Hh).
  pose proof (half_bounds w ltac:(lia)) as Hc.
  apply IZR_le in Hw. lra.
Qed.

Lemma cardioid_target_leaves_viewport_witness :
  exists tx ty : R,
    pattern_target MODE_CARDIOID (pattern_param boid0 0) 600 600
    = Some (tx, ty)
    /\ 600 <= tx.
Proof.
  apply (cardioid_target_leaves_viewport 600 600 boid0).
  - lia.
  - lia.
  - reflexivity.
Defined.

(** X17: the targets of the Fermat spiral lie at the distance
    [0.15 * min (w, h) * sqrt t] from the centre of the viewport: the agents
    line up along the spiral by index, and the spiral grows with the Pattern
    Clock without bound. *)
Theorem fermat_spiral_radius (t : R) (w h : Z) :
  0 <= t -> (0 <= w)%Z -> (0 <= h)%Z ->
  sqrt ((fst (calculate_fermat_spiral_position t w h) - IZR (Z.quot w 2))
        * (fst (calculate_fermat_spiral_position t w h) - IZR (Z.quot w 2))
        + (snd (calculate_fermat_spiral_position t w h) - IZR (Z.quot h 2))
          * (snd (calculate_fermat_spiral_position t w h)
             - IZR (Z.quot h 2)))
  = 0.15 * Rmin (IZR w) (IZR h) * sqrt t.
Proof.
  intros Ht Hw Hh.
  destruct (get_scale_factor_bounds w h Hw Hh) as (H0 & _ & _).
  unfold calculate_fermat_spiral_position. cbn [fst snd].
  unfold get_scale_factor in *.
  set (r := Rmin (IZR w) (IZR h) * 0.3 * 0.5 * sqrt t).
  assert (Hr : 0 <= r).
  { unfold r. pose proof (sqrt_pos t). nra. }
  replace ((IZR (Z.quot w 2) + r * cos (t * 5) - IZR (Z.quot w 2))
           * (IZR (Z.quot w 2) + r * cos (t * 5) - IZR (Z.quot w 2))
           + (IZR (Z.quot h 2) + r * sin (t * 5) - IZR (Z.quot h 2))
             * (IZR (Z.quot h 2) + r * sin (t * 5) - IZR (Z.quot h 2)))
    with (r * r * ((sin (t * 5))² + (cos (t * 5))²)) by (unfold Rsqr; ring).
  rewrite sin2_cos2, Rmult_1_r, sqrt_square by exact Hr.
  unfold r. lra.
Qed.

Lemma fermat_spiral_radius_witness :
  sqrt ((fst (calculate_fermat_spiral_position 4 800 600) - IZR (Z.quot 800 2))
        * (fst (calculate_fermat_spiral_position 4 800 600)
           - IZR (Z.quot 800 2))
        + (snd (calculate_fermat_spiral_position 4 800 600)
           - IZR (Z.quot 600 2))
          * (snd (calculate_fermat_spiral_position 4 800 600)
             - IZR (Z.quot 600 2)))
  = 0.15 * Rmin 800 600 * sqrt 4.
Proof.
  apply (fermat_spiral_radius 4 800 600); [ lra | lia | lia ].
Defined.

(** ** The two separation passes *)

Lemma separation_step_flock (bs : list Boid) (i j : nat) (s : R * R * Z)
  (f : Accum) :
  index (nth i bs boid0) = Z.of_nat i ->
  fst (fst s) = avoid_x f /\ snd (fst s) = avoid_y f
  /\ (0 <= snd s)%Z /\ (snd s = 0%Z -> fst (fst s) = 0 /\ snd (fst s) = 0) ->
  let s' := separation_step bs (nth i bs boid0) s j in
  let f' := flock_scan_step bs i f j in
  fst (fst s') = avoid_x f' /\ snd (fst s') = avoid_y f'
  /\ (0 <= snd s')%Z
  /\ (snd s' = 0%Z -> fst (fst s') = 0 /\ snd (fst s') = 0).
Proof.
  intros Hi. destruct s as [[ax ay] c]. cbn [fst snd].
  intros (Ex & Ey & Hc & H0).
  unfold separation_step, flock_scan_step. rewrite Hi.
  replace (Z.of_nat i =? Z.of_nat j)%Z with (Nat.eqb i j).
  2:{ destruct (Nat.eqb_spec i j) as [-> | Hne].
      - now rewrite Z.eqb_refl.
      - symmetry. apply Z.eqb_neq. lia. }
  destruct (Nat.eqb i j); cbn [fst snd]; [ repeat split; tauto | ].
  set (dx := x (nth j bs boid0) - x (nth i bs boid0)).
  set (dy := y (nth j bs boid0) - y (nth i bs boid0)).
  set (dist := sqrt (dx * dx + dy * dy)).
  destruct (Rltb dist (IZR (Z.quot NEIGHBOR_RADIUS 2))) eqn:Enear.
  - assert (Efar : Rltb dist (IZR NEIGHBOR_RADIUS) = true).
    { apply Rltb_true. apply Rltb_true in Enear.
      rewrite half_radius in Enear. unfold NEIGHBOR_RADIUS in *. lra. }
    rewrite Efar. cbn [andb].
    destruct (Rgtb dist 0); cbn [fst snd avoid_x avoid_y].
    + rewrite Ex, Ey. repeat split; try lia.
    + repeat split; tauto.
  - cbn [andb fst snd].
    destruct (Rltb dist (IZR NEIGHBOR_RADIUS) && Rgtb dist 0);
      cbn [avoid_x avoid_y]; repeat split; tauto.
Qed.

Lemma separation_fold_flock (bs : list Boid) (i : nat) (l : list nat) :
  index (nth i bs boid0) = Z.of_nat i ->
  let s := fold_left (separation_step bs (nth i bs boid0)) l (0, 0, 0%Z) in
  let f := fold_left (flock_scan_step bs i) l accum0 in
  fst (fst s) = avoid_x f /\ snd (fst s) = avoid_y f
  /\ (0 <= snd s)%Z /\ (snd s = 0%Z -> fst (fst s) = 0 /\ snd (fst s) = 0).
Proof.
  intros Hi.
  assert (G : forall (s : R * R * Z) (f : Accum),
             fst (fst s) = avoid_x f /\ snd (fst s) = avoid_y f
             /\ (0 <= snd s)%Z
             /\ (snd s = 0%Z -> fst (fst s) = 0 /\ snd (fst s) = 0) ->
             fst (fst (fold_left (separation_step bs (nth i bs boid0)) l s))
             = avoid_x (fold_left (flock_scan_step bs i) l f)
             /\ snd (fst (fold_left (separation_step bs (nth i bs boid0)) l s))
                = avoid_y (fold_left (flock_scan_step bs i) l f)
             /\ (0 <= snd (fold_left (separation_step bs (nth i bs boid0))
                                     l s))%Z
             /\ (snd (fold_left (separation_step bs (nth i bs boid0)) l s)
                 = 0%Z ->
                 fst (fst (fold_left (separation_step bs (nth i bs boid0))
                                     l s)) = 0
                 /\ snd (fst (fold_left (separation_step bs (nth i bs boid0))
                                        l s)) = 0)).
  { induction l as [ | j l IH]; intros s f H.
    - exact H.
    - cbn [fold_left]. apply IH.
      exact (separation_step_flock bs i j s f Hi H). }
  apply G. cbn [fst snd accum0 avoid_x avoid_y]. repeat split; lia.
Qed.

(** The separation pass adds [weight] times the sum the neighbour scan of
    [update_boids] keeps in [avoid_x] and [avoid_y]. *)
Lemma apply_separation_force_flock (bs : list Boid) (i : nat) (weight : R) :
  index (nth i bs boid0) = Z.of_nat i ->
  (i < length bs)%nat ->
  nth i (apply_separation_force bs i weight) boid0
  = set_velocity
      (vx (nth i bs boid0) + avoid_x (flock_scan bs i) * weight)
      (vy (nth i bs boid0) + avoid_y (flock_scan bs i) * weight)
      (nth i bs boid0)
  /\ forall j, j <> i ->
               nth j (apply_separation_force bs i weight) boid0
               = nth j bs boid0.
Proof.
  intros Hi Hlen. unfold apply_separation_force, flock_scan.
  pose proof (separation_fold_flock bs i (seq 0 NUM_BOIDS) Hi) as H.
  cbv zeta in H. revert H.
  generalize (fold_left (separation_step bs (nth i bs boid0))
                        (seq 0 NUM_BOIDS) (0, 0, 0%Z)).
  generalize (fold_left (flock_scan_step bs i) (seq 0 NUM_BOIDS) accum0).
  intros f [[ax ay] c]. cbn [fst snd]. intros (Ex & Ey & Hc & H0).
  rewrite <- Ex, <- Ey.
  destruct (Z.gtb_spec c 0) as [Hpos | Hzero].
  - split.
    + now rewrite nth_upd_same.
    + intros j Hj. apply nth_upd_other. congruence.
  - split; [ | reflexivity ].
    destruct H0 as [-> ->]; [ lia | ].
    destruct (nth i bs boid0) as [bx by_ bvx bvy btx bty bi].
    unfold set_velocity. cbn [x y vx vy target_x target_y index].
    f_equal; ring.
Qed.

Lemma flock_scan_avoid (bs : list Boid) (i : nat) :
  avoid_x (flock_scan bs i)
  = Rsum (map (fun b => - (x b - x (nth i bs boid0)))
              (spec_close (nth i bs boid0) (spec_neighbors bs i)))
  /\ avoid_y (flock_scan bs i)
     = Rsum (map (fun b => - (y b - y (nth i bs boid0)))
                 (spec_close (nth i bs boid0) (spec_neighbors bs i))).
Proof.
  assert (Hscan := flock_scan_spec bs i). cbv zeta in Hscan.
  unfold spec_neighbors. rewrite Hscan. cbn [avoid_x avoid_y].
  generalize (spec_neighbors_among bs i (seq 0 NUM_BOIDS)). intros ns.
  split; reflexivity.
Qed.

(** X18: the separation pass of the pattern modes is the separation rule of
    normal mode with another weight.  It pushes the agent away from the
    agents nearer than half of [NEIGHBOR_RADIUS]: it adds [weight] times the
    sum of the offsets from each of them to the agent, the sum the neighbour
    scan of [update_boids] keeps in [avoid_x] and [avoid_y]; it writes no
    other agent. *)
Theorem pattern_separation_matches_flocking (bs : list Boid) (i : nat)
  (weight : R) :
  index (nth i bs boid0) = Z.of_nat i ->
  (i < length bs)%nat ->
  let a := nth i bs boid0 in
  let close := spec_close a (spec_neighbors bs i) in
  let push_x := Rsum (map (fun b => - (x b - x a)) close) in
  let push_y := Rsum (map (fun b => - (y b - y a)) close) in
  nth i (apply_separation_force bs i weight) boid0
  = set_velocity (vx a + push_x * weight) (vy a + push_y * weight) a
  /\ avoid_x (flock_scan bs i) = push_x
  /\ avoid_y (flock_scan bs i) = push_y
  /\ forall j, j <> i ->
               nth j (apply_separation_force bs i weight) boid0
               = nth j bs boid0.
Proof.
  intros Hi Hlen. cbv zeta.
  destruct (apply_separation_force_flock bs i weight Hi Hlen) as [E Ho].
  destruct (flock_scan_avoid bs i) as [Ex Ey].
  rewrite <- Ex, <- Ey.
  split; [ exact E | ]. split; [ reflexivity | ].
  split; [ reflexivity | exact Ho ].
Qed.

Lemma pattern_separation_matches_flocking_witness :
  nth 0 (apply_separation_force leftward_boids 4 PATTERN_SEPARATION_WEIGHT)
      boid0
  = nth 0 leftward_boids boid0.
Proof.
  refine (proj2 (proj2 (proj2
            (pattern_separation_matches_flocking leftward_boids 4
               PATTERN_SEPARATION_WEIGHT _ _))) 0%nat _).
  - unfold leftward_boids. rewrite nth_map_seq by (unfold NUM_BOIDS; lia).
    reflexivity.
  - rewrite leftward_boids_length. unfold NUM_BOIDS. lia.
  - discriminate.
Defined.

(** ** The strength of the pull *)

(** X19: an agent that is not at its target is pulled towards it with the
    fixed strength [PATTERN_FORCE], however far the target is: the velocity
    [steer] adds points from the agent to the target and has the length
    [PATTERN_FORCE]. *)
Theorem steering_strength (tx ty : R) (b : Boid) :
  tx <> x b \/ ty <> y b ->
  sqrt ((vx (steer tx ty b) - vx b) * (vx (steer tx ty b) - vx b)
        + (vy (steer tx ty b) - vy b) * (vy (steer tx ty b) - vy b))
  = PATTERN_FORCE
  /\ exists k : R,
       0 < k
       /\ vx (steer tx ty b) - vx b = k * (tx - x b)
       /\ vy (steer tx ty b) - vy b = k * (ty - y b).
Proof.
  intros Hne.
  set (dx := tx - x b). set (dy := ty - y b).
  assert (Hsq : 0 < dx * dx + dy * dy).
  { pose proof (Rle_0_sqr dx) as Hx. pose proof (Rle_0_sqr dy) as Hy.
    unfold Rsqr in Hx, Hy.
    destruct Hne as [H | H].
    - assert (0 < dx * dx) by (apply (Rsqr_pos_lt dx); unfold dx; lra). lra.
    - assert (0 < dy * dy) by (apply (Rsqr_pos_lt dy); unfold dy; lra). lra. }
  assert (Hd : 0 < sqrt (dx * dx + dy * dy)) by now apply sqrt_lt_R0.
  rewrite (steer_far tx ty b Hd). cbn [set_velocity vx vy].
  fold dx dy. set (dist := sqrt (dx * dx + dy * dy)) in *.
  assert (Ed : dist * dist = dx * dx + dy * dy).
  { unfold dist. apply sqrt_sqrt. lra. }
  split.
  - replace ((vx b + dx / dist * PATTERN_FORCE - vx b)
             * (vx b + dx / dist * PATTERN_FORCE - vx b)
             + (vy b + dy / dist * PATTERN_FORCE - vy b)
               * (vy b + dy / dist * PATTERN_FORCE - vy b))
      with (PATTERN_FORCE * PATTERN_FORCE).
    + apply sqrt_square. unfold PATTERN_FORCE. lra.
    + transitivity (PATTERN_FORCE * PATTERN_FORCE
                    * ((dx * dx + dy * dy) / (dist * dist))).
      * rewrite <- Ed. field. lra.
      * field. lra.
  - exists (PATTERN_FORCE / dist). split.
    + apply Rdiv_lt_0_compat; [ unfold PATTERN_FORCE; lra | exact Hd ].
    + split; field; lra.
Qed.

Lemma steering_strength_witness :
  sqrt ((vx (steer 3 4 boid0) - vx boid0) * (vx (steer 3 4 boid0) - vx boid0)
        + (vy (steer 3 4 boid0) - vy boid0)
          * (vy (steer 3 4 boid0) - vy boid0))
  = PATTERN_FORCE.
Proof.
  refine (proj1 (steering_strength 3 4 boid0 _)).
  left. cbn [x boid0]. lra.
Defined.

(** ** [clamp] *)

(** X20: between ordered bounds [clamp] returns a value within the bounds,
    the value itself when it is within them already, and clamping twice is
    clamping once. *)
Theorem clamp_range (value min max : R) :
  min <= max ->
  min <= clamp value min max <= max
  /\ (min <= value <= max -> clamp value min max = value)
  /\ (value < min -> clamp value min max = min)
  /\ (max < value -> clamp value min max = max)
  /\ clamp (clamp value min max) min max = clamp value min max.
Proof.
  intros Hle. unfold clamp, Rgtb.
  destruct (Rltb value min) eqn:E1.
  - apply Rltb_true in E1. rewrite Rltb_irrefl.
    assert (E : Rltb max min = false) by (apply Rltb_false; lra).
    rewrite E. repeat split; intros; lra.
  - apply Rltb_false in E1. destruct (Rltb max value) eqn:E2.
    + apply Rltb_true in E2. rewrite Rltb_irrefl.
      assert (E : Rltb max min = false) by (apply Rltb_false; lra).
      rewrite E. repeat split; intros; lra.
    + assert (E1' : Rltb value min = false) by (apply Rltb_false; lra).
      rewrite E1', E2. apply Rltb_false in E2.
      repeat split; intros; lra.
Qed.

Lemma clamp_range_witness : 0 <= clamp 7 0 4 <= 4.
Proof. apply (clamp_range 7 0 4). lra. Defined.

(** ** The drawing loop *)

Lemma int_of_float_nonneg (r : R) (n : Z) :
  0 <= r < IZR n -> (0 <= int_of_float r < n)%Z.
Proof.
  intros [H0 Hn]. unfold int_of_float.
  assert (E : Rltb r 0 = false) by (apply Rltb_false; lra).
  rewrite E. destruct (base_Int_part r) as [Hl Hu].
  assert (H1 : IZR (-1) < IZR (Int_part r)) by (simpl; lra).
  assert (H2 : IZR (Int_part r) < IZR n) by lra.
  apply lt_IZR in H1, H2. lia.
Qed.

Lemma int_of_float_bound (r : R) (n : Z) :
  - IZR n <= r <= IZR n -> (- n <= int_of_float r <= n)%Z.
Proof.
  intros [Hl Hu]. unfold int_of_float.
  destruct (Rltb r 0) eqn:E.
  - apply Rltb_true in E. destruct (base_Int_part (- r)) as [Hl' Hu'].
    assert (H1 : IZR (-1) < IZR (Int_part (- r))) by (simpl; lra).
    assert (H2 : IZR (Int_part (- r)) <= IZR n) by lra.
    apply lt_IZR in H1. apply le_IZR in H2. lia.
  - apply Rltb_false in E. destruct (base_Int_part r) as [Hl' Hu'].
    assert (H1 : IZR (-1) < IZR (Int_part r)) by (simpl; lra).
    assert (H2 : IZR (Int_part r) <= IZR n) by lra.
    apply lt_IZR in H1. apply le_IZR in H2. lia.
Qed.

Lemma draw_boid_in_window (w h : Z) (b : Boid) :
  in_bounds w h b -> speed b <= MAX_SPEED ->
  segment_in_window w h (draw_boid b).
Proof.
  intros [Hx Hy] Hs. apply component_bound in Hs.
  destruct Hs as [Hvx Hvy]. unfold MAX_SPEED in Hvx, Hvy.
  unfold draw_boid, segment_in_window.
  pose proof (int_of_float_nonneg (x b) w Hx).
  pose proof (int_of_float_nonneg (y b) h Hy).
  assert (Bx : (-16 <= int_of_float (vx b * 4) <= 16)%Z).
  { apply (int_of_float_bound (vx b * 4) 16). lra. }
  assert (By : (-16 <= int_of_float (vy b * 4) <= 16)%Z).
  { apply (int_of_float_bound (vy b * 4) 16). lra. }
  repeat split; lia.
Qed.

Lemma Forall_map_seq {A : Type} (P : A -> Prop) (f : nat -> A) (n : nat) :
  (forall i, (i < n)%nat -> P (f i)) -> Forall P (map f (seq 0 n)).
Proof.
  intros H. apply Forall_map, Forall_forall. intros i Hi.
  apply in_seq in Hi. apply H. lia.
Qed.

Lemma initial_main_in_view (auto : bool) (start w h : Z) (tape : list Z)
  (m0 : Main) :
  (0 < w)%Z -> (0 < h)%Z ->
  rand_range tape ->
  initial_main auto start w h tape = Some m0 ->
  in_view w h m0.
Proof.
  intros Hw Hh Hr E0. unfold initial_main, init_boids in E0.
  destruct (init_boids_from w h NUM_BOIDS 0 tape) as [[bs rest] | ] eqn:E;
    [ | discriminate ].
  injection E0 as <-. unfold in_view. cbn [world width height boids].
  destruct (init_boids_from_tape _ _ _ _ _ _ _ Hr E) as [_ Hlen].
  destruct (init_boids_from_spec _ _ _ _ _ _ _ Hw Hh Hr E) as [Hb _].
  repeat split; assumption.
Qed.

(** X21: what the program draws.  In a window at least [MAX_SPEED] wide and
    high that is not resized, every segment of every frame starts on a pixel
    of the window and ends at most 16 pixels from there in each direction. *)
Theorem run_draws_in_window (auto : bool) (start w h : Z) (tape : list Z)
  (inputs : list (list XEvent * Z)) (m0 m : Main) :
  MAX_SPEED <= IZR w -> MAX_SPEED <= IZR h ->
  rand_range tape ->
  initial_main auto start w h tape = Some m0 ->
  no_resize inputs ->
  inputs <> [] ->
  run m0 inputs = Some m ->
  length (draw_boids (world m)) = NUM_BOIDS
  /\ Forall (segment_in_window w h) (draw_boids (world m)).
Proof.
  intros Hw Hh Hr E0 Hno Hne Er.
  assert (Hw' : (0 < w)%Z) by (apply lt_IZR; unfold MAX_SPEED in Hw; lra).
  assert (Hh' : (0 < h)%Z) by (apply lt_IZR; unfold MAX_SPEED in Hh; lra).
  pose proof (initial_main_in_view auto start w h tape m0 Hw' Hh' Hr E0)
    as Hin0.
  destruct (run_in_view w h Hw Hh inputs m0 m Hno Hin0 Er)
    as [(_ & _ & Hlen & Hb) Hs].
  specialize (Hs Hne). unfold draw_boids.
  split; [ now rewrite length_map, length_seq | ].
  apply Forall_map_seq. intros i Hi. rewrite <- Hlen in Hi.
  rewrite Forall_forall in Hb, Hs.
  apply draw_boid_in_window; [ apply Hb | apply Hs ]; now apply nth_In.
Qed.

Lemma run_draws_in_window_witness :
  exists m0 m : Main,
    initial_main false 0 800 600 (repeat 7%Z (4 * NUM_BOIDS)) = Some m0
    /\ run m0 [([KeyPress XK_l; OtherEvent], 1%Z)] = Some m
    /\ Forall (segment_in_window 800 600) (draw_boids (world m)).
Proof.
  destruct (init_boids_from_total 800 600 NUM_BOIDS 0
              (repeat 7%Z (4 * NUM_BOIDS)))
    as [bs [rest E]]; [ now rewrite repeat_length | ].
  assert (E0 : initial_main false 0 800 600 (repeat 7%Z (4 * NUM_BOIDS))
               = Some (mkMain (mkWorld bs MODE_NORMAL 0 false 0
                                       MODE_LISSAJOUS rest) 800 600)).
  { unfold initial_main, init_boids. now rewrite E. }
  eexists. eexists. split; [ exact E0 | ]. split; [ reflexivity | ].
  refine (proj2 (run_draws_in_window false 0%Z 800 600
                   (repeat 7%Z (4 * NUM_BOIDS))
                   [([KeyPress XK_l; OtherEvent], 1%Z)] _ _ _ _ _ E0 _ _
                   eq_refl)).
  - unfold MAX_SPEED. lra.
  - unfold MAX_SPEED. lra.
  - unfold rand_range. apply Forall_forall. intros r Hin.
    apply repeat_spec in Hin. subst r. unfold RAND_MAX. lia.
  - repeat constructor.
  - discriminate.
Defined.

(** ** Divisions *)

Lemma checked_div_nonzero (a b : R) : b <> 0 -> checked_div a b = Some (a / b).
Proof.
  intros H. unfold checked_div. destruct (Req_dec_T b 0); [ contradiction | ].
  reflexivity.
Qed.

(** X22: no division of a tick by a computed divisor is a division by zero.
    [limit_speed] divides by a speed above [MAX_SPEED], the flocking rule by
    a positive neighbour count, the steering by a positive distance, and the
    quotient [(R-r)*t/r] of the hypocycloid and of the spirograph has a
    positive divisor in a viewport of positive width and height. *)
Theorem tick_divisions_defined (w h : Z) :
  (0 < w)%Z -> (0 < h)%Z ->
  (forall b : Boid, limit_speed_checked b = Some (limit_speed b))
  /\ (forall (bs : list Boid) (i : nat),
         flock_boid_checked bs i = Some (flock_boid bs i))
  /\ (forall (tx ty : R) (b : Boid),
         steer_checked tx ty b = Some (steer tx ty b))
  /\ (forall t : R,
         hypocycloid_angle_checked t w h
         = Some ((get_scale_factor w h - get_scale_factor w h / 4) * t
                 / (get_scale_factor w h / 4)))
  /\ (forall t : R,
         spirograph_angle_checked t w h
         = Some ((get_scale_factor w h * 0.8
                  - get_scale_factor w h * 0.8 * 0.4) * t
                 / (get_scale_factor w h * 0.8 * 0.4))).
Proof.
  intros Hw Hh.
  assert (Hs : 0 < get_scale_factor w h).
  { unfold get_scale_factor. apply IZR_lt in Hw, Hh.
    assert (0 < Rmin (IZR w) (IZR h)) by (apply Rmin_glb_lt; assumption).
    lra. }
  split; [ | split; [ | split; [ exact steer_checked_total | split ] ] ].
  - intros b. unfold limit_speed_checked, limit_speed, Rgtb.
    destruct (Rltb MAX_SPEED (sqrt (vx b * vx b + vy b * vy b))) eqn:E;
      [ | reflexivity ].
    apply Rltb_true in E. unfold MAX_SPEED in E.
    rewrite !checked_div_nonzero by lra. reflexivity.
  - intros bs i. unfold flock_boid_checked, flock_boid.
    generalize (flock_scan bs i). intros acc.
    destruct (Z.gtb_spec (count acc) 0) as [Hc | Hc]; [ | reflexivity ].
    apply IZR_lt in Hc. rewrite !checked_div_nonzero by lra. reflexivity.
  - intros t. unfold hypocycloid_angle_checked.
    rewrite checked_div_nonzero by lra. reflexivity.
  - intros t. unfold spirograph_angle_checked.
    rewrite checked_div_nonzero by lra. reflexivity.
Qed.

Lemma tick_divisions_defined_witness :
  hypocycloid_angle_checked 1 800 600
  = Some ((get_scale_factor 800 600 - get_scale_factor 800 600 / 4) * 1
          / (get_scale_factor 800 600 / 4)).
Proof.
  refine (proj1 (proj2 (proj2 (proj2 (tick_divisions_defined 800 600 _ _))))
            1); lia.
Defined.

(** ** The force phase of the pattern modes, in closed form *)

Lemma flock_scan_step_upd (bs : list Boid) (i : nat) (f : Boid -> Boid)
  (acc : Accum) (j : nat) :
  (forall b, x (f b) = x b /\ y (f b) = y b) ->
  flock_scan_step (upd i f bs) i acc j = flock_scan_step bs i acc j.
Proof.
  intros Hf. unfold flock_scan_step.
  destruct (Nat.eqb_spec i j) as [-> | Hne]; [ reflexivity | ].
  rewrite (nth_upd_other i j f bs boid0 Hne).
  destruct (Nat.lt_ge_cases i (length bs)) as [Hlt | Hge].
  - rewrite (nth_upd_same i f bs boid0 Hlt).
    destruct (Hf (nth i bs boid0)) as [-> ->]. reflexivity.
  - rewrite (upd_overflow i f bs) by exact Hge. reflexivity.
Qed.

Lemma flock_scan_upd (bs : list Boid) (i : nat) (f : Boid -> Boid) :
  (forall b, x (f b) = x b /\ y (f b) = y b) ->
  flock_scan (upd i f bs) i = flock_scan bs i.
Proof.
  intros Hf. unfold flock_scan. generalize accum0.
  generalize (seq 0 NUM_BOIDS). intros l.
  induction l as [ | j l IH]; intros acc; cbn [fold_left].
  - reflexivity.
  - rewrite IH. f_equal. now apply flock_scan_step_upd.
Qed.

(** X23: the force phase of a pattern mode in closed form.  For an agent off
    its target the new velocity is the old one, plus the pull of strength
    [PATTERN_FORCE] towards the target point of the curve, plus
    [PATTERN_SEPARATION_WEIGHT] times the separation sum of the positions
    before the call; the position stays, and so does every other agent. *)
Theorem pattern_force_closed_form (m : FlockingMode) (ptime : R) (w h : Z)
  (bs : list Boid) (i : nat) (tx ty : R) :
  index (nth i bs boid0) = Z.of_nat i ->
  (i < length bs)%nat ->
  pattern_target m (pattern_param (nth i bs boid0) ptime) w h
  = Some (tx, ty) ->
  tx <> x (nth i bs boid0) \/ ty <> y (nth i bs boid0) ->
  let A := nth i bs boid0 in
  let dist :=
    sqrt ((tx - x A) * (tx - x A) + (ty - y A) * (ty - y A)) in
  nth i (apply_pattern_force m ptime w h bs i) boid0
  = set_velocity
      (vx A + (tx - x A) / dist * PATTERN_FORCE
       + avoid_x (flock_scan bs i) * PATTERN_SEPARATION_WEIGHT)
      (vy A + (ty - y A) / dist * PATTERN_FORCE
       + avoid_y (flock_scan bs i) * PATTERN_SEPARATION_WEIGHT) A
  /\ forall j, j <> i ->
               nth j (apply_pattern_force m ptime w h bs i) boid0
               = nth j bs boid0.
Proof.
  intros Hi Hlen Et Hne A dist. unfold apply_pattern_force. rewrite Et.
  assert (Hd : 0 < dist).
  { unfold dist. apply sqrt_lt_R0.
    pose proof (Rle_0_sqr (tx - x A)) as Hx.
    pose proof (Rle_0_sqr (ty - y A)) as Hy. unfold Rsqr in Hx, Hy.
    destruct Hne as [H | H].
    - assert (0 < (tx - x A) * (tx - x A))
        by (apply (Rsqr_pos_lt (tx - x A)); unfold A; lra). lra.
    - assert (0 < (ty - y A) * (ty - y A))
        by (apply (Rsqr_pos_lt (ty - y A)); unfold A; lra). lra. }
  assert (En : nth i (upd i (steer tx ty) bs) boid0 = steer tx ty A)
    by now apply nth_upd_same.
  destruct (apply_separation_force_flock (upd i (steer tx ty) bs) i
              PATTERN_SEPARATION_WEIGHT) as [E Ho].
  - rewrite En. unfold steer. destruct (Rgtb _ _); exact Hi.
  - now rewrite length_upd.
  - split.
    + rewrite E, En, (flock_scan_upd bs i (steer tx ty))
        by apply steer_position.
      fold A. rewrite (steer_far tx ty A Hd). reflexivity.
    + intros j Hj. rewrite (Ho j Hj). apply nth_upd_other. congruence.
Qed.

Lemma pattern_force_closed_form_witness :
  nth 1 (apply_pattern_force MODE_LISSAJOUS 0 800 600 resting_boids 0) boid0
  = nth 1 resting_boids boid0.
Proof.
  refine (proj2 (pattern_force_closed_form MODE_LISSAJOUS 0 800 600
                   resting_boids 0
                   (fst (calculate_lissajous_position
                           (pattern_param (nth 0 resting_boids boid0) 0)
                           800 600))
                   (snd (calculate_lissajous_position
                           (pattern_param (nth 0 resting_boids boid0) 0)
                           800 600))
                   eq_refl _ eq_refl _) 1%nat _).
  - unfold resting_boids. rewrite length_map, length_seq.
    unfold NUM_BOIDS. lia.
  - left. unfold resting_boids.
    rewrite nth_map_seq by (unfold NUM_BOIDS; lia).
    cbn [fst calculate_lissajous_position x].
    change (Z.quot 800 2) with 400%Z.
    assert (B : -1 <= sin (3 * pattern_param (mkBoid 0 0 0 0 0 0 (Z.of_nat 0)) 0)
                <= 1) by apply SIN_bound.
    rewrite get_scale_factor_800_600. nra.
  - discriminate.
Defined.

(** ** Closed curves *)

Lemma sin_shift (a c : R) (k : nat) :
  c = INR k -> sin (a + c * (2 * PI)) = sin a.
Proof.
  intros ->. replace (a + INR k * (2 * PI)) with (a + 2 * INR k * PI) by ring.
  apply sin_period.
Qed.

Lemma cos_shift (a c : R) (k : nat) :
  c = INR k -> cos (a + c * (2 * PI)) = cos a.
Proof.
  intros ->. replace (a + INR k * (2 * PI)) with (a + 2 * INR k * PI) by ring.
  apply cos_period.
Qed.

Ltac shift_sin u a c k :=
  replace (sin u) with (sin a)
    by (symmetry; rewrite <- (sin_shift a c k)
          by (rewrite INR_IZR_INZ; reflexivity);
        f_equal; unfold Q2R; cbn [QArith_base.Qnum QArith_base.Qden];
        field; lra).

Ltac shift_cos u a c k :=
  replace (cos u) with (cos a)
    by (symmetry; rewrite <- (cos_shift a c k)
          by (rewrite INR_IZR_INZ; reflexivity);
        f_equal; unfold Q2R; cbn [QArith_base.Qnum QArith_base.Qden];
        field; lra).

(** X24: all curves but the Fermat spiral are closed: the target point of a
    pattern repeats when the curve parameter advances by the period of the
    pattern, [2 PI] for the Lissajous curve, the rose, the hypocycloid and
    the cardioid, [4 PI] for the spirograph, [24 PI] for the butterfly and
    360 for the Maurer rose. *)
Theorem curves_are_closed (m : FlockingMode) (t : R) (w h : Z) :
  is_pattern m = true ->
  m <> MODE_FERMAT_SPIRAL ->
  (0 < w)%Z -> (0 < h)%Z ->
  pattern_target m (t + curve_period m) w h = pattern_target m t w h.
Proof.
  intros Hm Hf Hw Hh.
  assert (Hs : 0 < get_scale_factor w h).
  { unfold get_scale_factor. apply IZR_lt in Hw, Hh.
    assert (0 < Rmin (IZR w) (IZR h)) by (apply Rmin_glb_lt; assumption).
    lra. }
  destruct m; try discriminate Hm; try contradiction;
    cbn [pattern_target curve_period]; f_equal.
  - unfold calculate_lissajous_position. cbv zeta.
    shift_sin (3 * (t + 2 * PI)) (3 * t) 3 3%nat.
    shift_sin (2 * (t + 2 * PI) + PI / 2) (2 * t + PI / 2) 2 2%nat.
    reflexivity.
  - unfold calculate_rose_position. cbv zeta.
    shift_sin (3 * (t + 2 * PI)) (3 * t) 3 3%nat.
    shift_sin (t + 2 * PI) t 1 1%nat.
    shift_cos (t + 2 * PI) t 1 1%nat.
    reflexivity.
  - unfold calculate_hypocycloid_position. cbv zeta.
    set (sc := get_scale_factor w h) in *.
    shift_sin ((sc - sc / 4) * (t + 2 * PI) / (sc / 4))
              ((sc - sc / 4) * t / (sc / 4)) 3 3%nat.
    shift_cos ((sc - sc / 4) * (t + 2 * PI) / (sc / 4))
              ((sc - sc / 4) * t / (sc / 4)) 3 3%nat.
    shift_sin (t + 2 * PI) t 1 1%nat.
    shift_cos (t + 2 * PI) t 1 1%nat.
    reflexivity.
  - unfold calculate_butterfly_position. cbv zeta.
    shift_cos (4 * (t + 24 * PI)) (4 * t) 48 48%nat.
    shift_sin ((t + 24 * PI) / 12) (t / 12) 1 1%nat.
    shift_sin (t + 24 * PI) t 12 12%nat.
    shift_cos (t + 24 * PI) t 12 12%nat.
    reflexivity.
  - unfold calculate_maurer_rose_position. cbv zeta.
    shift_sin (7 * ((t + 360) * 71) * PI / 180) (7 * (t * 71) * PI / 180)
              497 497%nat.
    shift_sin ((t + 360) * 71 * PI / 180) (t * 71 * PI / 180) 71 71%nat.
    shift_cos ((t + 360) * 71 * PI / 180) (t * 71 * PI / 180) 71 71%nat.
    reflexivity.
  - unfold calculate_spirograph_position. cbv zeta.
    set (sc := get_scale_factor w h) in *.
    shift_sin ((sc * 0.8 - sc * 0.8 * 0.4) * (t + 4 * PI)
               / (sc * 0.8 * 0.4))
              ((sc * 0.8 - sc * 0.8 * 0.4) * t / (sc * 0.8 * 0.4)) 3 3%nat.
    shift_cos ((sc * 0.8 - sc * 0.8 * 0.4) * (t + 4 * PI)
               / (sc * 0.8 * 0.4))
              ((sc * 0.8 - sc * 0.8 * 0.4) * t / (sc * 0.8 * 0.4)) 3 3%nat.
    shift_sin (t + 4 * PI) t 2 2%nat.
    shift_cos (t + 4 * PI) t 2 2%nat.
    reflexivity.
  - unfold calculate_cardioid_position. cbv zeta.
    shift_sin (t + 2 * PI) t 1 1%nat.
    shift_cos (t + 2 * PI) t 1 1%nat.
    reflexivity.
Qed.

Lemma curves_are_closed_witness :
  pattern_target MODE_BUTTERFLY (1 + curve_period MODE_BUTTERFLY) 800 600
  = pattern_target MODE_BUTTERFLY 1 800 600.
Proof.
  apply (curves_are_closed MODE_BUTTERFLY 1 800 600);
    [ reflexivity | discriminate | lia | lia ].
Defined.

(** ** After the window has shrunk *)

Section Resize.

Variables w h : Z.
Hypothesis wide : MAX_SPEED < IZR w.
Hypothesis high : MAX_SPEED < IZR h.

(** The single wrap brings a coordinate beyond the viewport nearer by the
    size of the viewport less the step. *)
Lemma integrate_wrap_box (bx by_ : R) (b : Boid) :
  IZR w <= bx -> IZR h <= by_ ->
  in_box (bx + (IZR w - MAX_SPEED)) (by_ + (IZR h - MAX_SPEED)) b ->
  - MAX_SPEED <= vx b <= MAX_SPEED ->
  - MAX_SPEED <= vy b <= MAX_SPEED ->
  in_box bx by_ (integrate_wrap w h b).
Proof.
  unfold in_box, integrate_wrap, Rgeb. unfold MAX_SPEED in *.
  intros Hbx Hby [Hx Hy] Hvx Hvy. cbn [set_position x y].
  split; repeat case_Rltb; simpl; lra.
Qed.

Lemma update_boid_box (m : FlockingMode) (ptime : R) (bx by_ : R)
  (bs : list Boid) (i : nat) :
  IZR w <= bx -> IZR h <= by_ ->
  (i < length bs)%nat ->
  in_box (bx + (IZR w - MAX_SPEED)) (by_ + (IZR h - MAX_SPEED))
         (nth i bs boid0) ->
  in_box bx by_ (nth i (update_boid m ptime w h bs i) boid0).
Proof.
  intros Hbx Hby Hi Hin. unfold update_boid.
  destruct (force_phase_shape m ptime w h bs i) as (Hlen & _ & Hx & Hy).
  cbv zeta in Hlen, Hx, Hy.
  set (bs1 := if mode_eqb m MODE_NORMAL then _ else _) in *.
  rewrite nth_upd_same by (rewrite Hlen; exact Hi).
  destruct (limit_speed_position (nth i bs1 boid0)) as [Elx Ely].
  destruct (component_bound (limit_speed (nth i bs1 boid0))
              (limit_speed_bound _)) as [Hvx Hvy].
  apply integrate_wrap_box; try assumption.
  unfold in_box in *. rewrite Elx, Ely, Hx, Hy. exact Hin.
Qed.

Lemma fold_update_boid_box (m : FlockingMode) (ptime : R) (bx by_ : R)
  (n j : nat) (bs : list Boid) :
  IZR w <= bx -> IZR h <= by_ ->
  (j < n)%nat -> (j < length bs)%nat ->
  in_box (bx + (IZR w - MAX_SPEED)) (by_ + (IZR h - MAX_SPEED))
         (nth j bs boid0) ->
  in_box bx by_
         (nth j (fold_left (update_boid m ptime w h) (seq 0 n) bs) boid0).
Proof.
  intros Hbx Hby Hj Hlen Hin.
  destruct (fold_update_boid_in_place m ptime w h n j bs Hj)
    as (E & Hold & _).
  rewrite E. apply update_boid_box; try assumption.
  - now rewrite fold_update_boid_length.
  - now rewrite (Hold j (Nat.le_refl j)).
Qed.

Lemma update_boids_box (bx by_ : R) (s : World) :
  IZR w <= bx -> IZR h <= by_ ->
  length (boids s) = NUM_BOIDS ->
  Forall (in_box (bx + (IZR w - MAX_SPEED)) (by_ + (IZR h - MAX_SPEED)))
         (boids s) ->
  Forall (in_box bx by_) (boids (update_boids w h s)).
Proof.
  intros Hbx Hby Hlen Hall. apply Forall_nth_boid. intros j Hj.
  rewrite update_boids_length in Hj.
  unfold update_boids. cbn [boids].
  apply fold_update_boid_box; try assumption.
  - now rewrite <- Hlen.
  - rewrite Forall_forall in Hall. apply Hall. now apply nth_In.
Qed.

Lemma frame_box (bx by_ : R) (m m' : Main) (input : list XEvent * Z) :
  IZR w <= bx -> IZR h <= by_ ->
  forallb (fun e => negb (is_resize e)) (fst input) = true ->
  width m = w -> height m = h ->
  length (boids (world m)) = NUM_BOIDS ->
  Forall (in_box (bx + (IZR w - MAX_SPEED)) (by_ + (IZR h - MAX_SPEED)))
         (boids (world m)) ->
  frame m input = Some m' ->
  width m' = w /\ height m' = h
  /\ length (boids (world m')) = NUM_BOIDS
  /\ Forall (in_box bx by_) (boids (world m')).
Proof.
  destruct input as [events now]. cbn [fst].
  intros Hbx Hby Hno Hw Hh Hlen Hall. unfold frame.
  destruct (handle_events_view events m Hno) as (Eb & Ew & Eh).
  destruct (check_auto_mode_timing now _) as [s | ] eqn:Ec; [ | discriminate ].
  apply check_auto_mode_timing_boids in Ec. rewrite Eb in Ec.
  intros [= <-]. cbn [world width height]. rewrite Ew, Eh, Hw, Hh.
  split; [ reflexivity | ]. split; [ reflexivity | ]. split.
  - now rewrite update_boids_length, Ec.
  - apply update_boids_box; try assumption; now rewrite Ec.
Qed.

(** X25: agents beyond the bounds of the window, as a resize to a smaller
    window leaves them, come back.  The wrap of a tick subtracts the width or
    the height once, so in a window more than [MAX_SPEED] wide and high each
    tick brings a coordinate beyond the window nearer by at least the size
    of the window less [MAX_SPEED]: agents within
    [w + n * (w - MAX_SPEED)] by [h + n * (h - MAX_SPEED)] are all within the
    bounds of the window after [n] frames without a resize. *)
Theorem shrunk_window_recovers (m m' : Main)
  (inputs : list (list XEvent * Z)) :
  width m = w -> height m = h ->
  length (boids (world m)) = NUM_BOIDS ->
  no_resize inputs ->
  Forall (in_box (IZR w + INR (length inputs) * (IZR w - MAX_SPEED))
                 (IZR h + INR (length inputs) * (IZR h - MAX_SPEED)))
         (boids (world m)) ->
  run m inputs = Some m' ->
  Forall (in_bounds w h) (boids (world m')).
Proof.
  unfold no_resize. revert m.
  induction inputs as [ | input inputs IH]; intros m Hw Hh Hlen Hno Hall.
  - intros [= <-]. cbn [length INR] in Hall.
    rewrite !Rmult_0_l, !Rplus_0_r in Hall. exact Hall.
  - apply Forall_cons_iff in Hno. destruct Hno as [Hi Hrest]. cbn [run].
    destruct (frame m input) as [m1 | ] eqn:Ef; [ | discriminate ].
    change (length (input :: inputs)) with (S (length inputs)) in Hall.
    rewrite S_INR in Hall.
    assert (Hn : 0 <= INR (length inputs)) by apply pos_INR.
    destruct (frame_box
                (IZR w + INR (length inputs) * (IZR w - MAX_SPEED))
                (IZR h + INR (length inputs) * (IZR h - MAX_SPEED))
                m m1 input) as (Hw1 & Hh1 & Hlen1 & Hall1);
      try assumption.
    + nra.
    + nra.
    + replace (IZR w + INR (length inputs) * (IZR w - MAX_SPEED)
               + (IZR w - MAX_SPEED))
        with (IZR w + (INR (length inputs) + 1) * (IZR w - MAX_SPEED))
        by ring.
      replace (IZR h + INR (length inputs) * (IZR h - MAX_SPEED)
               + (IZR h - MAX_SPEED))
        with (IZR h + (INR (length inputs) + 1) * (IZR h - MAX_SPEED))
        by ring.
      exact Hall.
    + now apply IH.
Qed.

End Resize.

Lemma stranded_boids_nth (j : nat) :
  (j < NUM_BOIDS)%nat ->
  nth j stranded_boids boid0 = mkBoid 700 500 0 0 700 500 (Z.of_nat j).
Proof. intros Hj. unfold stranded_boids. now rewrite nth_map_seq. Qed.

Lemma shrunk_window_recovers_witness :
  exists m' : Main,
    run stranded_main [([KeyPress XK_c], 0%Z); ([], 0%Z)] = Some m'
    /\ Forall (in_bounds 400 300) (boids (world m')).
Proof.
  eexists. split; [ reflexivity | ].
  refine (shrunk_window_recovers 400 300 _ _ stranded_main _
            [([KeyPress XK_c], 0%Z); ([], 0%Z)] eq_refl eq_refl _ _ _
            eq_refl).
  - unfold MAX_SPEED. lra.
  - unfold MAX_SPEED. lra.
  - cbn [stranded_main world boids]. unfold stranded_boids.
    now rewrite length_map, length_seq.
  - repeat constructor.
  - cbn [stranded_main world boids]. apply Forall_nth_boid. intros j Hj.
    unfold stranded_boids in Hj. rewrite length_map, length_seq in Hj.
    rewrite (stranded_boids_nth j Hj). unfold in_box, MAX_SPEED.
    cbn [x y length INR]. lra.
Defined.

(** ** Normal mode, on the whole tick *)

Lemma boid_eq (a b : Boid) :
  x a = x b -> y a = y b -> vx a = vx b -> vy a = vy b ->
  target_x a = target_x b -> target_y a = target_y b -> index a = index b ->
  a = b.
Proof. destruct a, b. cbn. intros. subst. reflexivity. Qed.

(** The force phase writes the velocity of the model and nothing else. *)
Lemma flock_boid_model (bs : list Boid) (i : nat) :
  flock_boid bs i
  = set_velocity (fst (spec_flock_velocity bs i))
                 (snd (spec_flock_velocity bs i)) (nth i bs boid0).
Proof.
  pose proof (flock_boid_velocity bs i) as Hv.
  destruct (flock_boid_position bs i) as [Hx Hy].
  pose proof (flock_boid_identity bs i) as Hi.
  revert Hv Hx Hy Hi.
  generalize (spec_flock_velocity bs i). generalize (flock_boid bs i).
  intros fb [v1 v2] Hv Hx Hy Hi. injection Hv as Hv1 Hv2.
  unfold identity in Hi. injection Hi as Hi1 Hi2 Hi3.
  apply boid_eq; cbn [set_velocity x y vx vy target_x target_y index fst snd];
    assumption.
Qed.

(** In a world in normal mode the tick leaves agent [i] with the velocity of
    the model, read off the array as the loop finds it, clamped, and moves
    it by that velocity. *)
Lemma fold_update_boid_normal (ptime : R) (w h : Z) (n i : nat)
  (bs0 : list Boid) :
  (i < n)%nat -> (i < length bs0)%nat ->
  let bs := fold_left (update_boid MODE_NORMAL ptime w h) (seq 0 i) bs0 in
  nth i (fold_left (update_boid MODE_NORMAL ptime w h) (seq 0 n) bs0) boid0
  = integrate_wrap w h
      (limit_speed
         (set_velocity (fst (spec_flock_velocity bs i))
                       (snd (spec_flock_velocity bs i)) (nth i bs boid0))).
Proof.
  intros Hi Hlen bs.
  destruct (fold_update_boid_in_place MODE_NORMAL ptime w h n i bs0 Hi)
    as (E & _ & _).
  rewrite E. fold bs. rewrite update_boid_normal.
  assert (Hl : (i < length bs)%nat).
  { unfold bs. now rewrite fold_update_boid_length. }
  rewrite nth_upd_same by (now rewrite length_upd).
  rewrite nth_upd_same by exact Hl.
  now rewrite flock_boid_model.
Qed.

(** C3: in normal mode the velocity update of [update_boids] is the
    three-rule flocking model.  For every array and agent the force phase
    gives the velocity the model gives from the agents at a distance [d] with
    [0 < d < NEIGHBOR_RADIUS] (the separation taken over those at
    [d < NEIGHBOR_RADIUS / 2]) and writes nothing else; an agent without
    neighbours is left as it is.  And a tick of [update_boids] on a world in
    [MODE_NORMAL] leaves agent [i] with that velocity, computed on the array
    as the loop finds it (the agents before [i] already updated, the others
    not yet), clamped by [limit_speed], and moves it by [integrate_wrap]. *)
Theorem normal_mode_is_three_rule_flocking :
  (forall (bs : list Boid) (i : nat),
      (vx (flock_boid bs i), vy (flock_boid bs i)) = spec_flock_velocity bs i
      /\ x (flock_boid bs i) = x (nth i bs boid0)
      /\ y (flock_boid bs i) = y (nth i bs boid0)
      /\ (spec_neighbors bs i = [] -> flock_boid bs i = nth i bs boid0)
      /\ flock_boid bs i
         = set_velocity (fst (spec_flock_velocity bs i))
                        (snd (spec_flock_velocity bs i)) (nth i bs boid0))
  /\ (forall (bs : list Boid) (i : nat) (ptime : R) (w h : Z),
         update_boid MODE_NORMAL ptime w h bs i
         = upd i (fun b => integrate_wrap w h (limit_speed b))
               (upd i (fun _ => flock_boid bs i) bs))
  /\ (forall (w h : Z) (s : World) (i : nat),
         current_mode s = MODE_NORMAL ->
         length (boids s) = NUM_BOIDS ->
         (i < NUM_BOIDS)%nat ->
         let bs :=
           fold_left (update_boid MODE_NORMAL (pattern_time s) w h)
                     (seq 0 i) (boids s) in
         (forall j, (i <= j)%nat -> nth j bs boid0 = nth j (boids s) boid0)
         /\ (forall j, (j < i)%nat ->
                       nth j bs boid0
                       = nth j (boids (update_boids w h s)) boid0)
         /\ nth i (boids (update_boids w h s)) boid0
            = integrate_wrap w h
                (limit_speed
                   (set_velocity (fst (spec_flock_velocity bs i))
                                 (snd (spec_flock_velocity bs i))
                                 (nth i bs boid0)))).
Proof.
  split; [ | split ].
  - intros bs i.
    split; [ apply flock_boid_velocity | ].
    split; [ apply flock_boid_position | ].
    split; [ apply flock_boid_position | ].
    split; [ apply flock_boid_alone | apply flock_boid_model ].
  - intros bs i ptime w h. apply update_boid_normal.
  - intros w h s i Hmode Hlen Hi. cbv zeta.
    unfold update_boids. cbn [boids]. rewrite Hmode.
    destruct (fold_update_boid_in_place MODE_NORMAL (pattern_time s) w h
                NUM_BOIDS i (boids s) Hi) as (_ & Hold & Hnew).
    split; [ exact Hold | ]. split; [ exact Hnew | ].
    apply fold_update_boid_normal; [ exact Hi | ]. now rewrite Hlen.
Qed.

(** *** A pair of neighbours *)

Lemma paired_boids_length : length paired_boids = NUM_BOIDS.
Proof. unfold paired_boids. now rewrite length_map, length_seq. Qed.

Lemma paired_boids_nth (j : nat) :
  (j < NUM_BOIDS)%nat ->
  nth j paired_boids boid0
  = if Nat.eqb j 1 then mkBoid 10 0 1 0 10 0 1
    else mkBoid 0 0 0 0 0 0 (Z.of_nat j).
Proof. intros Hj. unfold paired_boids. now rewrite nth_map_seq. Qed.

Lemma seq_NUM_BOIDS_2 :
  seq 0 NUM_BOIDS = 0%nat :: 1%nat :: seq 2 (pred (pred NUM_BOIDS)).
Proof. reflexivity. Qed.

Lemma paired_boids_others (n : nat) :
  (2 + n <= NUM_BOIDS)%nat ->
  spec_neighbors_among paired_boids 0 (seq 2 n) = [].
Proof.
  intros Hn.
  assert (H0 : nth 0 paired_boids boid0 = mkBoid 0 0 0 0 0 0 0).
  { rewrite paired_boids_nth by (unfold NUM_BOIDS; lia). reflexivity. }
  assert (G : forall l : list nat,
             (forall j, In j l -> (2 <= j < NUM_BOIDS)%nat) ->
             spec_neighbors_among paired_boids 0 l = []).
  { induction l as [ | j l IH]; intros Hl; [ reflexivity | ].
    rewrite spec_neighbors_among_cons.
    assert (Hj : (2 <= j < NUM_BOIDS)%nat) by (apply Hl; now left).
    assert (E : is_spec_neighbor paired_boids 0 j = false).
    { unfold is_spec_neighbor, distance.
      rewrite H0, (paired_boids_nth j) by lia.
      replace (Nat.eqb j 1) with false
        by (symmetry; apply Nat.eqb_neq; lia).
      cbn [x y].
      replace ((0 - 0) * (0 - 0) + (0 - 0) * (0 - 0)) with 0 by ring.
      rewrite sqrt_0, Rltb_irrefl. now rewrite andb_false_r. }
    rewrite E. apply IH. intros k Hk. apply Hl. now right. }
  apply G. intros j Hj. apply in_seq in Hj. lia.
Qed.

Lemma paired_distance :
  distance (mkBoid 0 0 0 0 0 0 0) (mkBoid 10 0 1 0 10 0 1) = 10.
Proof.
  unfold distance. cbn [x y].
  replace ((10 - 0) * (10 - 0) + (0 - 0) * (0 - 0)) with (10 * 10) by ring.
  apply sqrt_square. lra.
Qed.

Lemma paired_neighbors :
  spec_neighbors paired_boids 0 = [mkBoid 10 0 1 0 10 0 1].
Proof.
  unfold spec_neighbors. rewrite seq_NUM_BOIDS_2.
  rewrite !spec_neighbors_among_cons.
  rewrite paired_boids_others by (unfold NUM_BOIDS; cbn [pred]; lia).
  assert (E0 : is_spec_neighbor paired_boids 0 0 = false) by reflexivity.
  assert (E1 : is_spec_neighbor paired_boids 0 1 = true).
  { unfold is_spec_neighbor.
    rewrite (paired_boids_nth 0), (paired_boids_nth 1)
      by (unfold NUM_BOIDS; lia).
    cbn [Nat.eqb Z.of_nat negb andb]. rewrite paired_distance.
    assert (T1 : Rltb 0 10 = true) by (apply Rltb_true; lra).
    assert (T2 : Rltb 10 (IZR NEIGHBOR_RADIUS) = true)
      by (apply Rltb_true; unfold NEIGHBOR_RADIUS; lra).
    now rewrite T1, T2. }
  rewrite E0, E1.
  rewrite (paired_boids_nth 1) by (unfold NUM_BOIDS; lia). reflexivity.
Qed.

(** Alignment 0.05, cohesion 0.1, separation -1.5. *)
Lemma paired_flock_velocity :
  spec_flock_velocity paired_boids 0 = (-1.35, 0).
Proof.
  unfold spec_flock_velocity. rewrite paired_neighbors.
  rewrite (paired_boids_nth 0) by (unfold NUM_BOIDS; lia).
  cbn [Nat.eqb Z.of_nat length]. rewrite spec_close_cons, paired_distance.
  assert (T : Rltb 10 (IZR NEIGHBOR_RADIUS / 2) = true)
    by (apply Rltb_true; unfold NEIGHBOR_RADIUS; lra).
  rewrite T.
  cbn [spec_close filter map Rsum fold_right x y vx vy INR].
  unfold ALIGNMENT_WEIGHT, COHESION_WEIGHT, SEPARATION_WEIGHT.
  f_equal; lra.
Qed.

Lemma normal_mode_is_three_rule_flocking_witness :
  spec_neighbors paired_boids 0 = [mkBoid 10 0 1 0 10 0 1]
  /\ nth 0 (boids (update_boids 800 600 paired_world)) boid0
     = mkBoid 798.65 0 (-1.35) 0 0 0 0.
Proof.
  split; [ exact paired_neighbors | ].
  rewrite (proj2 (proj2 (proj2 (proj2 normal_mode_is_three_rule_flocking)
                           800%Z 600%Z paired_world 0%nat eq_refl
                           paired_boids_length
                           ltac:(unfold NUM_BOIDS; lia)))).
  cbn [seq fold_left boids paired_world].
  rewrite paired_flock_velocity.
  rewrite (paired_boids_nth 0) by (unfold NUM_BOIDS; lia).
  cbn [Nat.eqb Z.of_nat fst snd]. unfold set_velocity.
  cbn [x y vx vy target_x target_y index].
  rewrite limit_speed_under.
  - unfold integrate_wrap, Rgeb, set_position.
    cbn [x y vx vy target_x target_y index].
    repeat case_Rltb; cbn [negb]; try lra.
    apply boid_eq; cbn [x y vx vy target_x target_y index]; lra || reflexivity.
  - pose proof (speed_nonneg (mkBoid 0 0 (-1.35) 0 0 0 0)) as H0.
    pose proof (speed_square (mkBoid 0 0 (-1.35) 0 0 0 0)) as H1.
    cbn [vx vy] in H1. unfold MAX_SPEED. nra.
Defined.

(** ** The tick and the scheduler, between two transitions *)

(** X1: the tick writes the Pattern Clock and nothing else of the
    scheduler.  In auto mode, over [n] frames whose clock readings are
    within the dwell time of the mode, whatever the events, the mode, the
    time of the last transition, the remembered pattern and the state of
    [rand()] stay as they are, and [pattern_time] advances by [n * 0.01] in
    a pattern mode and not at all in [MODE_NORMAL]. *)
Theorem pattern_clock_between_transitions (m : Main)
  (inputs : list (list XEvent * Z)) :
  auto_mode (world m) = true ->
  Forall (fun input =>
            (to_int (snd input - last_mode_change (world m))
             < (if mode_eqb (current_mode (world m)) MODE_NORMAL
                then BOIDS_TIME else PATTERN_TIME))%Z) inputs ->
  exists m', run m inputs = Some m'
             /\ current_mode (world m') = current_mode (world m)
             /\ scheduler (world m') = scheduler (world m)
             /\ pattern_time (world m')
                = pattern_time (world m)
                  + (if is_pattern (current_mode (world m))
                     then INR (length inputs) * 0.01 else 0).
Proof.
  revert m. induction inputs as [ | [events now] inputs IH];
    intros m Hauto Hall.
  - exists m. split; [ reflexivity | ]. split; [ reflexivity | ].
    split; [ reflexivity | ]. cbn [length INR].
    destruct (is_pattern _); lra.
  - apply Forall_cons_iff in Hall. destruct Hall as [Hnow Hrest].
    cbn [snd] in Hnow.
    destruct (frame_auto_total m events now (world m) Hauto
                (check_auto_mode_timing_idle now (world m) Hnow))
      as [m1 [Ef Ew]].
    destruct (IH m1) as [m' (Er & Hm & Hs & Hp)].
    + rewrite Ew. exact Hauto.
    + rewrite Ew. exact Hrest.
    + exists m'. cbn [run]. rewrite Ef. split; [ exact Er | ].
      rewrite Hm, Hs, Hp, Ew.
      split; [ reflexivity | ]. split; [ reflexivity | ].
      cbn [update_boids current_mode pattern_time].
      change (length ((events, now) :: inputs)) with (S (length inputs)).
      rewrite S_INR. unfold is_pattern.
      destruct (mode_eqb (current_mode (world m)) MODE_NORMAL);
        cbn [negb]; lra.
Qed.

Lemma pattern_clock_between_transitions_witness :
  exists m', run auto_rose_main
               [([], 30%Z); ([KeyPress XK_n], 31%Z);
                ([ConfigureNotify 640 480], 64%Z)] = Some m'
             /\ current_mode (world m') = MODE_ROSE
             /\ pattern_time (world m') = 0.03.
Proof.
  destruct (pattern_clock_between_transitions auto_rose_main
              [([], 30%Z); ([KeyPress XK_n], 31%Z);
               ([ConfigureNotify 640 480], 64%Z)] eq_refl)
    as [m' (Er & Hm & _ & Hp)].
  - repeat constructor.
  - exists m'. split; [ exact Er | ]. split; [ exact Hm | ].
    rewrite Hp. simpl. lra.
Defined.
